(** * multi-visual-tasks: label-fusion inference and box transforms

    Shallow embedding of
      - [inference.py]: [infer_labels], [save_submit_json],
        [get_label_mapping], [save_det_json], [run_emb_task];
      - [mvt/datasets/transforms/transforms.py]: [JointRandomFlip],
        [JointRandomCrop], [MinIoURandomCrop], [MosaicPipeline],
        [GtBBoxesFilter], [ImgRandomCrop.get_params];
      - [mvt/blocks/roi_heads/test_mixins.py]:
        [MaskTestMixin.simple_test_mask];
      - [mvt/datasets/detection2ds/det_base.py]: [_set_group_flag],
        [_rand_another], [batch_rand_others].

    Conventions.  Python dictionaries are finite maps ([gmap]); a raised
    exception is the [Raise] branch of [res]; JSON numbers and box
    coordinates are rationals ([Q]) wherever a property only depends on
    comparisons, and IEEE binary64 ([float]) where rounding is the point. *)

From Stdlib Require Import ZArith QArith Qround Qabs Floats.PrimFloat Uint63 Lia Lqa.
From stdpp Require Import gmap strings list.

Local Open Scope Z_scope.

(** ** Python exceptions and results *)

Inductive exn : Type :=
| KeyError
| IndexError
| TypeError
| ValueError
| AssertionError
| UnboundLocalError
| ZeroDivisionError
| FileNotFoundError.

Inductive res (A : Type) : Type :=
| Ok (a : A)
| Raise (e : exn).

Arguments Ok {A} a.
Arguments Raise {A} e.

#[export] Instance res_ret : MRet res := fun A a => Ok a.
#[export] Instance res_bind : MBind res := fun A B f m =>
  match m with
  | Ok a => f a
  | Raise e => Raise e
  end.

(** [d[k]]: a missing key raises [KeyError]. *)
Definition getitem `{Countable K} {V : Type} (d : gmap K V) (k : K) : res V :=
  match d !! k with
  | Some v => Ok v
  | None => Raise KeyError
  end.

(** [l[i]] on a sequence: out of range raises [IndexError]. *)
Definition index {A : Type} (l : list A) (i : nat) : res A :=
  match l !! i with
  | Some a => Ok a
  | None => Raise IndexError
  end.

(** A comprehension whose body may raise: the first exception wins. *)
Fixpoint for_each {A B : Type} (f : A -> res B) (l : list A) : res (list B) :=
  match l with
  | [] => Ok []
  | a :: l' => b ← f a; bs ← for_each f l'; mret (b :: bs)
  end.

(** Comparison of numbers: [x < y] on rationals. *)
Definition Qltb (x y : Q) : bool := negb (Qle_bool y x).

(** ** inference.py *)

Module Inference.

(** *** Sorting *)

(** [np.argsort] of one row: the indices of the row ordered by value.
    Equal values keep their index order: the entries are inserted from
    the last to the first, each before the entries that are not
    smaller. *)
Fixpoint insert_by (kv : Q * nat) (l : list (Q * nat)) : list (Q * nat) :=
  match l with
  | [] => [kv]
  | kv' :: l' =>
      if Qle_bool kv.1 kv'.1 then kv :: l else kv' :: insert_by kv l'
  end.

Definition argsort (row : list Q) : list nat :=
  (foldr insert_by [] (zip row (seq 0 (length row)))).*2.

(** *** Vote counting: [collections.Counter] keeps first-insertion order *)

Fixpoint counter_add (x : Z) (c : list (Z * nat)) : list (Z * nat) :=
  match c with
  | [] => [(x, 1%nat)]
  | (y, n) :: c' =>
      if decide (x = y) then (y, S n) :: c' else (y, n) :: counter_add x c'
  end.

Definition Counter (l : list Z) : list (Z * nat) :=
  foldl (fun c x => counter_add x c) [] l.

(** [max(items, key=count)]: the first item with the largest count. *)
Fixpoint max_by_count (best : Z * nat) (c : list (Z * nat)) : Z * nat :=
  match c with
  | [] => best
  | kv :: c' =>
      max_by_count (if (best.2 <? kv.2)%nat then kv else best) c'
  end.

(** [votes.most_common(1)]: empty for an empty counter. *)
Definition most_common_1 (c : list (Z * nat)) : list (Z * nat) :=
  match c with
  | [] => []
  | kv :: c' => [max_by_count kv c']
  end.

(** [a[:k]] for a Python integer [k]. *)
Definition slice_to {A : Type} (k : Z) (l : list A) : list A :=
  if 0 <=? k then take (Z.to_nat k) l
  else take (length l - Z.to_nat (- k)) l.

(** *** Model outputs *)

Definition embedding : Type := list Q.

Record qry_outputs : Type := {
  qry_embeddings : list embedding;
  qry_bbox_ids : list Z
}.

Record ref_outputs : Type := {
  ref_embeddings : list embedding;
  ref_labels : list Z
}.

(** The dictionary returned by [infer_labels]: the key
    ['labels_top_{k}'] is represented by [k]. *)
Record outputs : Type := {
  bbox_ids : list Z;
  labels_top : gmap Z (list Z)
}.

Section InferLabels.

(** [LpDistance()] applied to one query and one reference embedding. *)
Variable dist_func : embedding -> embedding -> Q.

(** Lines 241-244: [pred_labels = ref_labels[np.argsort(mat, axis=1)]]. *)
Definition pred_labels (qry : qry_outputs) (ref : ref_outputs)
  : res (list (list Z)) :=
  let mat := map (fun q => map (dist_func q) (ref_embeddings ref))
                 (qry_embeddings qry) in
  let mat_inds := map argsort mat in
  for_each (for_each (index (ref_labels ref))) mat_inds.

(** Line 252: [pred_labels[:, 0]], for a matrix with [ncols] columns. *)
Definition column_0 (ncols : nat) (pl : list (list Z)) : res (list Z) :=
  if decide (ncols = 0%nat) then Raise IndexError
  else for_each (fun row => index row 0) pl.

(** Lines 255-264: the majority vote among the [k] nearest labels. *)
Definition vote_row (label_mapping : gmap Z Z) (k : Z) (row : list Z)
  : res Z :=
  let top_k := slice_to k row in
  let votes := Counter top_k in
  first ← index (most_common_1 votes) 0;
  getitem label_mapping first.1.

Definition vote_labels (label_mapping : gmap Z Z) (k : Z)
  (pl : list (list Z)) : res (list Z) :=
  for_each (vote_row label_mapping k) pl.

(** Lines 249-264: one iteration of [for k in rank_list]. *)
Definition rank_step (label_mapping : gmap Z Z) (ncols : nat)
  (pl : list (list Z)) (result : outputs) (k : Z) : res outputs :=
  if decide (k = 1) then
    col ← column_0 ncols pl;
    mret {| bbox_ids := bbox_ids result;
            labels_top := <[k := col]> (labels_top result) |}
  else
    labs ← vote_labels label_mapping k pl;
    mret {| bbox_ids := bbox_ids result;
            labels_top := <[k := labs]> (labels_top result) |}.

Fixpoint rank_loop (label_mapping : gmap Z Z) (ncols : nat)
  (pl : list (list Z)) (result : outputs) (rank_list : list Z)
  : res outputs :=
  match rank_list with
  | [] => Ok result
  | k :: ks =>
      result' ← rank_step label_mapping ncols pl result k;
      rank_loop label_mapping ncols pl result' ks
  end.

Definition infer_labels (qry : qry_outputs) (ref : ref_outputs)
  (label_mapping : gmap Z Z) (rank_list : list Z) : res outputs :=
  pl ← pred_labels qry ref;
  rank_loop label_mapping (length (ref_embeddings ref)) pl
    {| bbox_ids := qry_bbox_ids qry; labels_top := ∅ |} rank_list.

End InferLabels.

(** Modelled from the spec: [LpDistance] (mvt/cores/metric_ops) is the
    Euclidean distance; sorting by it is sorting by its square, which is
    rational. *)
Definition sq_euclidean (a b : embedding) : Q :=
  foldr Qplus 0%Q (zip_with (fun x y => (x - y) * (x - y))%Q a b).

(** *** Detection and submission JSON *)

Record image_info : Type := {
  file_name : string;
  img_id : Z
}.

Record annotation : Type := {
  ann_image_id : Z;
  ann_id : Z;
  ann_bbox : list Z;
  ann_category_id : Z;
  ann_score : Q
}.

Record det_json : Type := {
  images : list image_info;
  annotations : list annotation
}.

(** The files the function reads and writes, by path. *)
Abbreviation filesystem := (gmap string det_json).

(** Lines 272-274: later entries of [bbox_ids] overwrite earlier ones. *)
Fixpoint build_pred_dict (pred_dict : gmap Z Z) (i : nat)
  (ids : list Z) (labels : list Z) : res (gmap Z Z) :=
  match ids with
  | [] => Ok pred_dict
  | bbox_id :: ids' =>
      label ← index labels i;
      build_pred_dict (<[bbox_id := label]> pred_dict) (S i) ids' labels
  end.

Definition pred_dict_of (out : outputs) (top_k : Z) : res (gmap Z Z) :=
  labels ← getitem (labels_top out) top_k;
  build_pred_dict ∅ 0 (bbox_ids out) labels.

Definition set_category_id (ann : annotation) (c : Z) : annotation :=
  {| ann_image_id := ann_image_id ann;
     ann_id := ann_id ann;
     ann_bbox := ann_bbox ann;
     ann_category_id := c;
     ann_score := ann_score ann |}.

(** Lines 279-287: the loop over [data_ori['annotations']], with
    [ann_new] the list built so far.  The [assert] precedes the score
    test; [int(label)] is the identity on integer labels. *)
Fixpoint fuse (pred_dict : gmap Z Z) (score_thr : Q)
  (ann_new : list annotation) (anns : list annotation)
  : res (list annotation) :=
  match anns with
  | [] => Ok ann_new
  | ann :: anns' =>
      match pred_dict !! ann_id ann with
      | None => Raise AssertionError
      | Some label =>
          if Qltb (ann_score ann) score_thr then
            fuse pred_dict score_thr ann_new anns'
          else
            fuse pred_dict score_thr
              (ann_new ++ [set_category_id ann label]) anns'
      end
  end.

(** [save_submit_json]: the result of the call and the file system it
    leaves behind. *)
Definition save_submit_json (out : outputs) (det_json_path out_json_path : string)
  (score_thr : Q) (top_k : Z) (fs : filesystem) : res unit * filesystem :=
  match pred_dict_of out top_k with
  | Raise e => (Raise e, fs)
  | Ok pred_dict =>
      match fs !! det_json_path with
      | None => (Raise FileNotFoundError, fs)
      | Some data_ori =>
          match fuse pred_dict score_thr [] (annotations data_ori) with
          | Raise e => (Raise e, fs)
          | Ok ann_new =>
              (Ok tt,
               <[out_json_path :=
                  {| images := images data_ori; annotations := ann_new |}]> fs)
          end
      end
  end.

(** *** Category taxonomies *)

Record category : Type := {
  cat_id : Z;
  cat_name : string
}.

(** Lines 361-365. *)
Definition build_qry_dict (qry_cat_list : list category) : gmap string Z :=
  foldl (fun d c => <[cat_name c := cat_id c]> d) ∅ qry_cat_list.

(** Lines 367-374. *)
Definition mapping_step (qry_dict : gmap string Z) (m : gmap Z Z)
  (ref_cat : category) : gmap Z Z :=
  match qry_dict !! cat_name ref_cat with
  | Some q => <[cat_id ref_cat := q]> m
  | None => <[cat_id ref_cat := 0]> m
  end.

Definition get_label_mapping (ref_cat_list qry_cat_list : list category)
  : gmap Z Z :=
  foldl (mapping_step (build_qry_dict qry_cat_list)) ∅ ref_cat_list.

End Inference.

(** ** mvt/datasets/transforms/transforms.py *)

Module Transforms.

(** *** Numbers *)

(** [int(x)]: truncation towards zero. *)
Definition int_of (q : Q) : Z := Z.quot (Qnum q) (Z.pos (Qden q)).

(** [np.maximum], [np.minimum] and [np.clip] on finite numbers. *)
Definition maximum (a b : Q) : Q := if Qltb a b then b else a.
Definition minimum (a b : Q) : Q := if Qltb b a then b else a.
Definition clip (x lo hi : Q) : Q := minimum (maximum x lo) hi.

(** The result of a numpy division, which does not raise on a zero
    divisor: [x / 0] is [inf], [-inf] or [nan] by the sign of [x]. *)
Inductive xnum : Type :=
| Fin (q : Q)
| PInf
| NInf
| NaN.

Definition xdiv (a b : Q) : xnum :=
  if Qeq_bool b 0 then
    if Qltb 0 a then PInf else if Qltb a 0 then NInf else NaN
  else Fin (a / b).

(** [np.maximum]: a [nan] operand gives [nan]. *)
Definition xmaximum (a b : xnum) : xnum :=
  match a, b with
  | NaN, _ | _, NaN => NaN
  | PInf, _ | _, PInf => PInf
  | NInf, y => y
  | x, NInf => x
  | Fin p, Fin q => Fin (maximum p q)
  end.

(** [a < m]: false for [nan] and [inf]. *)
Definition xltb (a : xnum) (m : Q) : bool :=
  match a with
  | Fin p => Qltb p m
  | NInf => true
  | PInf | NaN => false
  end.

(** *** Floating-point numbers

    The elements of a floating-point array are binary numbers with
    [prec] significant bits ([24] for [float32], [53] for [float64]),
    and an operation on them is the exact operation followed by the
    rounding to the nearest such number, ties to the even one.
    Overflow and subnormal numbers are not modelled. *)

(** [2^e] for an integer [e]. *)
Definition pow2 (e : Z) : Q :=
  if 0 <=? e then inject_Z (2 ^ e) else (/ inject_Z (2 ^ (- e)))%Q.

(** The integer nearest to [q], the even one of two. *)
Definition round_half_even (q : Q) : Z :=
  let f := Qfloor q in
  let r := (q - inject_Z f)%Q in
  if Qltb r (1 # 2) then f
  else if Qltb (1 # 2) r then f + 1
  else if Z.even f then f else f + 1.

(** The exponent of a positive number: the largest [k] with
    [2^k <= q]. *)
Definition ilog2 (q : Q) : Z :=
  let k := Z.log2 (Qnum q) - Z.log2 (Z.pos (Qden q)) in
  if Qltb q (pow2 k) then k - 1 else k.

Definition round_to (prec : Z) (q : Q) : Q :=
  if Qeq_bool q 0 then 0%Q
  else
    let a := Qabs q in
    let e := ilog2 a - (prec - 1) in
    let m := round_half_even (a / pow2 e) in
    let r := (inject_Z m * pow2 e)%Q in
    if Qltb q 0 then (- r)%Q else r.

(** *** The random generator

    A generator is an arbitrary stream of raw draws; the fractional part
    of a draw is a sample of [0, 1).  Every sampling function reads the
    draw at the current position. *)

Definition rng : Type := nat -> Q.

Definition unit_draw (g : rng) (pos : nat) : Q :=
  (g pos - inject_Z (Qfloor (g pos)))%Q.

(** [np.random.randint(lo, hi)]. *)
Definition randint (g : rng) (pos : nat) (lo hi : Z) : Z :=
  lo + Qfloor (unit_draw g pos * inject_Z (hi - lo)).

(** [np.random.uniform(low, high)]. *)
Definition uniform (g : rng) (pos : nat) (low high : Q) : Q :=
  (low + (high - low) * unit_draw g pos)%Q.

(** [np.random.choice(seq)]. *)
Definition choice {A : Type} (g : rng) (pos : nat) (l : list A) : res A :=
  match l with
  | [] => Raise ValueError
  | _ => index l (Z.to_nat (Qfloor (unit_draw g pos * inject_Z (Z.of_nat (length l)))))
  end.

(** *** Arrays *)

(** One row [x1, y1, x2, y2] of an N x 4 box array. *)
Record box : Type := {
  bx1 : Q;
  by1 : Q;
  bx2 : Q;
  by2 : Q
}.

(** An integer patch [x1, y1, x2, y2]. *)
Record patch : Type := {
  px1 : Z;
  py1 : Z;
  px2 : Z;
  py2 : Z
}.

(** An H x W x C pixel array: its shape and its entries. *)
Record image : Type := {
  img_h : Z;
  img_w : Z;
  img_c : Z;
  pix : Z -> Z -> Z -> Z
}.

(** The start or stop [i] of a slice along an axis of length [n]. *)
Definition slice_index (n i : Z) : Z :=
  if i <? 0 then Z.max (i + n) 0 else Z.min i n.

(** [img[y1:y2, x1:x2]]. *)
Definition imslice (img : image) (y1 y2 x1 x2 : Z) : image :=
  let ya := slice_index (img_h img) y1 in
  let yb := slice_index (img_h img) y2 in
  let xa := slice_index (img_w img) x1 in
  let xb := slice_index (img_w img) x2 in
  {| img_h := Z.max (yb - ya) 0;
     img_w := Z.max (xb - xa) 0;
     img_c := img_c img;
     pix := fun y x c => pix img (ya + y) (xa + x) c |}.

(** [arr[mask]] for a boolean mask: the rows at the true positions.  The
    mask must be as long as the array. *)
Fixpoint mask_select {A : Type} (m : list bool) (l : list A) : list A :=
  match m, l with
  | b :: m', a :: l' =>
      if b then a :: mask_select m' l' else mask_select m' l'
  | _, _ => []
  end.

Definition bool_index {A : Type} (m : list bool) (l : list A) : res (list A) :=
  if decide (length m = length l) then Ok (mask_select m l)
  else Raise IndexError.

(** [mask.nonzero()[0]]: the positions of the true entries. *)
Fixpoint nonzero_from (i : nat) (m : list bool) : list nat :=
  match m with
  | [] => []
  | b :: m' => if b then i :: nonzero_from (S i) m' else nonzero_from (S i) m'
  end.

Definition nonzero (m : list bool) : list nat := nonzero_from 0 m.

(** [mask.any()]. *)
Definition any (m : list bool) : bool := existsb id m.

(** *** JointRandomFlip.bbox_flip

    The element type of the array is a parameter: the function is the
    same on integer and on floating-point arrays, the subtraction is
    not. *)

Class Scalar (A : Type) : Type := {
  (** [n - x] for a Python integer [n] and an array element [x] *)
  int_sub : Z -> A -> A
}.

#[export] Instance Scalar_Z : Scalar Z := {| int_sub n x := n - x |}.

#[export] Instance Scalar_Q : Scalar Q :=
  {| int_sub n x := (inject_Z n - x)%Q |}.

Definition float_of_Z (n : Z) : float :=
  if n <? 0 then PrimFloat.opp (PrimFloat.of_uint63 (Uint63.of_Z (- n)))
  else PrimFloat.of_uint63 (Uint63.of_Z n).

#[export] Instance Scalar_float : Scalar float :=
  {| int_sub n x := PrimFloat.sub (float_of_Z n) x |}.

(** A two-dimensional array of shape [(len rows, ncols)]. *)
Record array2 (A : Type) : Type := {
  ncols : nat;
  rows : list (list A)
}.

Arguments ncols {A} _.
Arguments rows {A} _.

Section BboxFlip.

Context {A : Type} `{Scalar A}.

(** [flipped[..., 0::4] = w - bboxes[..., 2::4]] and
    [flipped[..., 2::4] = w - bboxes[..., 0::4]] on one row. *)
Fixpoint flip_row_horizontal (w : Z) (row : list A) : list A :=
  match row with
  | x1 :: y1 :: x2 :: y2 :: rest =>
      int_sub w x2 :: y1 :: int_sub w x1 :: y2 :: flip_row_horizontal w rest
  | _ => row
  end.

Fixpoint flip_row_vertical (h : Z) (row : list A) : list A :=
  match row with
  | x1 :: y1 :: x2 :: y2 :: rest =>
      x1 :: int_sub h y2 :: x2 :: int_sub h y1 :: flip_row_vertical h rest
  | _ => row
  end.

Fixpoint flip_row_diagonal (h w : Z) (row : list A) : list A :=
  match row with
  | x1 :: y1 :: x2 :: y2 :: rest =>
      int_sub w x2 :: int_sub h y2 :: int_sub w x1 :: int_sub h y1
        :: flip_row_diagonal h w rest
  | _ => row
  end.

(** [img_shape] is [(height, width)]. *)
Definition bbox_flip (bboxes : array2 A) (img_shape : Z * Z)
  (direction : string) : res (array2 A) :=
  if decide (ncols bboxes `mod` 4 = 0)%nat then
    if decide (direction = "horizontal") then
      let w := img_shape.2 in
      Ok {| ncols := ncols bboxes;
            rows := map (flip_row_horizontal w) (rows bboxes) |}
    else if decide (direction = "vertical") then
      let h := img_shape.1 in
      Ok {| ncols := ncols bboxes;
            rows := map (flip_row_vertical h) (rows bboxes) |}
    else if decide (direction = "diagonal") then
      let w := img_shape.2 in
      let h := img_shape.1 in
      Ok {| ncols := ncols bboxes;
            rows := map (flip_row_diagonal h w) (rows bboxes) |}
    else Raise ValueError
  else Raise AssertionError.

End BboxFlip.

(** *** Sample records

    A record ([results]) is a dictionary from field names to values.
    Instance masks live in [mvt/utils/mask_util]; a mask and its [crop]
    are parameters here. *)

Section Records.

Variable mask : Type.
Variable mask_crop : patch -> mask -> mask.

(** Box arrays that are updated in place are objects of a store,
    referred to by their location ([VBoxesAt]); everywhere else an array
    is its value. *)
Inductive value : Type :=
| VNone
| VBool (b : bool)
| VInt (n : Z)
| VStr (s : string)
| VKeys (ks : list string)
| VShape (s : list Z)
| VImg (a : image)
| VBoxes (bs : list box)
| VBoxesAt (l : positive)
| VLabels (ls : list Z)
| VMasks (ms : list mask).

Definition as_keys (v : value) : res (list string) :=
  match v with
  | VKeys ks => Ok ks
  | _ => Raise TypeError
  end.

Definition as_img (v : value) : res image :=
  match v with
  | VImg a => Ok a
  | _ => Raise TypeError
  end.

Definition as_boxes (v : value) : res (list box) :=
  match v with
  | VBoxes bs => Ok bs
  | _ => Raise TypeError
  end.

Definition as_labels (v : value) : res (list Z) :=
  match v with
  | VLabels ls => Ok ls
  | _ => Raise TypeError
  end.

Definition as_shape (v : value) : res (list Z) :=
  match v with
  | VShape s => Ok s
  | _ => Raise TypeError
  end.

(** [results.get(k, default)] for a list of field names. *)
Definition get_keys (results : gmap string value) (k : string)
  (default : list string) : res (list string) :=
  match results !! k with
  | Some v => as_keys v
  | None => Ok default
  end.

(** [arr[valid]] on a label or box array held in a record. *)
Definition value_bool_index (m : list bool) (v : value) : res value :=
  match v with
  | VLabels ls => ls' ← bool_index m ls; mret (VLabels ls')
  | VBoxes bs => bs' ← bool_index m bs; mret (VBoxes bs')
  | _ => Raise TypeError
  end.

(** The key correspondence from boxes to labels and masks. *)
Definition bbox2label : gmap string string :=
  {[ "gt_bboxes" := "gt_labels"; "gt_bboxes_ignore" := "gt_labels_ignore" ]}.

Definition bbox2mask : gmap string string :=
  {[ "gt_bboxes" := "gt_masks"; "gt_bboxes_ignore" := "gt_masks_ignore" ]}.

(** [label_key = self.bbox2label.get(key)];
    [if label_key in results: results[label_key] = results[label_key][m]]. *)
Definition filter_labels (key : string) (m : list bool)
  (results : gmap string value) : res (gmap string value) :=
  match bbox2label !! key with
  | Some label_key =>
      match results !! label_key with
      | Some v =>
          v' ← value_bool_index m v;
          mret (<[label_key := v']> results)
      | None => Ok results
      end
  | None => Ok results
  end.

(** [mask_key = self.bbox2mask.get(key)];
    [if mask_key in results:
       results[mask_key] = results[mask_key][m.nonzero()[0]].crop(p)]. *)
Definition filter_masks (key : string) (m : list bool) (p : patch)
  (results : gmap string value) : res (gmap string value) :=
  match bbox2mask !! key with
  | Some mask_key =>
      match results !! mask_key with
      | Some (VMasks ms) =>
          ms' ← for_each (index ms) (nonzero m);
          mret (<[mask_key := VMasks (map (mask_crop p) ms')]> results)
      | Some _ => Raise TypeError
      | None => Ok results
      end
  | None => Ok results
  end.

(** The end of an iteration over a box field, in [JointRandomCrop] and
    in [MinIoURandomCrop] alike: the kept boxes are stored, then the
    labels and the masks of the field follow the same mask [m]. *)
Definition store_boxes (key : string) (kept : list box) (m : list bool)
  (p : patch) (results : gmap string value) : res (gmap string value) :=
  let results := <[key := VBoxes kept]> results in
  results ← filter_labels key m results;
  filter_masks key m p results.

(** [for key in results.get('seg_fields', []):
       results[key] = results[key][y1:y2, x1:x2]]. *)
Fixpoint crop_segs (y1 y2 x1 x2 : Z) (keys : list string)
  (results : gmap string value) : res (gmap string value) :=
  match keys with
  | [] => Ok results
  | key :: keys' =>
      v ← getitem results key;
      seg ← as_img v;
      crop_segs y1 y2 x1 x2 keys'
        (<[key := VImg (imslice seg y1 y2 x1 x2)]> results)
  end.

(** *** GtBBoxesFilter

    The test is a test on floating-point numbers: in [h + 1e-16] the
    stabilizer is absorbed by the rounding unless [h] is small, and a
    quotient next to [max_aspect_ratio] may round to it.  [prec] is the
    precision of the element type of the box array; a Python number
    that meets the array is converted to this type. *)

Variable prec : Z.

Record GtBBoxesFilter : Type := {
  min_size : Q;
  max_aspect_ratio : Q
}.

(** The operations of the array on finite numbers. *)
Definition fl (q : Q) : Q := round_to prec q.
Definition fsub (a b : Q) : Q := fl (a - b).
Definition fadd (a b : Q) : Q := fl (a + b).
Definition fdiv (a b : Q) : xnum :=
  match xdiv a b with
  | Fin q => Fin (fl q)
  | x => x
  end.

(** Lines 2658-2661, for one row. *)
Definition box_w (b : box) : Q := fsub (bx2 b) (bx1 b).
Definition box_h (b : box) : Q := fsub (by2 b) (by1 b).

Definition eps16 : Q := 1 # 10000000000000000.

Definition aspect_ratio (b : box) : xnum :=
  xmaximum (fdiv (box_w b) (fadd (box_h b) (fl eps16)))
           (fdiv (box_h b) (fadd (box_w b) (fl eps16))).

Definition gt_valid (self : GtBBoxesFilter) (b : box) : bool :=
  Qltb (fl (min_size self)) (box_w b)
  && Qltb (fl (min_size self)) (box_h b)
  && xltb (aspect_ratio b) (fl (max_aspect_ratio self)).

Definition GtBBoxesFilter_call (self : GtBBoxesFilter)
  (results : gmap string value) : res (gmap string value) :=
  vb ← getitem results "gt_bboxes";
  labels ← getitem results "gt_labels";
  bboxes ← as_boxes vb;
  let valid := map (gt_valid self) bboxes in
  kept ← bool_index valid bboxes;
  let results := <["gt_bboxes" := VBoxes kept]> results in
  labels' ← value_bool_index valid labels;
  mret (<["gt_labels" := labels']> results).

(** *** JointRandomCrop *)

Record JointRandomCrop : Type := {
  crop_size : Z * Z;
  allow_negative_crop : bool
}.

(** The variables the image loop leaves behind. *)
Record crop_window : Type := {
  offset_h : Z;
  offset_w : Z;
  crop_y1 : Z;
  crop_y2 : Z;
  crop_x1 : Z;
  crop_x2 : Z;
  img_shape : Z * Z * Z
}.

Definition sample_window (self : JointRandomCrop) (g : rng) (pos : nat)
  (img : image) : crop_window :=
  let margin_h := Z.max (img_h img - (crop_size self).1) 0 in
  let margin_w := Z.max (img_w img - (crop_size self).2) 0 in
  let offset_h := randint g pos 0 (margin_h + 1) in
  let offset_w := randint g (S pos) 0 (margin_w + 1) in
  let crop_y1 := offset_h in
  let crop_y2 := offset_h + (crop_size self).1 in
  let crop_x1 := offset_w in
  let crop_x2 := offset_w + (crop_size self).2 in
  let img' := imslice img crop_y1 crop_y2 crop_x1 crop_x2 in
  {| offset_h := offset_h; offset_w := offset_w;
     crop_y1 := crop_y1; crop_y2 := crop_y2;
     crop_x1 := crop_x1; crop_x2 := crop_x2;
     img_shape := (img_h img', img_w img', img_c img') |}.


(** Lines 921-926: translate by the offset, clip to the cropped image. *)
Definition crop_box (win : crop_window) (b : box) : box :=
  let ow := inject_Z (offset_w win) in
  let oh := inject_Z (offset_h win) in
  let h := inject_Z (img_shape win).1.1 in
  let w := inject_Z (img_shape win).1.2 in
  {| bx1 := clip (bx1 b - ow) 0 w;
     by1 := clip (by1 b - oh) 0 h;
     bx2 := clip (bx2 b - ow) 0 w;
     by2 := clip (by2 b - oh) 0 h |}.

(** Line 927. *)
Definition box_valid (b : box) : bool :=
  Qltb (bx1 b) (bx2 b) && Qltb (by1 b) (by2 b).





(** *** MinIoURandomCrop *)

Record MinIoURandomCrop : Type := {
  min_ious : list Q;
  min_crop_size : Q
}.

(** [self.sample_mode = (1, *min_ious, 0)]. *)
Definition sample_mode (self : MinIoURandomCrop) : list Q :=
  1%Q :: min_ious self ++ [0%Q].

(** [bbox_overlaps_np] ([mvt/utils/bbox_util]) on one patch and one box:
    their intersection over union. *)
Variable bbox_overlaps_np : patch -> box -> Q.

(** [overlaps.min()] of a non-empty array. *)
Definition array_min (x : Q) (l : list Q) : Q := foldl minimum x l.

(** Lines 1784-1792, for one row: the centre lies strictly inside. *)
Definition is_center_of_bbox_in_patch (p : patch) (b : box) : bool :=
  let cx := ((bx1 b + bx2 b) / 2)%Q in
  let cy := ((by1 b + by2 b) / 2)%Q in
  Qltb (inject_Z (px1 p)) cx && Qltb (inject_Z (py1 p)) cy
  && Qltb cx (inject_Z (px2 p)) && Qltb cy (inject_Z (py2 p)).

(** Lines 1801-1803, for one row: clip to the patch, move to its origin. *)
Definition clip_to_patch (p : patch) (b : box) : box :=
  {| bx1 := (maximum (bx1 b) (inject_Z (px1 p)) - inject_Z (px1 p))%Q;
     by1 := (maximum (by1 b) (inject_Z (py1 p)) - inject_Z (py1 p))%Q;
     bx2 := (minimum (bx2 b) (inject_Z (px2 p)) - inject_Z (px1 p))%Q;
     by2 := (minimum (by2 b) (inject_Z (py2 p)) - inject_Z (py1 p))%Q |}.

(** Lines 1798-1816: one iteration of the loop over the box fields. *)
Definition patch_step (p : patch) (key : string)
  (results : gmap string value) : res (gmap string value) :=
  v ← getitem results key;
  boxes ← as_boxes v;
  let m := map (is_center_of_bbox_in_patch p) boxes in
  kept ← bool_index m boxes;
  store_boxes key (map (clip_to_patch p) kept) m p results.

(** Lines 1797-1816: the loop over the box fields. *)
Fixpoint patch_bboxes (p : patch) (keys : list string)
  (results : gmap string value) : res (gmap string value) :=
  match keys with
  | [] => Ok results
  | key :: keys' =>
      results ← patch_step p key results;
      patch_bboxes p keys' results
  end.

(** Lines 1758-1773: the sampled patch, [None] when the attempt is given
    up, and the position of the generator afterwards. *)
Definition sample_patch (self : MinIoURandomCrop) (g : rng) (pos : nat)
  (h w : Z) : res (option patch * nat) :=
  let new_w := uniform g pos (min_crop_size self * inject_Z w) (inject_Z w) in
  let new_h :=
    uniform g (S pos) (min_crop_size self * inject_Z h) (inject_Z h) in
  if Qeq_bool new_w 0 then Raise ZeroDivisionError
  else if Qltb (new_h / new_w) (1 # 2) || Qltb 2 (new_h / new_w)
  then Ok (None, S (S pos))
  else
    let left := uniform g (S (S pos)) (inject_Z w - new_w) 1 in
    let top := uniform g (S (S (S pos))) (inject_Z h - new_h) 1 in
    let p := {| px1 := int_of left; py1 := int_of top;
                px2 := int_of (left + new_w);
                py2 := int_of (top + new_h) |} in
    if bool_decide (px2 p = px1 p) || bool_decide (py2 p = py1 p)
    then Ok (None, S (S (S (S pos))))
    else Ok (Some p, S (S (S (S pos)))).

(** Lines 1774-1827: the rest of an attempt, for the sampled patch.
    [boxes] is the concatenation of the box fields; [None] stands for
    [continue]. *)
Definition crop_to_patch (min_iou : Q) (p : patch) (img : image)
  (boxes : list box) (results : gmap string value)
  : res (option (gmap string value)) :=
  let overlaps := map (bbox_overlaps_np p) boxes in
  match overlaps with
  | o :: os =>
      if Qltb (array_min o os) min_iou then Ok None
      else
        let m := map (is_center_of_bbox_in_patch p) boxes in
        if negb (any m) then Ok None
        else
          bbox_fields ← get_keys results "bbox_fields" [];
          results ← patch_bboxes p bbox_fields results;
          let img' := imslice img (py1 p) (py2 p) (px1 p) (px2 p) in
          let results := <["img" := VImg img']> results in
          let results :=
            <["img_shape" := VShape [img_h img'; img_w img'; img_c img']]>
              results in
          seg_fields ← get_keys results "seg_fields" [];
          results ← crop_segs (py1 p) (py2 p) (px1 p) (px2 p)
                      seg_fields results;
          mret (Some results)
  | [] =>
      let img' := imslice img (py1 p) (py2 p) (px1 p) (px2 p) in
      let results := <["img" := VImg img']> results in
      let results :=
        <["img_shape" := VShape [img_h img'; img_w img'; img_c img']]>
          results in
      seg_fields ← get_keys results "seg_fields" [];
      results ← crop_segs (py1 p) (py2 p) (px1 p) (px2 p) seg_fields results;
      mret (Some results)
  end.

(** Lines 1757-1827: [for i in range(n)].  The loop either returns a
    record or falls through, at some position of the generator. *)
Fixpoint attempts (n : nat) (self : MinIoURandomCrop) (g : rng) (pos : nat)
  (min_iou : Q) (img : image) (boxes : list box)
  (results : gmap string value)
  : res (option (gmap string value) * nat) :=
  match n with
  | O => Ok (None, pos)
  | S n' =>
      '(op, pos') ← sample_patch self g pos (img_h img) (img_w img);
      match op with
      | None => attempts n' self g pos' min_iou img boxes results
      | Some p =>
          r ← crop_to_patch min_iou p img boxes results;
          match r with
          | None => attempts n' self g pos' min_iou img boxes results
          | Some results' => Ok (Some results', pos')
          end
      end
  end.

(** Lines 1750-1827: [while True].  [fuel] bounds the number of sampled
    modes; [None] means the loop is still running when it is used up.
    The result carries [self.mode]. *)
Fixpoint mode_loop (fuel : nat) (self : MinIoURandomCrop) (g : rng)
  (pos : nat) (img : image) (boxes : list box)
  (results : gmap string value)
  : option (res (gmap string value * Q)) :=
  match fuel with
  | O => None
  | S fuel' =>
      match choice g pos (sample_mode self) with
      | Raise e => Some (Raise e)
      | Ok mode =>
          if Qeq_bool mode 1 then Some (Ok (results, mode))
          else
            match attempts 50 self g (S pos) mode img boxes results with
            | Raise e => Some (Raise e)
            | Ok (Some results', _) => Some (Ok (results', mode))
            | Ok (None, pos') => mode_loop fuel' self g pos' img boxes results
            end
      end
  end.

(** Lines 1747-1748: [np.concatenate] of the box fields. *)
Definition concat_boxes (keys : list string) (results : gmap string value)
  : res (list box) :=
  match keys with
  | [] => Raise ValueError
  | _ =>
      arrays ← for_each (fun key => v ← getitem results key; as_boxes v) keys;
      mret (concat arrays)
  end.

(** Lines 1743-1749: the checks and reads before the loop. *)
Definition is_img_list (v : value) : bool :=
  match v with
  | VKeys ks => bool_decide (ks = ["img"])
  | _ => false
  end.

Definition crop_inputs (results : gmap string value)
  : res (image * list box) :=
  _ ← match results !! "img_fields" with
      | Some v => if is_img_list v then Ok tt else Raise AssertionError
      | None => Ok tt
      end;
  v ← getitem results "img";
  img ← as_img v;
  match results !! "bbox_fields" with
  | None => Raise AssertionError
  | Some vk =>
      keys ← as_keys vk;
      boxes ← concat_boxes keys results;
      mret (img, boxes)
  end.

Definition MinIoURandomCrop_call (fuel : nat) (self : MinIoURandomCrop)
  (g : rng) (pos : nat) (results : gmap string value)
  : option (res (gmap string value * Q)) :=
  match crop_inputs results with
  | Raise e => Some (Raise e)
  | Ok (img, boxes) => mode_loop fuel self g pos img boxes results
  end.

(** *** MosaicPipeline

    The dataset ([results['dataset']]) and the individual pipeline are
    parameters.  The box arrays of the pipelined tiles are translated in
    place, so a tile may hold them as objects of the store. *)

Definition as_int (v : value) : res Z :=
  match v with
  | VInt n => Ok n
  | _ => Raise TypeError
  end.

Section Mosaic.

(** [dataset.batch_rand_others(idx, n)]. *)
Variable batch_rand_others : Z -> nat -> list Z.

(** Lines 2527-2537: the record of sample [idx] before the pipeline. *)
Variable prepare : Z -> gmap string value.

(** [self.individual_pipeline], at its [i]-th call. *)
Variable individual_pipeline :
  nat -> gmap string value -> gmap positive (list box) ->
  res (option (gmap string value) * gmap positive (list box)).

Variable pad_val : Z.

(** Lines 2540-2541: [for idx in range(n)]. *)
Fixpoint pipeline_first (n i : nat) (ms : list (gmap string value))
  (st : gmap positive (list box))
  : res (list (option (gmap string value)) * gmap positive (list box)) :=
  match n with
  | O => Ok (map Some ms, st)
  | S n' =>
      match ms with
      | [] => Raise IndexError
      | r :: ms' =>
          '(r', st') ← individual_pipeline i r st;
          '(rest, st'') ← pipeline_first n' (S i) ms' st';
          mret (r' :: rest, st'')
      end
  end.

(** Lines 2522-2541.  A tile that the pipeline rejected ([None]) makes
    the first subscript of line 2543 raise. *)
Definition load_tiles (results : gmap string value)
  (st : gmap positive (list box))
  : res (list (gmap string value) * gmap positive (list box)) :=
  _ ← getitem results "dataset";
  vi ← getitem results "_idx";
  idx ← as_int vi;
  let indices := batch_rand_others idx 3 in
  '(ms, st') ← pipeline_first 4 0 (results :: map prepare indices) st;
  tiles ← for_each (fun r : option (gmap string value) =>
                      match r with
                      | Some d => Ok d
                      | None => Raise TypeError
                      end) ms;
  mret (tiles, st').

Definition pad_shape_of (results : gmap string value) : res (list Z) :=
  v ← getitem results "pad_shape";
  as_shape v.

Definition uint8 (v : Z) : Z := v `mod` 256.

(** [np.full(shape, pad_val, dtype=np.uint8)]. *)
Definition full (h w c : Z) (v : Z) : res image :=
  if (h <? 0) || (w <? 0) || (c <? 0) then Raise ValueError
  else Ok {| img_h := h; img_w := w; img_c := c;
             pix := fun _ _ _ => uint8 v |}.

(** An axis of length [src] can be assigned to one of length [dst]. *)
Definition broadcastable (src dst : Z) : bool := (src =? dst) || (src =? 1).

(** [canvas[y1:y2, x1:x2] = src]. *)
Definition paste (canvas : image) (y1 y2 x1 x2 : Z) (src : image)
  : res image :=
  let ya := slice_index (img_h canvas) y1 in
  let yb := slice_index (img_h canvas) y2 in
  let xa := slice_index (img_w canvas) x1 in
  let xb := slice_index (img_w canvas) x2 in
  let a := Z.max (yb - ya) 0 in
  let b := Z.max (xb - xa) 0 in
  if broadcastable (img_h src) a && broadcastable (img_w src) b
     && broadcastable (img_c src) (img_c canvas)
  then
    Ok {| img_h := img_h canvas; img_w := img_w canvas;
          img_c := img_c canvas;
          pix := fun y x c =>
            if (ya <=? y) && (y <? ya + a) && (xa <=? x) && (x <? xa + b)
            then uint8 (pix src (if img_h src =? 1 then 0 else y - ya)
                                (if img_w src =? 1 then 0 else x - xa)
                                (if img_c src =? 1 then 0 else c))
            else pix canvas y x c |}
  else Raise ValueError.

(** Lines 2549-2550. *)
Fixpoint new_canvas (h w c : Z) (keys : list string)
  (canvas : gmap string image) : res (gmap string image) :=
  match keys with
  | [] => Ok canvas
  | key :: keys' =>
      a ← full h w c pad_val;
      new_canvas h w c keys' (<[key := a]> canvas)
  end.

(** Lines 2563-2564. *)
Fixpoint paste_fields (y1 y2 x1 x2 : Z) (keys : list string)
  (results : gmap string value) (canvas : gmap string image)
  : res (gmap string image) :=
  match keys with
  | [] => Ok canvas
  | key :: keys' =>
      a ← getitem canvas key;
      v ← getitem results key;
      src ← as_img v;
      a' ← paste a y1 y2 x1 x2 src;
      paste_fields y1 y2 x1 x2 keys' results (<[key := a']> canvas)
  end.

Definition shift_box (x1 y1 : Z) (b : box) : box :=
  {| bx1 := (bx1 b + inject_Z x1)%Q;
     by1 := (by1 b + inject_Z y1)%Q;
     bx2 := (bx2 b + inject_Z x1)%Q;
     by2 := (by2 b + inject_Z y1)%Q |}.

(** Lines 2566-2570: the boxes of one tile move by its offset, in
    place. *)
Fixpoint shift_bboxes (x1 y1 : Z) (keys : list string)
  (results : gmap string value) (st : gmap positive (list box))
  : res (gmap string value * gmap positive (list box)) :=
  match keys with
  | [] => Ok (results, st)
  | key :: keys' =>
      v ← getitem results key;
      match v with
      | VBoxes bs =>
          shift_bboxes x1 y1 keys'
            (<[key := VBoxes (map (shift_box x1 y1) bs)]> results) st
      | VBoxesAt l =>
          bs ← getitem st l;
          shift_bboxes x1 y1 keys' results
            (<[l := map (shift_box x1 y1) bs]> st)
      | _ => Raise TypeError
      end
  end.

(** Lines 2554-2561.  From the fifth tile on no branch is taken and the
    variables keep the values of the iteration before. *)
Definition quadrant (i : nat) (cxy h w : Z) (prev : option (Z * Z * Z * Z))
  : res (Z * Z * Z * Z) :=
  match i with
  | 0%nat => Ok (cxy - w, cxy - h, cxy, cxy)
  | 1%nat => Ok (cxy, cxy - h, cxy + w, cxy)
  | 2%nat => Ok (cxy - w, cxy, cxy, cxy + h)
  | 3%nat => Ok (cxy, cxy, cxy + w, cxy + h)
  | _ =>
      match prev with
      | Some q => Ok q
      | None => Raise UnboundLocalError
      end
  end.

(** Lines 2552-2570: one iteration of the loop over the tiles.  The
    result carries [x1, y1, x2, y2] for the iteration that follows. *)
Definition place_tile (cxy : Z) (img_fields : list string) (i : nat)
  (prev : option (Z * Z * Z * Z)) (results : gmap string value)
  (canvas : gmap string image) (st : gmap positive (list box))
  : res (gmap string value * gmap string image * gmap positive (list box)
         * (Z * Z * Z * Z)) :=
  ps ← pad_shape_of results;
  '(h, w) ← match ps with
            | h :: w :: _ => Ok (h, w)
            | _ => Raise ValueError
            end;
  '(x1, y1, x2, y2) ← quadrant i cxy h w prev;
  canvas ← paste_fields y1 y2 x1 x2 img_fields results canvas;
  bbox_fields ← get_keys results "bbox_fields" [];
  '(results, st) ← shift_bboxes x1 y1 bbox_fields results st;
  mret (results, canvas, st, (x1, y1, x2, y2)).

(** Lines 2551-2570: [for i, results in enumerate(mosaic_results)]. *)
Fixpoint place_tiles (cxy : Z) (img_fields : list string) (i : nat)
  (prev : option (Z * Z * Z * Z)) (tiles : list (gmap string value))
  (canvas : gmap string image) (st : gmap positive (list box))
  : res (list (gmap string value) * gmap string image
         * gmap positive (list box)) :=
  match tiles with
  | [] => Ok ([], canvas, st)
  | results :: rest =>
      '(results, canvas, st, q) ←
        place_tile cxy img_fields i prev results canvas st;
      '(rest', canvas, st) ←
        place_tiles cxy img_fields (S i) (Some q) rest canvas st;
      mret (results :: rest', canvas, st)
  end.

(** [r[key]] as an array, through the store if need be. *)
Definition read_boxes (st : gmap positive (list box)) (key : string)
  (r : gmap string value) : res (list box) :=
  v ← getitem r key;
  match v with
  | VBoxes bs => Ok bs
  | VBoxesAt l => getitem st l
  | _ => Raise TypeError
  end.

(** Lines 2577-2578. *)
Fixpoint put_canvas (keys : list string) (canvas : gmap string image)
  (out : gmap string value) : res (gmap string value) :=
  match keys with
  | [] => Ok out
  | key :: keys' =>
      a ← getitem canvas key;
      put_canvas keys' canvas (<[key := VImg a]> out)
  end.

(** Lines 2580-2583. *)
Fixpoint put_bboxes (keys : list string) (tiles : list (gmap string value))
  (st : gmap positive (list box)) (out : gmap string value)
  : res (gmap string value) :=
  match keys with
  | [] => Ok out
  | key :: keys' =>
      arrays ← for_each (read_boxes st key) tiles;
      put_bboxes keys' tiles st (<[key := VBoxes (concat arrays)]> out)
  end.

(** Lines 2543-2594, for the pipelined tiles [mosaic_results]. *)
Definition mosaic_compose (input_results : gmap string value)
  (mosaic_results : list (gmap string value))
  (st : gmap positive (list box))
  : res (gmap string value * gmap positive (list box)) :=
  shapes ← for_each pad_shape_of mosaic_results;
  s0 ← index shapes 0;
  h0 ← index s0 0;
  s1 ← index shapes 1;
  h1 ← index s1 0;
  w0 ← index s0 1;
  s2 ← index shapes 2;
  w2 ← index s2 1;
  let cxy := Z.max (Z.max (Z.max h0 h1) w0) w2 in
  c0 ← index s0 2;
  t0 ← index mosaic_results 0;
  img_fields ← get_keys t0 "img_fields" [];
  canvas ← new_canvas (cxy * 2) (cxy * 2) c0 img_fields ∅;
  '(tiles, canvas, st) ←
    place_tiles cxy img_fields 0 None mosaic_results canvas st;
  let out := <["filename" := VNone]> input_results in
  let out := <["ori_filename" := VNone]> out in
  t0 ← index tiles 0;
  img_fields ← get_keys t0 "img_fields" [];
  let out := <["img_fields" := VKeys img_fields]> out in
  bbox_fields ← get_keys t0 "bbox_fields" [];
  let out := <["bbox_fields" := VKeys bbox_fields]> out in
  out ← put_canvas img_fields canvas out;
  out ← put_bboxes bbox_fields tiles st out;
  labels ← for_each (fun r => v ← getitem r "gt_labels"; as_labels v) tiles;
  let out := <["gt_labels" := VLabels (concat labels)]> out in
  let out := <["img_shape" := VShape [cxy * 2; cxy * 2; c0]]> out in
  let out := <["ori_shape" := VShape [cxy * 2; cxy * 2; c0]]> out in
  let out := <["flip" := VBool false]> out in
  let out := <["flip_direction" := VNone]> out in
  mret (out, st).

Definition MosaicPipeline_call (results : gmap string value)
  (st : gmap positive (list box))
  : res (gmap string value * gmap positive (list box)) :=
  let input_results := results in
  '(mosaic_results, st) ← load_tiles results st;
  mosaic_compose input_results mosaic_results st.

End Mosaic.

(** *** JointRandomFlip.__call__ *)

(** [flip_ratio]: [None], a float or a list of floats; [direction]: a
    string or a list of strings. *)
Inductive flip_ratio_t : Type :=
| RatioNone
| RatioFloat (q : Q)
| RatioList (l : list Q).

Inductive direction_t : Type :=
| DirStr (s : string)
| DirList (l : list string).

Record JointRandomFlip : Type := {
  flip_ratio : flip_ratio_t;
  direction : direction_t
}.

(** [np.random.choice(a, p=p)]: the probabilities must be as many as
    the items, non-negative and of sum 1 up to [sqrt(eps)]; the item is
    looked up in the cumulated probabilities. *)
Definition choice_atol : Q := 1 # 67108864.

Fixpoint cumsum (acc : Q) (p : list Q) : list Q :=
  match p with
  | [] => []
  | x :: p' => (acc + x)%Q :: cumsum (acc + x)%Q p'
  end.

Definition choice_p {A : Type} (g : rng) (pos : nat) (a : list A)
  (p : list Q) : res A :=
  if decide (length a = length p) then
    if existsb (fun x => Qltb x 0) p then Raise ValueError
    else
      let total := foldl Qplus 0%Q p in
      if Qltb choice_atol (Qabs (total - 1)) then Raise ValueError
      else
        let u := unit_draw g pos in
        let cdf := map (fun c => (c / total)%Q) (cumsum 0 p) in
        index a (length (List.filter (fun c => Qle_bool c u) cdf))
  else Raise ValueError.

(** Lines 646-651: [None] means non-flip. *)
Definition direction_list (self : JointRandomFlip) : list (option string) :=
  match direction self with
  | DirList l => map Some l ++ [None]
  | DirStr s => [Some s; None]
  end.

(** Lines 653-662. *)
Definition flip_ratio_list (self : JointRandomFlip) : res (list Q) :=
  match flip_ratio self with
  | RatioList l => Ok (l ++ [(1 - foldl Qplus 0 l)%Q])
  | RatioFloat q =>
      let n := (length (direction_list self) - 1)%nat in
      if decide (n = 0%nat) then Raise ZeroDivisionError
      else
        let single_ratio := (q / inject_Z (Z.of_nat n))%Q in
        Ok (replicate n single_ratio ++ [(1 - q)%Q])
  | RatioNone => Raise TypeError
  end.

Definition direction_value (d : option string) : value :=
  match d with
  | Some s => VStr s
  | None => VNone
  end.

(** [if results['flip']:].  An array of two entries or more has no
    truth value ([ValueError]); one of a single entry has the truth
    value of the entry, and an empty one is false.  A mask container
    has its length. *)
Definition array_truthy (size : Z) (first : bool) : res bool :=
  if size <=? 0 then Ok false
  else if size =? 1 then Ok first
  else Raise ValueError.

Definition truthy (st : gmap positive (list box)) (v : value) : res bool :=
  match v with
  | VNone => Ok false
  | VBool b => Ok b
  | VInt n => Ok (negb (n =? 0))
  | VStr s => Ok (negb (String.eqb s ""))
  | VKeys ks => Ok (negb (bool_decide (ks = [])))
  | VShape s => Ok (negb (bool_decide (s = [])))
  | VImg a =>
      array_truthy (img_h a * img_w a * img_c a) (negb (pix a 0 0 0 =? 0))
  | VBoxes bs => array_truthy (4 * Z.of_nat (length bs)) true
  | VBoxesAt l =>
      bs ← getitem st l; array_truthy (4 * Z.of_nat (length bs)) true
  | VLabels ls =>
      array_truthy (Z.of_nat (length ls)) (negb (default 0 (head ls) =? 0))
  | VMasks ms => Ok (negb (bool_decide (ms = [])))
  end.

(** [imflip] and the [flip] of a mask container
    ([mvt/utils/geometric_util], [mvt/utils/mask_util]). *)
Variable imflip : image -> value -> res image.
Variable masks_flip : list mask -> value -> res (list mask).

Definition box_row (b : box) : list Q := [bx1 b; by1 b; bx2 b; by2 b].

Definition row_box (r : list Q) : res box :=
  match r with
  | [x1; y1; x2; y2] => Ok {| bx1 := x1; by1 := y1; bx2 := x2; by2 := y2 |}
  | _ => Raise ValueError
  end.

(** The entries of [img_shape] that [bbox_flip] reads for a direction,
    in the order it reads them. *)
Definition flip_shape (img_shape : value) (d : string) : res (Z * Z) :=
  if decide (d = "horizontal") then
    s ← as_shape img_shape; w ← index s 1; mret (0, w)
  else if decide (d = "vertical") then
    s ← as_shape img_shape; h ← index s 0; mret (h, 0)
  else if decide (d = "diagonal") then
    s ← as_shape img_shape; w ← index s 1; h ← index s 0; mret (h, w)
  else Ok (0, 0).

(** Lines 675-677: [self.bbox_flip(results[key], results['img_shape'],
    results['flip_direction'])] on an N x 4 array.  A direction that is
    not a string is equal to none of the three. *)
Definition flip_box_array (bs : list box) (img_shape : value)
  (flip_direction : value) : res (list box) :=
  match flip_direction with
  | VStr d =>
      hw ← flip_shape img_shape d;
      flipped ← bbox_flip {| ncols := 4; rows := map box_row bs |} hw d;
      for_each row_box (rows flipped)
  | _ => Raise ValueError
  end.

(** Lines 671-672 and 683-684: the loops over the images and over the
    segmentation maps. *)
Fixpoint flip_images (keys : list string) (results : gmap string value)
  : res (gmap string value) :=
  match keys with
  | [] => Ok results
  | key :: keys' =>
      v ← getitem results key;
      d ← getitem results "flip_direction";
      img ← as_img v;
      img' ← imflip img d;
      flip_images keys' (<[key := VImg img']> results)
  end.

(** Lines 674-677: the loop over the box fields.  An array of the store
    is read; the flipped array is a new one. *)
Fixpoint flip_bboxes (st : gmap positive (list box)) (keys : list string)
  (results : gmap string value) : res (gmap string value) :=
  match keys with
  | [] => Ok results
  | key :: keys' =>
      v ← getitem results key;
      img_shape ← getitem results "img_shape";
      d ← getitem results "flip_direction";
      bs ← match v with
           | VBoxes bs => Ok bs
           | VBoxesAt l => getitem st l
           | _ => Raise TypeError
           end;
      bs' ← flip_box_array bs img_shape d;
      flip_bboxes st keys' (<[key := VBoxes bs']> results)
  end.

(** Lines 679-680: the loop over the mask fields. *)
Fixpoint flip_masks (keys : list string) (results : gmap string value)
  : res (gmap string value) :=
  match keys with
  | [] => Ok results
  | key :: keys' =>
      v ← getitem results key;
      d ← getitem results "flip_direction";
      ms ← match v with
           | VMasks ms => Ok ms
           | _ => Raise TypeError
           end;
      ms' ← masks_flip ms d;
      flip_masks keys' (<[key := VMasks ms']> results)
  end.

(** Lines 645-664: the sampled direction, when ["flip"] is not set. *)
Definition sample_direction (self : JointRandomFlip) (g : rng) (pos : nat)
  : res (option string) :=
  p ← flip_ratio_list self;
  choice_p g pos (direction_list self) p.

(** [JointRandomFlip.__call__]: the record and the position of the
    generator afterwards.  [cur_dir] is bound only when ["flip"] was
    not in the record. *)
Definition JointRandomFlip_call (self : JointRandomFlip) (g : rng)
  (pos : nat) (st : gmap positive (list box)) (results : gmap string value)
  : res (gmap string value * nat) :=
  '(results, cur_dir, pos) ←
    match results !! "flip" with
    | None =>
        cur_dir ← sample_direction self g pos;
        Ok (<["flip" := VBool (bool_decide (cur_dir <> None))]> results,
            Some cur_dir, S pos)
    | Some _ => Ok (results, @None (option string), pos)
    end;
  results ←
    match results !! "flip_direction" with
    | None =>
        match cur_dir with
        | Some d => Ok (<["flip_direction" := direction_value d]> results)
        | None => Raise UnboundLocalError
        end
    | Some _ => Ok results
    end;
  flip ← getitem results "flip";
  b ← truthy st flip;
  if (b : bool) then
    img_fields ← get_keys results "img_fields" ["img"];
    results ← flip_images img_fields results;
    bbox_fields ← get_keys results "bbox_fields" [];
    results ← flip_bboxes st bbox_fields results;
    mask_fields ← get_keys results "mask_fields" [];
    results ← flip_masks mask_fields results;
    seg_fields ← get_keys results "seg_fields" [];
    results ← flip_images seg_fields results;
    mret (results, pos)
  else Ok (results, pos).

(** *** ImgRandomCrop.get_params *)

(** [np.random.randint(low, high)], which refuses an empty range. *)
Definition np_randint (g : rng) (pos : nat) (low high : Z) : res Z :=
  if high <=? low then Raise ValueError else Ok (randint g pos low high).

(** Lines 1101-1109.  The result is [(xmin, ymin, target_height,
    target_width)], where [xmin] is drawn along the height and [ymin]
    along the width, and the position of the generator afterwards. *)
Definition get_params (g : rng) (pos : nat) (img : image)
  (output_size : Z * Z) : res (Z * Z * Z * Z * nat) :=
  let height := img_h img in
  let width := img_w img in
  let '(target_height, target_width) := output_size in
  if (width =? target_width) && (height =? target_height) then
    Ok (0, 0, height, width, pos)
  else
    xmin ← np_randint g pos 0 (height - target_height);
    ymin ← np_randint g (S pos) 0 (width - target_width);
    mret (xmin, ymin, target_height, target_width, S (S pos)).

End Records.

End Transforms.

(** ** mvt/blocks/roi_heads/test_mixins.py *)

Module TestMixins.

(** [meta['scale_factor']] is a float or an array. *)
Inductive scale : Type :=
| ScaleFloat (q : Q)
| ScaleArray (a : list Q).

Record img_meta : Type := {
  ori_shape : list Z;
  scale_factor : scale
}.

(** The calls that reach the mask head. *)
Inductive call : Type :=
| MaskForward
| GetSegMasks (i : nat).

Section MaskTestMixin.

(** Feature maps, RoIs, per-RoI mask predictions and decoded masks. *)
Variables feats rois pred segm : Type.

(** [self.mask_head.num_classes]. *)
Variable num_classes : Z.

Variable bbox2roi : list (list (list Q)) -> rois.

(** [self._mask_forward(x, rois)['mask_pred']], one entry per RoI. *)
Variable _mask_forward : feats -> rois -> res (list pred).

(** [self.mask_head.get_seg_masks], with [self.test_cfg] fixed. *)
Variable get_seg_masks :
  list pred -> list (list Q) -> list Z -> list Z -> scale -> bool ->
  res (list (list segm)).

(** [det_bbox[:, :4] * scale_factor]. *)
Definition scale_rows (s : scale) (b : list (list Q)) : list (list Q) :=
  match s with
  | ScaleFloat q => map (fun row => map (Qmult q) (take 4 row)) b
  | ScaleArray a => map (fun row => zip_with Qmult (take 4 row) a) b
  end.

(** Lines 110-114: [torch.from_numpy] accepts arrays only. *)
Definition to_device (rescale : bool) (scale_factors : list scale)
  : res (list scale) :=
  if rescale then
    s0 ← index scale_factors 0;
    match s0 with
    | ScaleFloat _ => Ok scale_factors
    | ScaleArray _ =>
        for_each (fun s => match s with
                           | ScaleArray a => Ok (ScaleArray a)
                           | ScaleFloat _ => Raise TypeError
                           end) scale_factors
    end
  else Ok scale_factors.

(** Lines 115-120. *)
Fixpoint mask_bboxes (rescale : bool) (scale_factors : list scale) (i : nat)
  (det_bboxes : list (list (list Q))) : res (list (list (list Q))) :=
  match det_bboxes with
  | [] => Ok []
  | b :: bs =>
      b' ← (if rescale then
              s ← index scale_factors i; mret (scale_rows s b)
            else Ok (map (take 4) b));
      bs' ← mask_bboxes rescale scale_factors (S i) bs;
      mret (b' :: bs')
  end.

(** [mask_pred.split(sizes, 0)]. *)
Fixpoint split_sizes {A : Type} (sizes : list nat) (l : list A)
  : res (list (list A)) :=
  match sizes with
  | [] => if decide (l = []) then Ok [] else Raise ValueError
  | n :: sizes' =>
      if decide (n <= length l)%nat then
        rest ← split_sizes sizes' (drop n l);
        mret (take n l :: rest)
      else Raise ValueError
  end.

(** Lines 130-143: the loop over the images, with the calls made so
    far. *)
Fixpoint decode_masks (rescale : bool) (ori_shapes : list (list Z))
  (scale_factors : list scale) (mask_preds : list (list pred))
  (_bboxes : list (list (list Q))) (det_labels : list (list Z))
  (i : nat) (det_bboxes : list (list (list Q)))
  (segm_results : list (list (list segm))) (calls : list call)
  : res (list (list (list segm))) * list call :=
  match det_bboxes with
  | [] => (Ok segm_results, calls)
  | det_bbox :: rest =>
      if decide (length det_bbox = 0%nat) then
        decode_masks rescale ori_shapes scale_factors mask_preds _bboxes
          det_labels (S i) rest
          (segm_results ++ [replicate (Z.to_nat num_classes) []]) calls
      else
        match
          (p ← index mask_preds i;
           b ← index _bboxes i;
           l ← index det_labels i;
           o ← index ori_shapes i;
           s ← index scale_factors i;
           mret (p, b, l, o, s))
        with
        | Raise e => (Raise e, calls)
        | Ok (p, b, l, o, s) =>
            match get_seg_masks p b l o s rescale with
            | Raise e => (Raise e, calls ++ [GetSegMasks i])
            | Ok segm_result =>
                decode_masks rescale ori_shapes scale_factors mask_preds
                  _bboxes det_labels (S i) rest
                  (segm_results ++ [segm_result])
                  (calls ++ [GetSegMasks i])
            end
        end
  end.

(** [MaskTestMixin.simple_test_mask]: its result and the calls it made
    to the mask head. *)
Definition simple_test_mask (x : feats) (img_metas : list img_meta)
  (det_bboxes : list (list (list Q))) (det_labels : list (list Z))
  (rescale : bool) : res (list (list (list segm))) * list call :=
  let ori_shapes := map ori_shape img_metas in
  let scale_factors := map scale_factor img_metas in
  let num_imgs := length det_bboxes in
  if forallb (fun det_bbox => bool_decide (length det_bbox = 0%nat)) det_bboxes
  then
    (Ok (replicate num_imgs (replicate (Z.to_nat num_classes) [])), [])
  else
    match
      (scale_factors ← to_device rescale scale_factors;
       _bboxes ← mask_bboxes rescale scale_factors 0 det_bboxes;
       mret (scale_factors, _bboxes))
    with
    | Raise e => (Raise e, [])
    | Ok (scale_factors, _bboxes) =>
        let mask_rois := bbox2roi _bboxes in
        match _mask_forward x mask_rois with
        | Raise e => (Raise e, [MaskForward])
        | Ok mask_pred =>
            let num_mask_roi_per_img := map length det_bboxes in
            match split_sizes num_mask_roi_per_img mask_pred with
            | Raise e => (Raise e, [MaskForward])
            | Ok mask_preds =>
                decode_masks rescale ori_shapes scale_factors mask_preds
                  _bboxes det_labels 0 det_bboxes [] [MaskForward]
            end
        end
    end.

End MaskTestMixin.

End TestMixins.

(** ** inference.py: save_det_json, run_emb_task *)

Module InferenceTasks.

Import Inference.

(** The element types of arrays, as far as the module tells them
    apart: an entry of a [float64] array is a Python [float]; an entry
    of an array of another type is a NumPy scalar that [json] cannot
    write. *)
Inductive dtype : Type :=
| Float64
| Float32
| Int64.

(** An N x 6 detection array [x1, y1, x2, y2, score, label]. *)
Record det_array : Type := {
  det_dtype : dtype;
  det_rows : list (list Q)
}.

(** An entry [det_result[j, k]]. *)
Record np_scalar : Type := {
  sc_dtype : dtype;
  sc_value : Q
}.

(** The dictionary returned by [det_single_device_test]: one name, one
    id and one detection array per image. *)
Record det_outputs : Type := {
  img_names : list string;
  img_ids : list Z;
  detections : list det_array
}.

Record anno_info : Type := {
  anno_image_id : Z;
  anno_id : Z;
  anno_bbox : list Z;
  anno_category_id : np_scalar;
  anno_score : np_scalar
}.

Record predictions : Type := {
  pred_images : list image_info;
  pred_annotations : list anno_info
}.

(** A file that [json.dump] wrote: the whole document, or the part that
    precedes a value it could not write. *)
Inductive json_file : Type :=
| Complete (p : predictions)
| Truncated.

(** Lines 101-112: the entry of row [j] of a detection array of element
    type [t]. *)
Definition make_anno_info (img_id bbox_id : Z) (t : dtype) (row : list Q)
  : res anno_info :=
  x1 ← index row 0;
  y1 ← index row 1;
  x2 ← index row 2;
  y2 ← index row 3;
  category ← index row 5;
  score ← index row 4;
  mret {| anno_image_id := img_id;
          anno_id := bbox_id;
          anno_bbox := [ Transforms.int_of (x1 + (1 # 2));
                         Transforms.int_of (y1 + (1 # 2));
                         Transforms.int_of (x2 - x1 + (1 # 2));
                         Transforms.int_of (y2 - y1 + (1 # 2)) ];
          anno_category_id := {| sc_dtype := t; sc_value := category |};
          anno_score := {| sc_dtype := t; sc_value := score |} |}.

(** Lines 100-114: [for j in range(len(det_result))]. *)
Fixpoint rows_loop (img_id bbox_id : Z) (t : dtype)
  (det_result : list (list Q)) (annotations : list anno_info)
  : res (list anno_info * Z) :=
  match det_result with
  | [] => Ok (annotations, bbox_id)
  | row :: rows =>
      a ← make_anno_info img_id bbox_id t row;
      rows_loop img_id (bbox_id + 1) t rows (annotations ++ [a])
  end.

(** Lines 94-114: [for i, det_result in enumerate(det_results)]. *)
Fixpoint dets_loop (data_dict : det_outputs) (i : nat)
  (det_results : list det_array) (images : list image_info)
  (annotations : list anno_info) (bbox_id : Z)
  : res (list image_info * list anno_info) :=
  match det_results with
  | [] => Ok (images, annotations)
  | det_result :: rest =>
      img_id ← index (img_ids data_dict) i;
      name ← index (img_names data_dict) i;
      let images := images ++ [{| file_name := name; img_id := img_id |}] in
      '(annotations, bbox_id) ←
        rows_loop img_id bbox_id (det_dtype det_result)
          (det_rows det_result) annotations;
      dets_loop data_dict (S i) rest images annotations bbox_id
  end.

(** What [json.dump] can write of an annotation: the strings, the
    Python integers and the Python floats. *)
Definition json_float (x : np_scalar) : bool :=
  match sc_dtype x with
  | Float64 => true
  | _ => false
  end.

Definition serializable (a : anno_info) : bool :=
  json_float (anno_category_id a) && json_float (anno_score a).

(** Lines 117-118: the file is opened, hence emptied, before
    [json.dump] writes the document piece by piece; a value that it
    cannot write raises [TypeError] and leaves what was written. *)
Definition json_dump (p : predictions) (json_path : string)
  (fs : gmap string json_file) : res unit * gmap string json_file :=
  if forallb serializable (pred_annotations p) then
    (Ok tt, <[json_path := Complete p]> fs)
  else (Raise TypeError, <[json_path := Truncated]> fs).

(** [save_det_json]: the result of the call and the files it leaves. *)
Definition save_det_json (data_dict : det_outputs) (json_path : string)
  (fs : gmap string json_file) : res unit * gmap string json_file :=
  match dets_loop data_dict 0 (detections data_dict) [] [] 0 with
  | Raise e => (Raise e, fs)
  | Ok (images, annotations) =>
      json_dump {| pred_images := images;
                   pred_annotations := annotations |} json_path fs
  end.

Section RunEmbTask.

Variable dist_func : embedding -> embedding -> Q.

(** Lines 343-347 of [run_emb_task], for the outputs of the two
    [emb_single_device_test] runs: the labels are inferred for the
    ranks of [top_k_list] and fused with [top_k=1]. *)
Definition run_emb_task (outputs_qry : qry_outputs)
  (outputs_ref : ref_outputs) (det_json_path out_json_path : string)
  (label_mapping : gmap Z Z) (score_thr : Q) (top_k_list : list Z)
  (fs : filesystem) : res unit * filesystem :=
  match infer_labels dist_func outputs_qry outputs_ref label_mapping
          top_k_list with
  | Raise e => (Raise e, fs)
  | Ok outputs =>
      save_submit_json outputs det_json_path out_json_path score_thr 1 fs
  end.

End RunEmbTask.

End InferenceTasks.

(** ** mvt/datasets/detection2ds/det_base.py: the aspect-ratio groups *)

Module DetBase.

Import Transforms.

(** The entries of [img_info] that the grouping reads. *)
Record img_info : Type := {
  width : Z;
  height : Z
}.

(** Lines 233-235: the flag of one image. *)
Definition group_of (info : img_info) : res Z :=
  if height info =? 0 then Raise ZeroDivisionError
  else if Qltb 1 (inject_Z (width info) / inject_Z (height info)) then Ok 1
  else Ok 0.

(** [_set_group_flag]: the value of [self.flag] afterwards. *)
Definition _set_group_flag (data_infos : list img_info) : res (list Z) :=
  for_each group_of data_infos.

(** The position that the index [i] has in an array of length [n]: a
    negative index counts from the end. *)
Definition np_position (n : nat) (i : Z) : res nat :=
  if (i <? - Z.of_nat n) || (Z.of_nat n <=? i) then Raise IndexError
  else Ok (Z.to_nat (if i <? 0 then i + Z.of_nat n else i)).

(** [np.where(mask)[0]], counting from [i]. *)
Fixpoint np_where (i : Z) (mask : list bool) : list Z :=
  match mask with
  | [] => []
  | b :: mask' =>
      if b then i :: np_where (i + 1) mask' else np_where (i + 1) mask'
  end.

(** [arr[i], arr[j] = arr[j], arr[i]]. *)
Definition swap (i j : nat) (arr : list Z) : list Z :=
  match arr !! i, arr !! j with
  | Some a, Some b => <[i := b]> (<[j := a]> arr)
  | _, _ => arr
  end.

(** [RandomState.shuffle] on a one-dimensional array:
    [for i in reversed(range(1, n))], with [j] drawn from [0, i]. *)
Fixpoint shuffle (g : rng) (pos : nat) (i : nat) (arr : list Z) : list Z :=
  match i with
  | O => arr
  | S i' =>
      let j := Z.to_nat (randint g pos 0 (Z.of_nat i + 1)) in
      shuffle g (S pos) i' (swap i j arr)
  end.

(** [np.random.permutation(n)]. *)
Definition permutation (g : rng) (pos : nat) (n : nat) : list Z :=
  shuffle g pos (n - 1) (seqZ 0 (Z.of_nat n)).

(** [np.random.choice(pool, size=size, replace=replace)], with the
    position of the generator afterwards. *)
Definition choice_size (g : rng) (pos : nat) (pool : list Z) (size : nat)
  (replace : bool) : res (list Z * nat) :=
  if replace then
    js ← for_each (fun k => choice g (pos + k) pool) (seq 0 size);
    mret (js, (pos + size)%nat)
  else if (length pool <? size)%nat then Raise ValueError
  else
    let idx := take size (permutation g pos (length pool)) in
    js ← for_each (fun i => index pool (Z.to_nat i)) idx;
    mret (js, (pos + (length pool - 1))%nat).

(** [_rand_another]. *)
Definition _rand_another (g : rng) (pos : nat) (flag : list Z) (idx : Z)
  : res (Z * nat) :=
  p ← np_position (length flag) idx;
  f ← index flag p;
  let pool := np_where 0 (map (fun x => x =? f) flag) in
  j ← choice g pos pool;
  mret (j, S pos).

(** [batch_rand_others], for a batch that is not negative. *)
Definition batch_rand_others (g : rng) (pos : nat) (flag : list Z) (idx : Z)
  (batch : nat) : res (list Z * nat) :=
  p ← np_position (length flag) idx;
  f ← index flag p;
  let mask := <[p := false]> (map (fun x => x =? f) flag) in
  let pool := np_where 0 mask in
  if decide (length pool = 0%nat) then Ok (replicate batch idx, pos)
  else if decide (length pool < batch)%nat then
    choice_size g pos pool batch true
  else choice_size g pos pool batch false.

End DetBase.

(** * Statements

    The definitions below are not part of the program: they phrase what
    the properties say about it. *)

Import Inference Transforms TestMixins.

(** ** save_submit_json *)

(** The annotations the claim keeps: score at least the threshold. *)
Definition score_at_least (score_thr : Q) (ann : annotation) : bool :=
  Qle_bool score_thr (ann_score ann).

(** [ann'] is [ann] with its [category_id] replaced by the label of its
    id; every other field is the same. *)
Definition relabelled (pred_dict : gmap Z Z) (ann ann' : annotation) : Prop :=
  pred_dict !! ann_id ann = Some (ann_category_id ann')
  /\ ann_image_id ann' = ann_image_id ann
  /\ ann_id ann' = ann_id ann
  /\ ann_bbox ann' = ann_bbox ann
  /\ ann_score ann' = ann_score ann.

(** ** bbox_flip *)

(** Element types on which [n - (n - x)] is [x]: integers and
    rationals, not floating-point numbers. *)
Class ExactScalar (A : Type) `{Scalar A} : Prop :=
  int_sub_involutive : forall (n : Z) (x : A), int_sub n (int_sub n x) = x.

#[export] Instance ExactScalar_Z : ExactScalar Z.
Proof. intros n x. simpl. lia. Qed.

#[export] Instance ExactScalar_Q : ExactScalar Q.
Proof.
  intros n [p q]. unfold int_sub. simpl.
  unfold Qminus, Qplus, Qopp, inject_Z. simpl. f_equal. lia.
Qed.

(** ** GtBBoxesFilter *)

(** The entries of an array at the positions that a list of flags
    marks. *)
Definition selected {A : Type} (flags : list bool) (l : list A) : list A :=
  (filter (fun p : bool * A => p.1 = true) (zip flags l)).*2.

(** The quotient [num / den] of two numbers of an array of precision
    [prec] lies below [bound].  A zero divisor gives an infinite
    quotient or none, and of these only minus infinity lies below a
    bound. *)
Definition quotient_below (prec : Z) (num den bound : Q) : Prop :=
  (~ den == 0 /\ round_to prec (num / den) < bound)%Q
  \/ (den == 0 /\ num < 0)%Q.

(** The test of the claim on a box of an array of precision [prec]:
    the width and the height lie above [min_size], and the larger of
    width / (height + 1e-16) and height / (width + 1e-16), that is each
    of the two, lies below [max_aspect_ratio]. *)
Definition claim_keeps (prec : Z) (min_size max_aspect_ratio : Q) (b : box)
  : Prop :=
  let w := round_to prec (bx2 b - bx1 b) in
  let h := round_to prec (by2 b - by1 b) in
  let stabilizer := round_to prec (1 # 10000000000000000) in
  (round_to prec min_size < w)%Q
  /\ (round_to prec min_size < h)%Q
  /\ quotient_below prec w (round_to prec (h + stabilizer))
       (round_to prec max_aspect_ratio)
  /\ quotient_below prec h (round_to prec (w + stabilizer))
       (round_to prec max_aspect_ratio).

(** ** Boxes in a cropped image *)




(** ** Sample records *)


Section RecordStatements.

Context {mask : Type}.

Implicit Type results : gmap string (value mask).








(** *** Mosaic tiles *)

(** [(h, w)] of a tile, from its ["pad_shape"]. *)
Definition tile_dims results : option (Z * Z) :=
  match results !! "pad_shape" with
  | Some (VShape _ (h :: w :: _)) => Some (h, w)
  | _ => None
  end.

(** The store locations of the box fields [keys] of a tile. *)
Definition box_locations results (keys : list string) : list positive :=
  omap (fun key => match results !! key with
                   | Some (VBoxesAt _ l) => Some l
                   | _ => None
                   end) keys.


(** A pipelined tile as [MosaicPipeline] expects it: ["pad_shape"] is
    the shape, at least 1 x 1, of each of its images, and no box field
    is listed twice. *)
Record tile_ready results (img_fields bbox_fields : list string)
  (hw : Z * Z) : Prop := {
  tile_pad_shape : tile_dims results = Some hw;
  tile_positive : 0 < hw.1 /\ 0 < hw.2;
  tile_imgs : forall key, key ∈ img_fields ->
    exists a, results !! key = Some (VImg mask a)
              /\ img_h a = hw.1 /\ img_w a = hw.2;
  tile_bbox_fields : get_keys mask results "bbox_fields" [] = Ok bbox_fields;
  tile_bbox_NoDup : NoDup bbox_fields
}.

End RecordStatements.

(** The canvas coordinates [(x1, y1)] of the top left corner of tile
    [i], for a canvas centre [cxy] and a tile of size [hw]. *)
Definition tile_offset (i : nat) (cxy : Z) (hw : Z * Z) : Z * Z :=
  match i with
  | 0%nat => (cxy - hw.2, cxy - hw.1)
  | 1%nat => (cxy, cxy - hw.1)
  | 2%nat => (cxy - hw.2, cxy)
  | _ => (cxy, cxy)
  end.

(** The names [MosaicPipeline] writes after the box fields. *)
Definition mosaic_reserved : list string :=
  ["gt_labels"; "img_shape"; "ori_shape"; "flip"; "flip_direction"].

(** The entry [(y, x, c)] of an array into which [src] was pasted with
    its corner at [(x1, y1)], over the array [a]. *)
Definition pasted_pix (a src : image) (x1 y1 : Z) (y x c : Z) : Z :=
  if (y1 <=? y) && (y <? y1 + img_h src) && (x1 <=? x) && (x <? x1 + img_w src)
  then uint8 (pix src (y - y1) (x - x1) (if img_c src =? 1 then 0 else c))
  else pix a y x c.

(** Every canvas of the dictionary is [hc] x [wc] x [cc]. *)
Definition canvas_dims (canvas : gmap string image) (hc wc cc : Z) : Prop :=
  forall key a, canvas !! key = Some a ->
                img_h a = hc /\ img_w a = wc /\ img_c a = cc.


(** The largest height or width of four tiles. *)
Definition max_dim (hw0 hw1 hw2 hw3 : Z * Z) : Z :=
  Z.max (Z.max (Z.max hw0.1 hw0.2) (Z.max hw1.1 hw1.2))
        (Z.max (Z.max hw2.1 hw2.2) (Z.max hw3.1 hw3.2)).



(** The boxes of tile [i] moved by the offset of its quadrant: the
    horizontal offset is added to [x1] and [x2], the vertical one to
    [y1] and [y2]. *)
Definition translated (i : nat) (cxy : Z) (hw : Z * Z) (bs : list box)
  : list box :=
  map (fun b =>
         {| bx1 := (bx1 b + inject_Z (tile_offset i cxy hw).1)%Q;
            by1 := (by1 b + inject_Z (tile_offset i cxy hw).2)%Q;
            bx2 := (bx2 b + inject_Z (tile_offset i cxy hw).1)%Q;
            by2 := (by2 b + inject_Z (tile_offset i cxy hw).2)%Q |}) bs.

(** An instance of the parameter [bbox_overlaps_np], whose source is not
    at hand: the usual intersection over union of a patch and a box,
    with the union kept above [1e-6]. *)
Definition iou (p : patch) (b : box) : Q :=
  let area1 := (inject_Z (px2 p - px1 p) * inject_Z (py2 p - py1 p))%Q in
  let area2 := ((bx2 b - bx1 b) * (by2 b - by1 b))%Q in
  let x_start := maximum (inject_Z (px1 p)) (bx1 b) in
  let y_start := maximum (inject_Z (py1 p)) (by1 b) in
  let x_end := minimum (inject_Z (px2 p)) (bx2 b) in
  let y_end := minimum (inject_Z (py2 p)) (by2 b) in
  let overlap := (maximum (x_end - x_start) 0 * maximum (y_end - y_start) 0)%Q in
  let union := maximum (area1 + area2 - overlap) (1 # 1000000) in
  (overlap / union)%Q.

(** A generator for examples: the draws 0.9, 0.99, 0.99, then zeros. *)
Definition example_rng : rng :=
  fun n =>
    match n with
    | 0%nat => 9 # 10
    | 1%nat | 2%nat => 99 # 100
    | _ => 0%Q
    end.

(** The centre of the box lies strictly inside the patch. *)
Definition center_inside (p : patch) (b : box) : Prop :=
  let cx := ((bx1 b + bx2 b) / 2)%Q in
  let cy := ((by1 b + by2 b) / 2)%Q in
  (inject_Z (px1 p) < cx)%Q /\ (inject_Z (py1 p) < cy)%Q
  /\ (cx < inject_Z (px2 p))%Q /\ (cy < inject_Z (py2 p))%Q.

#[export] Instance Qlt_decision (x y : Q) : Decision (x < y)%Q :=
  match Qlt_le_dec x y with
  | left H => left H
  | right H => right (Qle_not_lt _ _ H)
  end.

#[export] Instance center_inside_dec (p : patch) (b : box)
  : Decision (center_inside p b).
Proof. unfold center_inside. apply _. Defined.




(** An image whose entry at [(y, x)] is [1000 * y + x] in every
    channel. *)
Definition ramp (h w c : Z) : image :=
  {| img_h := h; img_w := w; img_c := c;
     pix := fun y x _ => 1000 * y + x |}.

(** ** get_label_mapping *)

(** The last category of a list with a given name, or a given id. *)
Definition last_named (name : string) (cats : list category)
  : option category :=
  last (filter (fun c => cat_name c = name) cats).

Definition last_with_id (i : Z) (cats : list category) : option category :=
  last (filter (fun c => cat_id c = i) cats).

(** What an id maps to: the last reference category with this id
    decides, by the last query category with its name. *)
Definition label_mapping_spec (ref_cat_list qry_cat_list : list category)
  (i : Z) : option Z :=
  match last_with_id i ref_cat_list with
  | None => None
  | Some r =>
      match last_named (cat_name r) qry_cat_list with
      | Some q => Some (cat_id q)
      | None => Some 0
      end
  end.

(** The claim on [get_label_mapping] as the specification words it. *)
Definition label_mapping_claim (ref_cat_list qry_cat_list : list category)
  : Prop :=
  let m := get_label_mapping ref_cat_list qry_cat_list in
  dom m = list_to_set (cat_id <$> ref_cat_list)
  /\ (forall r q, r ∈ ref_cat_list -> q ∈ qry_cat_list ->
        cat_name r = cat_name q -> m !! cat_id r = Some (cat_id q))
  /\ (forall r, r ∈ ref_cat_list ->
        (forall q, q ∈ qry_cat_list -> cat_name q <> cat_name r) ->
        m !! cat_id r = Some 0).


Import InferenceTasks.

(** ** infer_labels: the majority vote *)

(** The number of occurrences of a label. *)
Definition count (x : Z) (l : list Z) : nat :=
  length (filter (fun y => y = x) l).

(** [l] wins the vote among [top]: no label occurs more often, and
    every label that is met before the first occurrence of [l] occurs
    less often. *)
Definition majority_of (top : list Z) (l : Z) : Prop :=
  exists pre post,
    top = pre ++ (l :: post)
    /\ (l ∉ pre)
    /\ (forall l', l' ∈ pre -> (count l' top < count l top)%nat)
    /\ (forall l', (count l' top <= count l top)%nat).

(** What [Counter] holds after reading [l]: the count of every label
    of [l], once, and in the order of the first occurrences. *)
Record counted (l : list Z) (c : list (Z * nat)) : Prop := {
  counted_count : forall i y n, c !! i = Some (y, n) -> n = count y l;
  counted_all : forall y, y ∈ l -> exists i n, c !! i = Some (y, n);
  counted_once : forall i j y n m,
    c !! i = Some (y, n) -> c !! j = Some (y, m) -> i = j;
  counted_order : forall i y n, c !! i = Some (y, n) ->
    exists pre post,
      l = pre ++ (y :: post) /\ (y ∉ pre)
      /\ forall z, z ∈ pre ->
           exists j m, (j < i)%nat /\ c !! j = Some (z, m)
}.


(** [max] returns the first entry with the largest count. *)
Definition first_max (c : list (Z * nat)) (p : nat) (best : Z * nat) : Prop :=
  c !! p = Some best
  /\ (forall j kv, (j < p)%nat -> c !! j = Some kv -> (kv.2 < best.2)%nat)
  /\ (forall j kv, c !! j = Some kv -> (kv.2 <= best.2)%nat).


(** ** save_det_json *)

(** A detection array that [json] can write: it has no row, or its
    entries are Python floats. *)
Definition writable (d : det_array) : bool :=
  match det_rows d with
  | [] => true
  | _ => match det_dtype d with
         | Float64 => true
         | _ => false
         end
  end.

(** The number of rows of all detection arrays. *)
Definition total_rows (dets : list (list (list Q))) : nat :=
  sum_list (length <$> dets).

(** The image id that goes with every row, array after array. *)
Definition row_image_ids (ids : list Z) (dets : list (list (list Q)))
  : list Z :=
  concat (zip_with (fun id det => replicate (length det) id) ids dets).

(** The last label stored for a box id. *)
Fixpoint last_label (ids : list Z) (labels : list Z) (i : nat) (x : Z)
  : option Z :=
  match ids with
  | [] => None
  | id :: ids' =>
      match last_label ids' labels (S i) x with
      | Some l => Some l
      | None => if decide (id = x) then labels !! i else None
      end
  end.

(** ** Boxes and images *)

(** The box [x1, y1, x2, y2] is well-formed and lies in a [w] x [h]
    image. *)
Definition row_in_image (w h : Z) (x1 y1 x2 y2 : Q) : Prop :=
  (0 <= x1 /\ x1 <= x2 /\ x2 <= inject_Z w
   /\ 0 <= y1 /\ y1 <= y2 /\ y2 <= inject_Z h)%Q.

(** A box of positive width and height inside a [w] x [h] image. *)
Definition box_in_image (w h : Z) (b : box) : Prop :=
  (0 <= bx1 b /\ bx1 b < bx2 b /\ bx2 b <= inject_Z w
   /\ 0 <= by1 b /\ by1 b < by2 b /\ by2 b <= inject_Z h)%Q.

(** Two boxes with the same coordinates as numbers. *)
Definition box_eq (a b : box) : Prop :=
  (bx1 a == bx1 b /\ by1 a == by1 b /\ bx2 a == bx2 b /\ by2 a == by2 b)%Q.

(** ** simple_test_mask *)

(** The indices, from [i] on, of the images that have a detection. *)
Fixpoint detected_from (i : nat) (det_bboxes : list (list (list Q)))
  : list nat :=
  match det_bboxes with
  | [] => []
  | det_bbox :: rest =>
      if decide (length det_bbox = 0%nat) then detected_from (S i) rest
      else i :: detected_from (S i) rest
  end.

(** No image has a detection. *)
Definition all_empty (det_bboxes : list (list (list Q))) : bool :=
  forallb (fun det_bbox => bool_decide (length det_bbox = 0%nat)) det_bboxes.

(** ** Examples of mosaic tiles *)

(** A pipelined tile with one [h] x [w] image and one box field. *)
Definition example_tile (h w : Z) (boxes : value unit) (label : Z)
  : gmap string (value unit) :=
  {[ "img" := VImg unit {| img_h := h; img_w := w; img_c := 3;
                           pix := fun y x c => y + x + c |};
     "pad_shape" := VShape unit [h; w; 3];
     "img_fields" := VKeys unit ["img"];
     "bbox_fields" := VKeys unit ["gt_bboxes"];
     "gt_bboxes" := boxes;
     "gt_labels" := VLabels unit [label] ]}.

(** A pipeline that returns the [i]-th of four given tiles. *)
Definition example_pipeline (t0 t1 t2 t3 : gmap string (value unit))
  (i : nat) (_ : gmap string (value unit)) (s : gmap positive (list box))
  : res (option (gmap string (value unit)) * gmap positive (list box)) :=
  Ok (Some (match i with
            | 0%nat => t0 | 1%nat => t1 | 2%nat => t2 | _ => t3
            end), s).

Definition example_sample : gmap string (value unit) :=
  {[ "dataset" := VNone unit; "_idx" := VInt unit 0 ]}.

(** An [imflip] for examples: the columns, the rows or both are
    reversed. *)
Definition example_imflip {mask : Type} (a : image) (d : value mask)
  : res image :=
  match d with
  | VStr _ d =>
      if decide (d = "horizontal") then
        Ok {| img_h := img_h a; img_w := img_w a; img_c := img_c a;
              pix := fun y x c => pix a y (img_w a - 1 - x) c |}
      else if decide (d = "vertical") then
        Ok {| img_h := img_h a; img_w := img_w a; img_c := img_c a;
              pix := fun y x c => pix a (img_h a - 1 - y) x c |}
      else if decide (d = "diagonal") then
        Ok {| img_h := img_h a; img_w := img_w a; img_c := img_c a;
              pix := fun y x c =>
                       pix a (img_h a - 1 - y) (img_w a - 1 - x) c |}
      else Raise ValueError
  | _ => Raise ValueError
  end.

Definition example_flip_record : gmap string (value unit) :=
  {[ "img" := VImg unit {| img_h := 20; img_w := 30; img_c := 3;
                           pix := fun y x c => y + x + c |};
     "img_shape" := VShape unit [20; 30; 3];
     "flip" := VBool unit true;
     "flip_direction" := VStr unit "horizontal";
     "bbox_fields" := VKeys unit ["gt_bboxes"];
     "gt_bboxes" := VBoxes unit
        [ {| bx1 := 2; by1 := 3; bx2 := 10; by2 := 8 |} ];
     "gt_labels" := VLabels unit [7] ]}.

(** [j] is another sample of the group of [idx]. *)
Definition same_group (flag : list Z) (idx j : Z) : Prop :=
  0 <= j /\ j <> idx /\ is_Some (flag !! Z.to_nat j)
  /\ flag !! Z.to_nat j = flag !! Z.to_nat idx.

(** * Properties *)

(** ** Results *)

Lemma bind_Ok {A B : Type} (m : res A) (f : A -> res B) (b : B) :
  m ≫= f = Ok b <-> exists a, m = Ok a /\ f a = Ok b.
Proof.
  destruct m as [a|e]; simpl.
  - split; [eauto | intros (a' & [= <-] & ?); done].
  - split; [done | intros (a' & ? & ?); done].
Qed.

Lemma for_each_Ok_length {A B : Type} (f : A -> res B) (l : list A) (bs : list B) :
  for_each f l = Ok bs -> length bs = length l.
Proof.
  revert bs. induction l as [|a l IH]; intros bs; simpl.
  - intros [= <-]. done.
  - intros (b & _ & (bs' & Hbs & [= <-])%bind_Ok)%bind_Ok.
    simpl. f_equal. eauto.
Qed.

Lemma for_each_ext {A B : Type} (f g : A -> res B) (l : list A) :
  (forall a, f a = g a) -> for_each f l = for_each g l.
Proof.
  intros Hfg. induction l as [|a l IH]; simpl; [done|].
  rewrite Hfg, IH. done.
Qed.

Lemma Qltb_lt (x y : Q) : Qltb x y = true <-> (x < y)%Q.
Proof.
  unfold Qltb. rewrite negb_true_iff, <- not_true_iff_false, Qle_bool_iff.
  split; [apply Qnot_le_lt | apply Qlt_not_le].
Qed.

Lemma Qltb_ge (x y : Q) : Qltb x y = false <-> (y <= x)%Q.
Proof.
  unfold Qltb. rewrite negb_false_iff. apply Qle_bool_iff.
Qed.

(** ** inference.py: infer_labels *)

Section InferLabelsFacts.

Variable dist_func : embedding -> embedding -> Q.

(** With [k = 1] the vote is over one label and elects it: the vote path
    is the label mapping applied to the nearest reference label. *)
Lemma vote_row_1 (label_mapping : gmap Z Z) (row : list Z) :
  vote_row label_mapping 1 row = (l ← index row 0; getitem label_mapping l).
Proof.
  unfold vote_row, slice_to. simpl.
  destruct row as [|l row]; simpl; done.
Qed.

Lemma vote_labels_1 (label_mapping : gmap Z Z) (pl : list (list Z)) :
  vote_labels label_mapping 1 pl
  = for_each (fun row => l ← index row 0; getitem label_mapping l) pl.
Proof. apply for_each_ext, vote_row_1. Qed.

(** [rank_list = [1]], the list [run] passes: the result holds the
    nearest reference labels themselves, whatever the label mapping. *)
Lemma infer_labels_top_1 (qry : qry_outputs) (ref : ref_outputs)
  (label_mapping : gmap Z Z) :
  infer_labels dist_func qry ref label_mapping [1]
  = (pl ← pred_labels dist_func qry ref;
     col ← column_0 (length (ref_embeddings ref)) pl;
     mret {| bbox_ids := qry_bbox_ids qry; labels_top := {[ 1 := col ]} |}).
Proof.
  unfold infer_labels.
  destruct (pred_labels dist_func qry ref) as [pl|e]; simpl; [|done].
  unfold rank_step. destruct (decide (1 = 1)) as [_|]; [|done].
  destruct (column_0 _ pl) as [col|e]; simpl; [|done].
  rewrite insert_empty. done.
Qed.

End InferLabelsFacts.

(** C1 (the code departs from it).  The claim: for [k = 1]
    [infer_labels] assigns the label mapping applied to the label of the
    nearest reference embedding, as the majority vote with [k = 1] does.
    On the scenario of the specification (reference labels 1 and 2,
    mapping 1 to 10 and 2 to 11, one query next to the first reference)
    the function stores the reference label 1, where the vote path with
    [k = 1] gives the mapped label 10. *)
Lemma infer_labels_top_1_skips_mapping :
  let qry := {| qry_embeddings := [[1 # 10; 1 # 10]]; qry_bbox_ids := [5] |} in
  let ref := {| ref_embeddings := [[0%Q; 0%Q]; [10%Q; 10%Q]];
                ref_labels := [1; 2] |} in
  let label_mapping : gmap Z Z := {[ 1 := 10; 2 := 11 ]} in
  (out ← infer_labels sq_euclidean qry ref label_mapping [1];
   getitem (labels_top out) 1) = Ok [1]
  /\ (pl ← pred_labels sq_euclidean qry ref;
      vote_labels label_mapping 1 pl) = Ok [10].
Proof. split; vm_compute; reflexivity. Qed.

(** ** inference.py: save_submit_json *)

Lemma score_at_least_spec (score_thr : Q) (ann : annotation) :
  score_at_least score_thr ann = true <-> (score_thr <= ann_score ann)%Q.
Proof. apply Qle_bool_iff. Qed.

Lemma fuse_covered (pred_dict : gmap Z Z) (score_thr : Q)
  (anns ann_new : list annotation) :
  Forall (fun ann => is_Some (pred_dict !! ann_id ann)) anns ->
  exists kept,
    fuse pred_dict score_thr ann_new anns = Ok (ann_new ++ kept)
    /\ Forall2 (relabelled pred_dict)
         (List.filter (score_at_least score_thr) anns) kept.
Proof.
  intros Hcov. revert ann_new.
  induction Hcov as [|ann anns [label Hl] _ IH]; intros ann_new; simpl.
  - exists []. rewrite app_nil_r. split; [done | constructor].
  - rewrite Hl. unfold score_at_least at 1, Qltb.
    destruct (Qle_bool score_thr (ann_score ann)); simpl.
    + destruct (IH (ann_new ++ [set_category_id ann label])) as (kept & -> & HF).
      exists (set_category_id ann label :: kept).
      rewrite <- app_assoc. split; [done|].
      constructor; [by repeat split | done].
    + apply IH.
Qed.

Lemma fuse_raises (pred_dict : gmap Z Z) (score_thr : Q)
  (anns ann_new : list annotation) (e : exn) :
  fuse pred_dict score_thr ann_new anns = Raise e ->
  e = AssertionError
  /\ exists ann, ann ∈ anns /\ pred_dict !! ann_id ann = None.
Proof.
  revert ann_new. induction anns as [|ann anns IH]; intros ann_new; simpl.
  - done.
  - destruct (pred_dict !! ann_id ann) as [label|] eqn:Hl.
    + destruct (Qltb _ _); intros (-> & a & Ha & Hn)%IH;
        (split; [done | exists a; split; [by right | done]]).
    + intros [= <-]. split; [done|]. exists ann. split; [by left | done].
Qed.

(** C2.  When the map from box ids to labels covers the id of every
    annotation of the detection file, [save_submit_json] writes a file
    whose [images] are those of the detection file and whose annotations
    are the annotations with score at least the threshold, in their
    order, each with [category_id] replaced by the label of its id and
    nothing else changed. *)
Theorem save_submit_json_fuses (out : outputs)
  (det_json_path out_json_path : string) (score_thr : Q) (top_k : Z)
  (fs : filesystem) (pred_dict : gmap Z Z) (data_ori : det_json) :
  pred_dict_of out top_k = Ok pred_dict ->
  fs !! det_json_path = Some data_ori ->
  Forall (fun ann => is_Some (pred_dict !! ann_id ann)) (annotations data_ori) ->
  exists ann_new,
    save_submit_json out det_json_path out_json_path score_thr top_k fs
    = (Ok tt,
       <[out_json_path :=
          {| images := images data_ori; annotations := ann_new |}]> fs)
    /\ Forall2 (relabelled pred_dict)
         (List.filter (score_at_least score_thr) (annotations data_ori))
         ann_new.
Proof.
  intros Hpd Hfs Hcov. unfold save_submit_json. rewrite Hpd, Hfs.
  destruct (fuse_covered pred_dict score_thr _ [] Hcov) as (kept & -> & HF).
  exists kept. done.
Qed.

Lemma save_submit_json_fuses_witness :
  let kept1 := {| ann_image_id := 0; ann_id := 5; ann_bbox := [1; 2; 3; 4];
                  ann_category_id := 0; ann_score := 8 # 10 |} in
  let low := {| ann_image_id := 0; ann_id := 6; ann_bbox := [5; 6; 7; 8];
                ann_category_id := 0; ann_score := 5 # 100 |} in
  let kept2 := {| ann_image_id := 1; ann_id := 7; ann_bbox := [2; 2; 9; 9];
                  ann_category_id := 3; ann_score := 1 # 10 |} in
  let data_ori := {| images := [ {| file_name := "a.jpg"; img_id := 0 |};
                                 {| file_name := "b.jpg"; img_id := 1 |} ];
                     annotations := [kept1; low; kept2] |} in
  let fs : filesystem := {[ "det.json" := data_ori ]} in
  exists ann_new,
    save_submit_json
      {| bbox_ids := [5; 6; 7]; labels_top := {[ 1 := [10; 11; 12] ]} |}
      "det.json" "out.json" (1 # 10) 1 fs
    = (Ok tt,
       <["out.json" :=
          {| images := images data_ori; annotations := ann_new |}]> fs)
    /\ Forall2 (relabelled {[ 5 := 10; 6 := 11; 7 := 12 ]}) [kept1; kept2]
         ann_new
    /\ ann_category_id <$> ann_new = [10; 12]
    /\ ann_bbox <$> ann_new = [[1; 2; 3; 4]; [2; 2; 9; 9]].
Proof.
  intros kept1 low kept2 data_ori fs.
  destruct (save_submit_json_fuses
              {| bbox_ids := [5; 6; 7]; labels_top := {[ 1 := [10; 11; 12] ]} |}
              "det.json" "out.json" (1 # 10) 1 fs
              {[ 5 := 10; 6 := 11; 7 := 12 ]} data_ori)
    as (ann_new & Hrun & HF).
  - vm_compute. reflexivity.
  - reflexivity.
  - repeat constructor; simpl; eexists; reflexivity.
  - exists ann_new. split; [exact Hrun|].
    change (List.filter (score_at_least (1 # 10)) (annotations data_ori))
      with [kept1; kept2] in HF.
    split; [exact HF|].
    inversion HF as [|? a1 ? l1 (H1 & _ & _ & Hb1 & _) HF1]; subst.
    inversion HF1 as [|? a2 ? l2 (H2 & _ & _ & Hb2 & _) HF2]; subst.
    inversion HF2; subst. simpl.
    injection H1 as <-. injection H2 as <-. rewrite Hb1, Hb2. split; reflexivity.
Defined.

(** C3.  Once the map from box ids to labels is built and the detection
    file is loaded, [save_submit_json] raises exactly when some
    annotation of the file has an id outside the map; the exception is
    the failed assertion and no file is written.  When every id is in
    the map the call completes. *)
Theorem save_submit_json_raises_iff (out : outputs)
  (det_json_path out_json_path : string) (score_thr : Q) (top_k : Z)
  (fs : filesystem) (pred_dict : gmap Z Z) (data_ori : det_json) :
  pred_dict_of out top_k = Ok pred_dict ->
  fs !! det_json_path = Some data_ori ->
  let r := save_submit_json out det_json_path out_json_path score_thr top_k fs in
  ((exists e, r.1 = Raise e)
   <-> exists ann, ann ∈ annotations data_ori /\ pred_dict !! ann_id ann = None)
  /\ (forall e, r.1 = Raise e -> e = AssertionError /\ r.2 = fs)
  /\ ((forall ann, ann ∈ annotations data_ori ->
         is_Some (pred_dict !! ann_id ann)) -> r.1 = Ok tt).
Proof.
  intros Hpd Hfs r. subst r. unfold save_submit_json. rewrite Hpd, Hfs.
  destruct (fuse pred_dict score_thr [] (annotations data_ori))
    as [ann_new|e] eqn:Hfuse; simpl.
  - split; [|split]; [|done|done].
    split; [intros [e [=]]|].
    intros (ann & Hin & Hnone). exfalso.
    assert (Hcov : ~ Forall (fun ann => is_Some (pred_dict !! ann_id ann))
                     (annotations data_ori)).
    { rewrite Forall_forall. intros HF. apply HF in Hin.
      rewrite Hnone in Hin. by destruct Hin. }
    clear Hin Hnone ann. revert ann_new Hfuse Hcov.
    generalize (@nil annotation).
    induction (annotations data_ori) as [|a anns IH]; intros acc ann_new; simpl.
    + intros _ Hcov. apply Hcov. constructor.
    + destruct (pred_dict !! ann_id a) as [label|] eqn:Hl; [|done].
      intros Hfuse Hcov.
      assert (Hcov' : ~ Forall (fun ann => is_Some (pred_dict !! ann_id ann)) anns).
      { intros HF. apply Hcov. constructor; [rewrite Hl; eauto | done]. }
      destruct (Qltb _ _); eapply IH; eauto.
  - apply fuse_raises in Hfuse as (-> & ann & Hin & Hnone).
    split; [|split].
    + split; [eauto | eauto].
    + intros e [= <-]. done.
    + intros Hcov. apply Hcov in Hin. rewrite Hnone in Hin. by destruct Hin.
Qed.

Lemma save_submit_json_raises_iff_witness :
  let fs : filesystem :=
    {[ "det.json" :=
         {| images := [];
            annotations := [ {| ann_image_id := 0; ann_id := 7;
                                ann_bbox := [1; 2; 3; 4];
                                ann_category_id := 0;
                                ann_score := 8 # 10 |} ] |} ]} in
  let r := save_submit_json {| bbox_ids := [5]; labels_top := {[ 1 := [10] ]} |}
             "det.json" "out.json" (1 # 10) 1 fs in
  r.1 = Raise AssertionError /\ r.2 = fs.
Proof.
  intros fs r.
  pose proof (save_submit_json_raises_iff
           {| bbox_ids := [5]; labels_top := {[ 1 := [10] ]} |}
           "det.json" "out.json" (1 # 10) 1 fs {[ 5 := 10 ]}
           {| images := [];
              annotations := [ {| ann_image_id := 0; ann_id := 7;
                                  ann_bbox := [1; 2; 3; 4];
                                  ann_category_id := 0;
                                  ann_score := 8 # 10 |} ] |}
           eq_refl eq_refl) as (_ & Hraise & _).
  destruct (Hraise AssertionError eq_refl) as [_ Hfs].
  split; [reflexivity | exact Hfs].
Defined.

(** ** inference.py: get_label_mapping *)

Lemma build_qry_dict_snoc (cats : list category) (c : category) :
  build_qry_dict (cats ++ [c]) = <[cat_name c := cat_id c]> (build_qry_dict cats).
Proof. unfold build_qry_dict. rewrite foldl_app. done. Qed.

Lemma last_named_snoc (name : string) (cats : list category) (c : category) :
  last_named name (cats ++ [c])
  = if decide (cat_name c = name) then Some c else last_named name cats.
Proof.
  unfold last_named. rewrite filter_app, filter_cons, filter_nil.
  destruct (decide (cat_name c = name)).
  - apply last_snoc.
  - rewrite app_nil_r. done.
Qed.

Lemma last_with_id_snoc (i : Z) (cats : list category) (c : category) :
  last_with_id i (cats ++ [c])
  = if decide (cat_id c = i) then Some c else last_with_id i cats.
Proof.
  unfold last_with_id. rewrite filter_app, filter_cons, filter_nil.
  destruct (decide (cat_id c = i)).
  - apply last_snoc.
  - rewrite app_nil_r. done.
Qed.

(** The query dictionary holds, for a name, the id of the last query
    category of that name. *)
Lemma build_qry_dict_lookup (qry_cat_list : list category) (name : string) :
  build_qry_dict qry_cat_list !! name
  = cat_id <$> last_named name qry_cat_list.
Proof.
  induction qry_cat_list as [|c cats IH] using rev_ind; [done|].
  rewrite build_qry_dict_snoc, last_named_snoc, lookup_insert.
  destruct (decide (cat_name c = name)); done.
Qed.

Lemma get_label_mapping_snoc (refs qry_cat_list : list category) (r : category) :
  get_label_mapping (refs ++ [r]) qry_cat_list
  = mapping_step (build_qry_dict qry_cat_list)
      (get_label_mapping refs qry_cat_list) r.
Proof. unfold get_label_mapping. rewrite foldl_app. done. Qed.

Lemma get_label_mapping_lookup (ref_cat_list qry_cat_list : list category)
  (i : Z) :
  get_label_mapping ref_cat_list qry_cat_list !! i
  = label_mapping_spec ref_cat_list qry_cat_list i.
Proof.
  unfold label_mapping_spec.
  induction ref_cat_list as [|r refs IH] using rev_ind; [done|].
  rewrite get_label_mapping_snoc, last_with_id_snoc. unfold mapping_step.
  rewrite build_qry_dict_lookup.
  destruct (last_named (cat_name r) qry_cat_list) as [q|] eqn:Hq; simpl;
    rewrite lookup_insert; destruct (decide (cat_id r = i));
    rewrite ?Hq; done.
Qed.

Lemma last_with_id_is_Some (i : Z) (cats : list category) :
  is_Some (last_with_id i cats) <-> i ∈ cat_id <$> cats.
Proof.
  unfold last_with_id. rewrite last_is_Some, list_elem_of_fmap.
  split.
  - intros Hne. destruct (filter _ cats) as [|c l] eqn:Hf; [done|].
    assert (Hc : c ∈ filter (fun c => cat_id c = i) cats)
      by (rewrite Hf; left).
    apply list_elem_of_filter in Hc as [? ?]. eauto.
  - intros (c & -> & Hc) Hnil.
    assert (Hin : c ∈ filter (fun c' => cat_id c' = cat_id c) cats)
      by (apply list_elem_of_filter; done).
    rewrite Hnil in Hin. by apply not_elem_of_nil in Hin.
Qed.

(** C4, as amended.  The domain of the mapping is the set of reference
    category ids, and an id maps as its last reference category says: to
    the id of the last query category with the same name
    (case-sensitively), and to 0 when no query category has that name. *)
Theorem get_label_mapping_last_wins (ref_cat_list qry_cat_list : list category) :
  dom (get_label_mapping ref_cat_list qry_cat_list)
  = list_to_set (cat_id <$> ref_cat_list)
  /\ forall i,
       get_label_mapping ref_cat_list qry_cat_list !! i
       = label_mapping_spec ref_cat_list qry_cat_list i.
Proof.
  split; [|apply get_label_mapping_lookup].
  apply set_eq. intros i.
  rewrite elem_of_dom, get_label_mapping_lookup, elem_of_list_to_set,
    <- last_with_id_is_Some.
  unfold label_mapping_spec.
  destruct (last_with_id i ref_cat_list) as [r|]; [|done].
  destruct (last_named (cat_name r) qry_cat_list); split; eauto.
Qed.

(** With duplicate-free reference ids and query names, the claim holds
    as the specification words it. *)
Lemma last_unique {A : Type} (P : A -> Prop) `{forall x, Decision (P x)}
  (f : A -> Z) (l : list A) (a : A) :
  NoDup (f <$> l) -> a ∈ l -> P a ->
  (forall b, b ∈ l -> P b -> f b = f a) ->
  last (filter P l) = Some a.
Proof.
  intros Hnd Hin HP Hsame.
  induction l as [|b l IH] using rev_ind; [by apply not_elem_of_nil in Hin|].
  rewrite fmap_app in Hnd. apply NoDup_app in Hnd as (Hl & Hdisj & _).
  rewrite filter_app, filter_cons, filter_nil.
  apply elem_of_app in Hin as [Hin|Hin].
  - destruct (decide (P b)) as [Hb|Hb].
    + exfalso. apply (Hdisj (f a)).
      * apply list_elem_of_fmap. eauto.
      * rewrite <- (Hsame b); [left | apply elem_of_app; right; left | done].
    + rewrite app_nil_r. apply IH; [done | done |].
      intros c Hc. apply Hsame, elem_of_app. by left.
  - apply list_elem_of_singleton in Hin as ->.
    rewrite decide_True by done. apply last_snoc.
Qed.

Lemma NoDup_fmap_elem_of {A B : Type} (f : A -> B) (l : list A) (a b : A) :
  NoDup (f <$> l) -> a ∈ l -> b ∈ l -> f a = f b -> a = b.
Proof.
  intros Hnd [j Hj]%list_elem_of_lookup [k Hk]%list_elem_of_lookup Heq.
  assert (j = k) as ->; [|congruence].
  apply (NoDup_lookup _ _ _ (f a) Hnd); rewrite list_lookup_fmap.
  - rewrite Hj. done.
  - rewrite Hk. simpl. congruence.
Qed.

Lemma get_label_mapping_dom (ref_cat_list qry_cat_list : list category) :
  dom (get_label_mapping ref_cat_list qry_cat_list)
  = list_to_set (cat_id <$> ref_cat_list).
Proof.
  apply set_eq. intros i.
  rewrite elem_of_dom, get_label_mapping_lookup, elem_of_list_to_set,
    <- last_with_id_is_Some.
  unfold label_mapping_spec.
  destruct (last_with_id i ref_cat_list) as [r|]; [|done].
  destruct (last_named (cat_name r) qry_cat_list); split; eauto.
Qed.

(** inference.py, get_label_mapping.  When no two reference categories
    share an id and no two query categories share a name, the mapping
    has the reference ids as its domain, sends every reference category
    whose name is the name of a query category to the id of that query
    category, and every other reference category to 0. *)
Lemma get_label_mapping_distinct (ref_cat_list qry_cat_list : list category) :
  NoDup (cat_id <$> ref_cat_list) ->
  NoDup (cat_name <$> qry_cat_list) ->
  label_mapping_claim ref_cat_list qry_cat_list.
Proof.
  intros Hids Hnames.
  pose proof (get_label_mapping_dom ref_cat_list qry_cat_list) as Hdom.
  pose proof (get_label_mapping_lookup ref_cat_list qry_cat_list) as Hl.
  split; [done|].
  assert (Hr : forall r, r ∈ ref_cat_list ->
                 last_with_id (cat_id r) ref_cat_list = Some r).
  { intros r Hin. unfold last_with_id.
    apply (last_unique _ cat_id); [done | done | done |].
    intros b Hb Heq. done. }
  split.
  - intros r q Hin Hq Hname. rewrite Hl. unfold label_mapping_spec.
    rewrite (Hr r Hin).
    assert (last_named (cat_name r) qry_cat_list = Some q) as ->; [|done].
    unfold last_named.
    assert (Hinj : forall b, b ∈ qry_cat_list -> cat_name b = cat_name r -> b = q).
    { intros b Hb Heq.
      apply (NoDup_fmap_elem_of cat_name qry_cat_list); [done..|congruence]. }
    destruct (last (filter (fun c => cat_name c = cat_name r) qry_cat_list))
      as [q'|] eqn:Hlast.
    + apply last_Some_elem_of, list_elem_of_filter in Hlast as [Hn Hin'].
      f_equal. by apply Hinj.
    + apply last_None in Hlast.
      assert (Hin' : q ∈ filter (fun c => cat_name c = cat_name r) qry_cat_list)
        by (apply list_elem_of_filter; done).
      rewrite Hlast in Hin'. by apply not_elem_of_nil in Hin'.
  - intros r Hin Hnone. rewrite Hl. unfold label_mapping_spec.
    rewrite (Hr r Hin). unfold last_named.
    destruct (last (filter (fun c => cat_name c = cat_name r) qry_cat_list))
      as [q'|] eqn:Hlast; [|done].
    apply last_Some_elem_of, list_elem_of_filter in Hlast as [Hn Hin'].
    by apply Hnone in Hin'.
Qed.

(** C4 as worded fails when two reference categories share an id: the
    later one overwrites the entry of the earlier one.  Here the
    reference category "apple" has a query category of its name, with
    id 10, and its id 1 maps to 0. *)
Lemma get_label_mapping_duplicate_id :
  ~ label_mapping_claim
      [ {| cat_id := 1; cat_name := "apple" |};
        {| cat_id := 1; cat_name := "pear" |} ]
      [ {| cat_id := 10; cat_name := "apple" |} ].
Proof.
  intros (_ & Hmatch & _).
  specialize (Hmatch {| cat_id := 1; cat_name := "apple" |}
                     {| cat_id := 10; cat_name := "apple" |}).
  simpl in Hmatch.
  assert (H0 : get_label_mapping
                 [ {| cat_id := 1; cat_name := "apple" |};
                   {| cat_id := 1; cat_name := "pear" |} ]
                 [ {| cat_id := 10; cat_name := "apple" |} ] !! 1 = Some 0)
    by (vm_compute; reflexivity).
  rewrite H0 in Hmatch.
  discriminate Hmatch; [left | left | done].
Qed.

(** ** transforms.py: JointRandomFlip.bbox_flip *)

(** Rows are processed four columns at a time. *)
Lemma list_ind_4 {A : Type} (P : list A -> Prop) :
  P [] -> (forall a, P [a]) -> (forall a b, P [a; b]) ->
  (forall a b c, P [a; b; c]) ->
  (forall a b c d l, P l -> P (a :: b :: c :: d :: l)) ->
  forall l, P l.
Proof.
  intros H0 H1 H2 H3 H4 l.
  enough (P l /\ (forall a, P (a :: l)) /\ (forall a b, P (a :: b :: l))
          /\ (forall a b c, P (a :: b :: c :: l))) by tauto.
  induction l as [|x l (IH0 & IH1 & IH2 & IH3)]; [tauto|].
  repeat split; auto.
Qed.

Section ExactFlip.

Context {A : Type} `{ExactScalar A}.

Lemma flip_row_horizontal_involutive (w : Z) (row : list A) :
  flip_row_horizontal w (flip_row_horizontal w row) = row.
Proof.
  induction row as [| | | |x1 y1 x2 y2 rest IH] using list_ind_4; try done.
  simpl. rewrite !int_sub_involutive, IH. done.
Qed.

Lemma flip_row_vertical_involutive (h : Z) (row : list A) :
  flip_row_vertical h (flip_row_vertical h row) = row.
Proof.
  induction row as [| | | |x1 y1 x2 y2 rest IH] using list_ind_4; try done.
  simpl. rewrite !int_sub_involutive, IH. done.
Qed.

Lemma flip_row_diagonal_involutive (h w : Z) (row : list A) :
  flip_row_diagonal h w (flip_row_diagonal h w row) = row.
Proof.
  induction row as [| | | |x1 y1 x2 y2 rest IH] using list_ind_4; try done.
  simpl. rewrite !int_sub_involutive, IH. done.
Qed.

Lemma map_involutive (f : list A -> list A) (l : list (list A)) :
  (forall row, f (f row) = row) -> map f (map f l) = l.
Proof.
  intros Hf. rewrite map_map. induction l as [|row l IH]; simpl; [done|].
  rewrite Hf, IH. done.
Qed.

(** C7, as amended.  On an array whose subtraction is exact (integer or
    rational entries), for each of the three directions, flipping twice
    with the same image shape gives back the array. *)
Theorem bbox_flip_involutive (bboxes : array2 A) (img_shape : Z * Z)
  (direction : string) :
  direction ∈ ["horizontal"; "vertical"; "diagonal"] ->
  (ncols bboxes `mod` 4 = 0)%nat ->
  (flipped ← bbox_flip bboxes img_shape direction;
   bbox_flip flipped img_shape direction) = Ok bboxes.
Proof.
  intros Hdir Hcols. destruct bboxes as [n rs]. cbn [ncols] in Hcols.
  repeat (apply elem_of_cons in Hdir as [->|Hdir]);
    [| | |by apply not_elem_of_nil in Hdir];
    unfold bbox_flip; cbn [ncols rows];
    repeat (case_decide; try done);
    cbn -[Nat.modulo]; repeat (case_decide; try done); do 2 f_equal.
  - apply map_involutive, flip_row_horizontal_involutive.
  - apply map_involutive, flip_row_vertical_involutive.
  - apply map_involutive, flip_row_diagonal_involutive.
Qed.

End ExactFlip.

Lemma bbox_flip_involutive_witness :
  (flipped ← bbox_flip {| ncols := 4; rows := [[10; 20; 30; 40]] |}
               (480, 640) "horizontal";
   bbox_flip flipped (480, 640) "horizontal")
  = Ok {| ncols := 4; rows := [[10; 20; 30; 40]] |}.
Proof.
  apply (bbox_flip_involutive (A := Z)
           {| ncols := 4; rows := [[10; 20; 30; 40]] |} (480, 640) "horizontal").
  - left.
  - reflexivity.
Defined.

(** C7 as worded fails on a floating-point array: [w - (w - x)] is not
    [x] when [w - x] is rounded.  With [w = 1000] the box
    [[0.1, 0, 0.25, 1]] comes back with [x1 = 0.10000000000002274]. *)
Lemma bbox_flip_float_rounds :
  (flipped ← bbox_flip
               {| ncols := 4;
                  rows := [[0x1.999999999999ap-4%float; 0%float;
                            0x1p-2%float; 1%float]] |}
               (1000, 1000) "horizontal";
   bbox_flip flipped (1000, 1000) "horizontal")
  <> Ok {| ncols := 4;
           rows := [[0x1.999999999999ap-4%float; 0%float;
                     0x1p-2%float; 1%float]] |}.
Proof.
  intros Heq.
  apply (f_equal (fun r : res (array2 float) =>
                    match r with
                    | Ok a =>
                        match rows a with
                        | (x :: _) :: _ =>
                            PrimFloat.eqb x 0x1.999999999999ap-4%float
                        | _ => true
                        end
                    | Raise _ => true
                    end)) in Heq.
  vm_compute in Heq. discriminate Heq.
Qed.

(** ** transforms.py: GtBBoxesFilter *)

Lemma mask_select_map_filter {A : Type} (f : A -> bool) (l : list A) :
  mask_select (map f l) l = List.filter f l.
Proof.
  induction l as [|a l IH]; simpl; [done|].
  destruct (f a); rewrite IH; done.
Qed.

Lemma mask_select_zip {A B : Type} (m : list bool) (l : list A) (k : list B) :
  mask_select m (zip l k) = zip (mask_select m l) (mask_select m k).
Proof.
  revert l k. induction m as [|b m IH]; intros [|a l] [|c k]; simpl; try done.
  - destruct b; [done|]. by destruct (mask_select m l).
  - destruct b; simpl; rewrite IH; done.
Qed.

Lemma mask_select_length {A B : Type} (m : list bool) (l : list A) (k : list B) :
  length l = length k ->
  length (mask_select m l) = length (mask_select m k).
Proof.
  revert l k. induction m as [|b m IH]; intros [|a l] [|c k]; simpl; try done.
  intros [= Hlen]. destruct b; simpl; rewrite (IH l k); done.
Qed.

Lemma mask_select_selected {A : Type} (m : list bool) (l : list A) :
  mask_select m l = selected m l.
Proof.
  unfold selected. revert l.
  induction m as [|b m IH]; intros [|a l]; simpl; try done.
  rewrite filter_cons. destruct b; simpl.
  - f_equal. apply IH.
  - apply IH.
Qed.

Lemma selected_flags {A : Type} (f : A -> bool) (l : list A) (i : nat) (a : A) :
  l !! i = Some a -> map f l !! i = Some true <-> f a = true.
Proof.
  intros Ha. change (map f l) with (f <$> l).
  rewrite list_lookup_fmap, Ha. simpl. split; congruence.
Qed.

(** The larger of two quotients lies below a bound when both do; a
    quotient that is not a number lies below none. *)
Lemma xltb_xmaximum (a b : xnum) (m : Q) :
  xltb (xmaximum a b) m = xltb a m && xltb b m.
Proof.
  destruct a as [p| | |], b as [q| | |]; simpl; try done;
    try by rewrite andb_false_r.
  - unfold maximum. destruct (Qltb p q) eqn:Hpq.
    + apply Qltb_lt in Hpq. destruct (Qltb q m) eqn:Hq.
      * apply Qltb_lt in Hq. rewrite andb_true_r. symmetry.
        apply Qltb_lt. by apply Qlt_trans with q.
      * by rewrite andb_false_r.
    + apply Qltb_ge in Hpq. destruct (Qltb p m) eqn:Hp; [|done].
      apply Qltb_lt in Hp. simpl. symmetry. apply Qltb_lt.
      by apply Qle_lt_trans with p.
  - by rewrite andb_true_r.
Qed.

Section GtBBoxesFilterFacts.

Variable mask : Type.
Variable prec : Z.

Lemma fdiv_below (num den bound : Q) :
  xltb (fdiv prec num den) bound = true
  <-> quotient_below prec num den bound.
Proof.
  unfold fdiv, xdiv, quotient_below, fl.
  destruct (Qeq_bool den 0) eqn:Hden.
  - apply Qeq_bool_iff in Hden.
    destruct (Qltb 0 num) eqn:Hpos.
    + apply Qltb_lt in Hpos. simpl. split; [done|].
      intros [[Hn _]|[_ Hneg]]; [done|].
      exfalso. apply (Qlt_irrefl 0). by apply Qlt_trans with num.
    + destruct (Qltb num 0) eqn:Hneg; simpl.
      * apply Qltb_lt in Hneg. split; [by right | done].
      * apply Qltb_ge in Hneg. split; [done|].
        intros [[Hn _]|[_ Hlt]]; [done|].
        exfalso. by apply (Qlt_not_le _ _ Hlt).
  - assert (Hne : ~ den == 0)
      by (intros H; apply Qeq_bool_iff in H; congruence).
    simpl. rewrite Qltb_lt. split; [by left|].
    by intros [[_ ?]|[? _]].
Qed.

(** The test of lines 2658-2661 is the test of the claim. *)
Lemma gt_valid_claim (self : GtBBoxesFilter) (b : box) :
  gt_valid prec self b = true
  <-> claim_keeps prec (min_size self) (max_aspect_ratio self) b.
Proof.
  unfold gt_valid, claim_keeps, aspect_ratio.
  rewrite xltb_xmaximum, !andb_true_iff, !Qltb_lt, !fdiv_below.
  unfold box_w, box_h, fadd, fsub, fl, eps16. tauto.
Qed.

(** C10.  On a record with aligned boxes and labels, [GtBBoxesFilter]
    selects the same positions from ["gt_bboxes"] and from
    ["gt_labels"]; the positions are those of the boxes whose width and
    height lie above [min_size] and whose aspect ratio, the larger of
    width / (height + 1e-16) and height / (width + 1e-16) in the
    arithmetic of the array, lies below [max_aspect_ratio]; every other
    field of the record stays as it was. *)
Theorem GtBBoxesFilter_aligned (self : GtBBoxesFilter)
  (results : gmap string (value mask)) (bboxes : list box) (labels : list Z) :
  results !! "gt_bboxes" = Some (VBoxes mask bboxes) ->
  results !! "gt_labels" = Some (VLabels mask labels) ->
  length labels = length bboxes ->
  exists out flags,
    GtBBoxesFilter_call mask prec self results = Ok out
    /\ length flags = length bboxes
    /\ (forall i b, bboxes !! i = Some b ->
          (flags !! i = Some true
           <-> claim_keeps prec (min_size self) (max_aspect_ratio self) b))
    /\ out !! "gt_bboxes" = Some (VBoxes mask (selected flags bboxes))
    /\ out !! "gt_labels" = Some (VLabels mask (selected flags labels))
    /\ forall k, k <> "gt_bboxes" -> k <> "gt_labels" ->
                 out !! k = results !! k.
Proof.
  intros Hb Hl Hlen. unfold GtBBoxesFilter_call, getitem.
  rewrite Hb, Hl. simpl. unfold bool_index.
  rewrite !length_map.
  destruct (decide (length bboxes = length bboxes)) as [_|]; [|done]. simpl.
  destruct (decide (length bboxes = length labels)) as [_|]; [|done]. simpl.
  eexists. exists (map (gt_valid prec self) bboxes).
  split; [done|]. split; [apply length_map|]. split; [|split; [|split]].
  - intros i b Hi. rewrite (selected_flags _ _ _ _ Hi). apply gt_valid_claim.
  - rewrite lookup_insert_ne, lookup_insert_eq by done.
    by rewrite mask_select_selected.
  - rewrite lookup_insert_eq. by rewrite mask_select_selected.
  - intros k Hk1 Hk2. rewrite !lookup_insert_ne; done.
Qed.

End GtBBoxesFilterFacts.

(** Four boxes in a [float64] array, for [min_size] 2 and
    [max_aspect_ratio] 20: a square one; one of 60 x 3, whose aspect
    ratio is 20 because 3 + 1e-16 is 3; one that is 1 wide; one of
    59 x 3.  The first and the last are kept, with their labels. *)
Lemma GtBBoxesFilter_aligned_witness :
  let square := {| bx1 := 0; by1 := 0; bx2 := 10; by2 := 10 |} in
  let long := {| bx1 := 0; by1 := 0; bx2 := 60; by2 := 3 |} in
  let thin := {| bx1 := 0; by1 := 0; bx2 := 1; by2 := 30 |} in
  let fine := {| bx1 := 1; by1 := 1; bx2 := 60; by2 := 4 |} in
  exists out,
    GtBBoxesFilter_call unit 53 {| min_size := 2; max_aspect_ratio := 20 |}
      {[ "gt_bboxes" := VBoxes unit [square; long; thin; fine];
         "gt_labels" := VLabels unit [7; 8; 9; 6];
         "img_shape" := VShape unit [100; 100; 3] ]} = Ok out
    /\ out !! "gt_bboxes" = Some (VBoxes unit [square; fine])
    /\ out !! "gt_labels" = Some (VLabels unit [7; 6])
    /\ out !! "img_shape" = Some (VShape unit [100; 100; 3]).
Proof.
  intros square long thin fine.
  destruct (GtBBoxesFilter_aligned unit 53
              {| min_size := 2; max_aspect_ratio := 20 |}
              {[ "gt_bboxes" := VBoxes unit [square; long; thin; fine];
                 "gt_labels" := VLabels unit [7; 8; 9; 6];
                 "img_shape" := VShape unit [100; 100; 3] ]}
              [square; long; thin; fine] [7; 8; 9; 6])
    as (out & flags & Hcall & Hlen & Hflags & Hboxes & Hlabels & Hother);
    [reflexivity | reflexivity | reflexivity |].
  exists out. split; [exact Hcall|].
  destruct flags as [|f0 [|f1 [|f2 [|f3 [|]]]]]; try discriminate Hlen.
  assert (H0 : f0 = true).
  { assert (Some f0 = Some true) as [= ->]; [|reflexivity].
    apply (Hflags 0%nat square eq_refl). vm_compute.
    repeat split; left; split; (discriminate || reflexivity). }
  assert (H1 : f1 = false).
  { destruct f1; [|reflexivity].
    destruct (proj1 (Hflags 1%nat long eq_refl) eq_refl)
      as (_ & _ & [[_ Hq]|[Hz _]] & _);
      vm_compute in Hq || vm_compute in Hz; discriminate. }
  assert (H2 : f2 = false).
  { destruct f2; [|reflexivity].
    destruct (proj1 (Hflags 2%nat thin eq_refl) eq_refl) as (Hw & _).
    vm_compute in Hw. discriminate. }
  assert (H3 : f3 = true).
  { assert (Some f3 = Some true) as [= ->]; [|reflexivity].
    apply (Hflags 3%nat fine eq_refl). vm_compute.
    repeat split; left; split; (discriminate || reflexivity). }
  subst f0 f1 f2 f3.
  split; [exact Hboxes|]. split; [exact Hlabels|].
  rewrite (Hother "img_shape") by discriminate. reflexivity.
Defined.

(** The same boxes in a [float32] array. *)
Example GtBBoxesFilter_float32 :
  let square := {| bx1 := 0; by1 := 0; bx2 := 10; by2 := 10 |} in
  let long := {| bx1 := 0; by1 := 0; bx2 := 60; by2 := 3 |} in
  let thin := {| bx1 := 0; by1 := 0; bx2 := 1; by2 := 30 |} in
  let fine := {| bx1 := 1; by1 := 1; bx2 := 60; by2 := 4 |} in
  map (gt_valid 24 {| min_size := 2; max_aspect_ratio := 20 |})
    [square; long; thin; fine]
  = [true; false; false; true].
Proof. vm_compute. reflexivity. Qed.

(** ** test_mixins.py: MaskTestMixin.simple_test_mask *)

Section MaskTestMixinFacts.

Variables feats rois pred segm : Type.
Variable num_classes : Z.
Variable bbox2roi : list (list (list Q)) -> rois.
Variable _mask_forward : feats -> rois -> res (list pred).
Variable get_seg_masks :
  list pred -> list (list Q) -> list Z -> list Z -> scale -> bool ->
  res (list (list segm)).

(** C9.  When the box tensor of every image is empty, the result is one
    list of [num_classes] empty lists per image, and neither the mask
    forward pass nor the mask decoding is called. *)
Theorem simple_test_mask_all_empty (x : feats) (img_metas : list img_meta)
  (det_bboxes : list (list (list Q))) (det_labels : list (list Z))
  (rescale : bool) :
  Forall (fun det_bbox => length det_bbox = 0%nat) det_bboxes ->
  simple_test_mask feats rois pred segm num_classes bbox2roi _mask_forward
    get_seg_masks x img_metas det_bboxes det_labels rescale
  = (Ok (replicate (length det_bboxes)
           (replicate (Z.to_nat num_classes) [])), []).
Proof.
  intros Hempty. unfold simple_test_mask.
  assert (forallb (fun det_bbox : list (list Q) =>
                     bool_decide (length det_bbox = 0%nat)) det_bboxes = true)
    as ->; [|done].
  apply forallb_forall. intros b Hb.
  apply bool_decide_eq_true_2. rewrite Forall_forall in Hempty.
  apply Hempty, list_elem_of_In, Hb.
Qed.

End MaskTestMixinFacts.

Lemma simple_test_mask_all_empty_witness :
  simple_test_mask unit unit unit unit 3 (fun _ => tt)
    (fun _ _ => Ok [tt]) (fun _ _ _ _ _ _ => Ok [[tt]]) tt
    [ {| ori_shape := [480; 640; 3]; scale_factor := ScaleFloat 1 |};
      {| ori_shape := [480; 640; 3]; scale_factor := ScaleFloat 1 |} ]
    [[]; []] [[]; []] true
  = (Ok [[[]; []; []]; [[]; []; []]], []).
Proof.
  apply (simple_test_mask_all_empty unit unit unit unit 3 (fun _ => tt)
           (fun _ _ => Ok [tt]) (fun _ _ _ _ _ _ => Ok [[tt]]) tt
           [ {| ori_shape := [480; 640; 3]; scale_factor := ScaleFloat 1 |};
             {| ori_shape := [480; 640; 3]; scale_factor := ScaleFloat 1 |} ]
           [[]; []] [[]; []] true).
  repeat constructor.
Defined.

(** ** Records: labels and masks follow their boxes *)



Lemma bool_index_Ok {A : Type} (m : list bool) (l r : list A) :
  bool_index m l = Ok r <-> length m = length l /\ r = mask_select m l.
Proof.
  unfold bool_index.
  destruct (decide (length m = length l)) as [Hlen|Hlen]; split.
  - intros [= <-]. done.
  - intros [_ ->]. done.
  - done.
  - intros [? _]. done.
Qed.




Section RecordFacts.

Context {mask : Type}.
Variable mask_crop : patch -> mask -> mask.

Implicit Type results : gmap string (value mask).












End RecordFacts.

(** ** transforms.py: JointRandomCrop *)



Section JointRandomCropFacts.

Context {mask : Type}.
Variable mask_crop : patch -> mask -> mask.

Implicit Type results : gmap string (value mask).



Lemma get_keys_ext results results' k default :
  results' !! k = results !! k ->
  get_keys mask results' k default = get_keys mask results k default.
Proof. unfold get_keys. by intros ->. Qed.















End JointRandomCropFacts.


(** ** transforms.py: MinIoURandomCrop *)





Lemma is_center_of_bbox_in_patch_spec (p : patch) (b : box) :
  is_center_of_bbox_in_patch p b = true <-> center_inside p b.
Proof.
  unfold is_center_of_bbox_in_patch, center_inside.
  rewrite !andb_true_iff, !Qltb_lt. tauto.
Qed.

Section MinIoURandomCropFacts.

Context {mask : Type}.
Variable mask_crop : patch -> mask -> mask.
Variable bbox_overlaps_np : patch -> box -> Q.

Implicit Type results : gmap string (value mask).








End MinIoURandomCropFacts.

(** ** transforms.py: MosaicPipeline *)

(** *** Pasting a tile into the canvas *)

Lemma slice_index_inside (n i : Z) : 0 <= i <= n -> slice_index n i = i.
Proof. unfold slice_index. intros Hi. destruct (Z.ltb_spec i 0); lia. Qed.

(** A tile of size at least 1 x 1 whose corner lies on the canvas can
    only be pasted if it fits, and then every entry of the result is
    the one of the tile inside its rectangle and the one of the canvas
    outside. *)
Lemma paste_fits (canvas src a' : image) (y1 y2 x1 x2 : Z) :
  paste canvas y1 y2 x1 x2 src = Ok a' ->
  y2 = y1 + img_h src -> x2 = x1 + img_w src ->
  0 < img_h src -> 0 < img_w src ->
  0 <= y1 < img_h canvas -> 0 <= x1 < img_w canvas ->
  y2 <= img_h canvas /\ x2 <= img_w canvas
  /\ img_h a' = img_h canvas /\ img_w a' = img_w canvas
  /\ img_c a' = img_c canvas
  /\ forall y x c, pix a' y x c = pasted_pix canvas src x1 y1 y x c.
Proof.
  intros Hpaste -> -> Hh Hw Hy Hx. unfold paste in Hpaste.
  destruct (broadcastable (img_h src) _) eqn:Bh in Hpaste; [|done].
  destruct (broadcastable (img_w src) _) eqn:Bw in Hpaste; [|done].
  destruct (broadcastable (img_c src) _) eqn:Bc in Hpaste; [|done].
  simpl in Hpaste. injection Hpaste as <-. simpl.
  rewrite (slice_index_inside (img_h canvas) y1) in * by lia.
  rewrite (slice_index_inside (img_w canvas) x1) in * by lia.
  assert (Hfit_y : y1 + img_h src <= img_h canvas).
  { unfold broadcastable, slice_index in Bh.
    apply orb_true_iff in Bh as [Bh|Bh]; apply Z.eqb_eq in Bh;
      destruct (Z.ltb_spec (y1 + img_h src) 0); lia. }
  assert (Hfit_x : x1 + img_w src <= img_w canvas).
  { unfold broadcastable, slice_index in Bw.
    apply orb_true_iff in Bw as [Bw|Bw]; apply Z.eqb_eq in Bw;
      destruct (Z.ltb_spec (x1 + img_w src) 0); lia. }
  repeat split; try done.
  intros y x c. unfold pasted_pix.
  rewrite (slice_index_inside (img_h canvas) (y1 + img_h src)) by lia.
  rewrite (slice_index_inside (img_w canvas) (x1 + img_w src)) by lia.
  replace (Z.max (y1 + img_h src - y1) 0) with (img_h src) by lia.
  replace (Z.max (x1 + img_w src - x1) 0) with (img_w src) by lia.
  destruct ((y1 <=? y) && (y <? y1 + img_h src) && (x1 <=? x)
            && (x <? x1 + img_w src)) eqn:Hin; [|done].
  apply andb_true_iff in Hin as [[[H1 H2]%andb_true_iff H3]%andb_true_iff H4].
  apply Z.leb_le in H1, H3. apply Z.ltb_lt in H2, H4.
  do 2 f_equal.
  - destruct (Z.eqb_spec (img_h src) 1); lia.
  - destruct (Z.eqb_spec (img_w src) 1); lia.
Qed.

(** Pasting the same tile twice is pasting it once. *)
Lemma pasted_pix_twice (a a1 src : image) (x1 y1 y x c : Z) :
  (forall y x c, pix a1 y x c = pasted_pix a src x1 y1 y x c) ->
  pasted_pix a1 src x1 y1 y x c = pasted_pix a src x1 y1 y x c.
Proof.
  intros H1. unfold pasted_pix at 1. rewrite H1. unfold pasted_pix.
  by destruct (_ && _).
Qed.

Section MosaicPaste.

Context {mask : Type}.

Implicit Type results : gmap string (value mask).

Lemma paste_fields_inv y1 y2 x1 x2 keys results canvas canvas' h w hc wc cc :
  paste_fields mask y1 y2 x1 x2 keys results canvas = Ok canvas' ->
  y2 = y1 + h -> x2 = x1 + w -> 0 < h -> 0 < w ->
  0 <= y1 < hc -> 0 <= x1 < wc ->
  (forall key, key ∈ keys ->
     exists src, results !! key = Some (VImg mask src)
                 /\ img_h src = h /\ img_w src = w) ->
  canvas_dims canvas hc wc cc ->
  canvas_dims canvas' hc wc cc
  /\ (forall k, k ∉ keys -> canvas' !! k = canvas !! k)
  /\ (forall key, key ∈ keys ->
        y2 <= hc /\ x2 <= wc
        /\ exists a a' src,
             canvas !! key = Some a /\ canvas' !! key = Some a'
             /\ results !! key = Some (VImg mask src)
             /\ forall y x c, pix a' y x c = pasted_pix a src x1 y1 y x c).
Proof.
  intros Hrun -> -> Hh Hw Hy Hx Hsrc. revert canvas Hrun.
  induction keys as [|key keys IH]; intros canvas Hrun Hdims; simpl in Hrun.
  - injection Hrun as <-. split; [done|]. split; [done|].
    by intros key []%not_elem_of_nil.
  - apply bind_Ok in Hrun as (a0 & Ha0 & Hrun).
    apply bind_Ok in Hrun as (v & Hv & Hrun).
    apply bind_Ok in Hrun as (src & Hsrc0 & Hrun).
    apply bind_Ok in Hrun as (a1 & Hpaste & Hrun).
    unfold getitem in Ha0, Hv.
    destruct (canvas !! key) as [a0'|] eqn:Hcan; [|done]. injection Ha0 as ->.
    destruct (results !! key) as [v'|] eqn:Hres; [|done]. injection Hv as ->.
    destruct (Hsrc key) as (src' & Hsrc' & Hsh & Hsw); [left|].
    rewrite Hsrc' in Hres. injection Hres as <-. injection Hsrc0 as <-.
    destruct (Hdims key a0 Hcan) as (Hh0 & Hw0 & Hc0).
    destruct (paste_fits a0 src' a1 y1 (y1 + h) x1 (x1 + w) Hpaste)
      as (Hfy & Hfx & Hh1 & Hw1 & Hc1 & Hpix); try lia.
    destruct (IH (fun k Hk => Hsrc k (list_elem_of_further _ _ _ Hk))
                (<[key := a1]> canvas) Hrun) as (Hdims' & Hframe & Hkeys).
    { intros k a. rewrite lookup_insert. case_decide.
      - intros [= <-]. lia.
      - apply Hdims. }
    split; [done|]. split.
    + intros k Hk. apply not_elem_of_cons in Hk as [Hne Hk].
      rewrite Hframe, lookup_insert_ne; done.
    + intros key0 Hin.
      destruct (decide (key0 ∈ keys)) as [Hin'|Hnotin].
      * destruct (Hkeys key0 Hin') as (Hy2 & Hx2 & a & a' & src & Ha & Ha' & Hs & Hp).
        split; [done|]. split; [done|].
        destruct (decide (key0 = key)) as [->|Hne].
        -- rewrite lookup_insert_eq in Ha. injection Ha as <-.
           rewrite Hsrc' in Hs. injection Hs as <-.
           exists a0, a', src'. repeat split; try done.
           intros y x c. rewrite Hp. by apply pasted_pix_twice.
        -- rewrite lookup_insert_ne in Ha by done.
           exists a, a', src. done.
      * apply elem_of_cons in Hin as [->|Hin]; [|done].
        split; [lia|]. split; [lia|].
        exists a0, a1, src'. repeat split; try done.
        rewrite Hframe, lookup_insert_eq; done.
Qed.

End MosaicPaste.

(** *** Translating the boxes of a tile *)

Section MosaicBoxes.

Context {mask : Type}.

Implicit Type t : gmap string (value mask).
Implicit Type st : gmap positive (list box).

Lemma read_boxes_kind st key t bs :
  read_boxes mask st key t = Ok bs ->
  t !! key = Some (VBoxes mask bs)
  \/ exists l, t !! key = Some (VBoxesAt mask l) /\ st !! l = Some bs.
Proof.
  unfold read_boxes, getitem. destruct (t !! key) as [v|]; [|done].
  destruct v; simpl; try done.
  - intros [= ->]. by left.
  - destruct (st !! l) eqn:Hl; [|done]. intros [= ->]. right. eauto.
Qed.

Lemma read_boxes_ext st st' key t t' :
  t' !! key = t !! key ->
  (forall l, t !! key = Some (VBoxesAt mask l) -> st' !! l = st !! l) ->
  read_boxes mask st' key t' = read_boxes mask st key t.
Proof.
  intros Ht Hst. unfold read_boxes, getitem. rewrite Ht.
  destruct (t !! key) as [v|]; [|done].
  destruct v; simpl; try done. by rewrite Hst.
Qed.

Lemma elem_of_box_locations t keys key l :
  key ∈ keys -> t !! key = Some (VBoxesAt mask l) ->
  l ∈ box_locations t keys.
Proof.
  intros Hin Hl. unfold box_locations. apply list_elem_of_omap.
  exists key. by rewrite Hl.
Qed.

Lemma box_locations_ext t t' keys :
  (forall k, k ∈ keys -> t' !! k = t !! k) ->
  box_locations t' keys = box_locations t keys.
Proof.
  intros Hext. unfold box_locations, omap.
  induction keys as [|key keys IH]; [done|]. simpl.
  rewrite (Hext key) by left.
  rewrite IH; [done|]. intros k Hk. apply Hext. by right.
Qed.

(** The loop over the box fields of a tile moves the array of every
    field once, and leaves every other field and every other array of
    the store as it was. *)
Lemma shift_bboxes_inv x1 y1 keys t st t' st' :
  shift_bboxes mask x1 y1 keys t st = Ok (t', st') ->
  NoDup keys -> NoDup (box_locations t keys) ->
  (forall k, k ∉ keys -> t' !! k = t !! k)
  /\ (forall l, l ∉ box_locations t keys -> st' !! l = st !! l)
  /\ (forall key, key ∈ keys ->
        exists bs, read_boxes mask st key t = Ok bs
                   /\ read_boxes mask st' key t'
                      = Ok (map (shift_box x1 y1) bs)).
Proof.
  revert t st. induction keys as [|key keys IH]; intros t st Hrun Hkeys Hlocs.
  - simpl in Hrun. injection Hrun as <- <-.
    repeat split; try done. by intros key []%not_elem_of_nil.
  - simpl in Hrun. apply bind_Ok in Hrun as (v & Hv & Hrun).
    unfold getitem in Hv. destruct (t !! key) as [v'|] eqn:Hkey; [|done].
    injection Hv as ->. apply NoDup_cons in Hkeys as [Hnotin Hkeys].
    destruct v; try done.
    + (* the array is held by the record *)
      set (t1 := <[key := VBoxes mask (map (shift_box x1 y1) bs)]> t) in *.
      assert (Hext : forall k, k ∈ keys -> t1 !! k = t !! k).
      { intros k Hk. unfold t1. rewrite lookup_insert_ne; [done|].
        by intros ->. }
      assert (Hl : box_locations t (key :: keys) = box_locations t keys).
      { unfold box_locations. simpl. by rewrite Hkey. }
      rewrite Hl in *.
      destruct (IH t1 st Hrun Hkeys) as (Hframe & Hstore & Hread).
      { by rewrite (box_locations_ext t t1). }
      rewrite (box_locations_ext t t1) in Hstore by done.
      split; [|split; [done|]].
      * intros k [Hne Hk]%not_elem_of_cons.
        rewrite Hframe by done. unfold t1. by rewrite lookup_insert_ne.
      * intros key0 [->|Hin]%elem_of_cons.
        -- exists bs. split.
           ++ unfold read_boxes, getitem. by rewrite Hkey.
           ++ unfold read_boxes, getitem. rewrite Hframe by done.
              unfold t1. by rewrite lookup_insert_eq.
        -- destruct (Hread key0 Hin) as (bs0 & Hb0 & Hb0').
           exists bs0. split; [|done].
           rewrite <- Hb0. symmetry. apply read_boxes_ext; [by apply Hext|done].
    + (* the array is an object of the store *)
      apply bind_Ok in Hrun as (bs & Hbs & Hrun).
      unfold getitem in Hbs. destruct (st !! l) as [bs'|] eqn:Hst; [|done].
      injection Hbs as ->.
      assert (Hl : box_locations t (key :: keys) = l :: box_locations t keys).
      { unfold box_locations. simpl. by rewrite Hkey. }
      rewrite Hl in *. apply NoDup_cons in Hlocs as [Hlnotin Hlocs].
      destruct (IH t _ Hrun Hkeys Hlocs) as (Hframe & Hstore & Hread).
      split; [|split].
      * intros k [Hne Hk]%not_elem_of_cons. by apply Hframe.
      * intros l0 [Hne Hl0]%not_elem_of_cons.
        rewrite Hstore by done. by rewrite lookup_insert_ne.
      * intros key0 [->|Hin]%elem_of_cons.
        -- exists bs. split.
           ++ unfold read_boxes, getitem. rewrite Hkey. simpl.
              unfold getitem. by rewrite Hst.
           ++ unfold read_boxes, getitem. rewrite Hframe, Hkey by done. simpl.
              unfold getitem. rewrite Hstore by done.
              by rewrite lookup_insert_eq.
        -- destruct (Hread key0 Hin) as (bs0 & Hb0 & Hb0').
           exists bs0. split; [|done].
           rewrite <- Hb0. symmetry. apply read_boxes_ext; [done|].
           intros l0 Hl0. rewrite lookup_insert_ne; [done|].
           intros <-. apply Hlnotin. by apply (elem_of_box_locations t keys key0).
Qed.

End MosaicBoxes.

(** *** Placing one tile *)


Lemma pasted_pix_outside (a src : image) (x1 y1 y x c : Z) :
  ~ (y1 <= y < y1 + img_h src /\ x1 <= x < x1 + img_w src) ->
  pasted_pix a src x1 y1 y x c = pix a y x c.
Proof.
  intros Hout. unfold pasted_pix.
  destruct (Z.leb_spec y1 y); [|done].
  destruct (Z.ltb_spec y (y1 + img_h src)); [|done].
  destruct (Z.leb_spec x1 x); [|done].
  destruct (Z.ltb_spec x (x1 + img_w src)); [|done].
  lia.
Qed.

Section MosaicTiles.

Context {mask : Type}.

Implicit Type t out : gmap string (value mask).
Implicit Type st : gmap positive (list box).

Lemma pad_shape_of_dims t hw :
  tile_dims t = Some hw ->
  exists rest, pad_shape_of mask t = Ok (hw.1 :: hw.2 :: rest).
Proof.
  unfold tile_dims, pad_shape_of, getitem.
  destruct (t !! "pad_shape") as [v|]; [|done].
  destruct v as [| | | | |s| | | | |]; try done.
  destruct s as [|h [|w rest]]; try done.
  intros [= <-]. by exists rest.
Qed.

(** A field that holds a list of names does not hold boxes. *)
Lemma get_keys_not_read st t k default ks bs :
  get_keys mask t k default = Ok ks ->
  read_boxes mask st k t = Ok bs -> False.
Proof.
  unfold get_keys. intros Hk [Hb|(l & Hb & _)]%read_boxes_kind;
    rewrite Hb in Hk; done.
Qed.


(** Translating the boxes does not change where a tile holds them. *)
Lemma shift_bboxes_at x1 y1 keys t st t' st' :
  shift_bboxes mask x1 y1 keys t st = Ok (t', st') ->
  forall k l, t' !! k = Some (VBoxesAt mask l)
              <-> t !! k = Some (VBoxesAt mask l).
Proof.
  revert t st. induction keys as [|key keys IH]; intros t st Hrun k l.
  - simpl in Hrun. by injection Hrun as <- <-.
  - simpl in Hrun. apply bind_Ok in Hrun as (v & Hv & Hrun).
    unfold getitem in Hv. destruct (t !! key) as [v'|] eqn:Hkey; [|done].
    injection Hv as ->. destruct v; try done.
    + rewrite (IH _ _ Hrun). rewrite lookup_insert. case_decide as Hk.
      * subst k. rewrite Hkey. split; intros [=].
      * done.
    + apply bind_Ok in Hrun as (bs & _ & Hrun). by apply (IH _ _ Hrun).
Qed.

Lemma box_locations_shift x1 y1 keys t st t' st' keys' :
  shift_bboxes mask x1 y1 keys t st = Ok (t', st') ->
  forall l, l ∈ box_locations t' keys' <-> l ∈ box_locations t keys'.
Proof.
  intros Hrun l. unfold box_locations. rewrite !list_elem_of_omap.
  split; intros (key & Hin & Hl); exists key; (split; [done|]).
  - destruct (t' !! key) as [v|] eqn:Hk; [|done].
    destruct v; try done. injection Hl as ->.
    apply (shift_bboxes_at _ _ _ _ _ _ _ Hrun) in Hk. by rewrite Hk.
  - destruct (t !! key) as [v|] eqn:Hk; [|done].
    destruct v; try done. injection Hl as ->.
    apply (shift_bboxes_at _ _ _ _ _ _ _ Hrun) in Hk. by rewrite Hk.
Qed.

(** One iteration of the loop over the tiles: the tile is pasted with
    its corner at the offset of its quadrant, which it can only be if
    it fits into the canvas, and its boxes move by that offset. *)
Lemma place_tile_inv cxy img_fields i prev t canvas st t' canvas' st' q
    bbox_fields hw cc :
  place_tile mask cxy img_fields i prev t canvas st
  = Ok (t', canvas', st', q) ->
  (i < 4)%nat ->
  tile_ready t img_fields bbox_fields hw ->
  NoDup (box_locations t bbox_fields) ->
  canvas_dims canvas (cxy * 2) (cxy * 2) cc ->
  0 <= (tile_offset i cxy hw).1 < cxy * 2 ->
  0 <= (tile_offset i cxy hw).2 < cxy * 2 ->
  canvas_dims canvas' (cxy * 2) (cxy * 2) cc
  /\ (forall k, k ∉ img_fields -> canvas' !! k = canvas !! k)
  /\ (forall key, key ∈ img_fields ->
        (tile_offset i cxy hw).2 + hw.1 <= cxy * 2
        /\ (tile_offset i cxy hw).1 + hw.2 <= cxy * 2
        /\ exists a a' src,
             canvas !! key = Some a /\ canvas' !! key = Some a'
             /\ t !! key = Some (VImg mask src)
             /\ forall y x c,
                  pix a' y x c
                  = pasted_pix a src (tile_offset i cxy hw).1
                      (tile_offset i cxy hw).2 y x c)
  /\ (forall k, k ∉ bbox_fields -> t' !! k = t !! k)
  /\ (forall l, l ∉ box_locations t bbox_fields -> st' !! l = st !! l)
  /\ (forall l, l ∈ box_locations t' bbox_fields
                <-> l ∈ box_locations t bbox_fields)
  /\ (forall key, key ∈ bbox_fields ->
        exists bs, read_boxes mask st key t = Ok bs
                   /\ read_boxes mask st' key t'
                      = Ok (translated i cxy hw bs)).
Proof.
  intros Hrun Hi [Hdims Hpos Himgs Hbf Hnd] Hlocs Hcan Hx Hy.
  destruct hw as [h w]. simpl in *.
  destruct (pad_shape_of_dims t (h, w) Hdims) as [rest Hps]. simpl in Hps.
  unfold place_tile in Hrun. rewrite Hps in Hrun. simpl in Hrun.
  assert (Hq : exists x1 y1, tile_offset i cxy (h, w) = (x1, y1)
                 /\ quadrant i cxy h w prev = Ok (x1, y1, x1 + w, y1 + h)).
  { destruct i as [|[|[|[|i]]]]; [..|lia]; simpl; eexists _, _;
      (split; [done|]); repeat f_equal; lia. }
  destruct Hq as (x1 & y1 & Hoff & Hq). rewrite Hq in Hrun. simpl in Hrun.
  rewrite Hoff in *. simpl in *.
  apply bind_Ok in Hrun as (canvas1 & Hpaste & Hrun).
  rewrite Hbf in Hrun. simpl in Hrun.
  apply bind_Ok in Hrun as ([t1 st1] & Hshift & [= <- <- <- <-]).
  destruct (paste_fields_inv y1 (y1 + h) x1 (x1 + w) img_fields t canvas
              canvas1 h w (cxy * 2) (cxy * 2) cc Hpaste)
    as (Hcan1 & Hframe & Hkeys); try done; try lia.
  destruct (shift_bboxes_inv x1 y1 bbox_fields t st t1 st1 Hshift Hnd Hlocs)
    as (Hdict & Hstore & Hread).
  split; [done|]. split; [done|]. split; [|split; [done|split; [done|split]]].
  - intros key Hkey.
    destruct (Hkeys key Hkey) as (Hfy & Hfx & a & a' & src & Ha & Ha' & Hs & Hp).
    split; [lia|]. split; [lia|]. by exists a, a', src.
  - intros l. by apply (box_locations_shift x1 y1 bbox_fields t st t1 st1).
  - intros key Hkey. destruct (Hread key Hkey) as (bs & Hb & Hb').
    exists bs. split; [done|]. unfold translated. by rewrite Hoff.
Qed.

(** *** The output record *)

Lemma new_canvas_inv pad_val h w c keys canvas canvas' :
  new_canvas pad_val h w c keys canvas = Ok canvas' ->
  canvas_dims canvas h w c -> canvas_dims canvas' h w c.
Proof.
  revert canvas. induction keys as [|key keys IH]; intros canvas; simpl.
  - by intros [= <-].
  - intros (a & Ha & Hrun)%bind_Ok Hdims. apply (IH _ Hrun).
    unfold full in Ha. destruct (_ || _); [done|]. injection Ha as <-.
    intros k a0. rewrite lookup_insert. case_decide; [|by apply Hdims].
    by intros [= <-].
Qed.

Lemma put_canvas_inv keys canvas out out' :
  put_canvas mask keys canvas out = Ok out' ->
  (forall k, k ∉ keys -> out' !! k = out !! k)
  /\ (forall key, key ∈ keys ->
        exists a, canvas !! key = Some a /\ out' !! key = Some (VImg mask a)).
Proof.
  revert out. induction keys as [|key keys IH]; intros out; simpl.
  - intros [= <-]. split; [done|]. by intros key []%not_elem_of_nil.
  - intros (a & Ha & Hrun)%bind_Ok.
    destruct (IH _ Hrun) as [Hframe Hkeys]. split.
    + intros k [Hne Hk]%not_elem_of_cons.
      rewrite Hframe by done. by rewrite lookup_insert_ne.
    + intros key0 Hin. destruct (decide (key0 ∈ keys)) as [Hin'|Hnotin].
      * by apply Hkeys.
      * apply elem_of_cons in Hin as [->|Hin]; [|done].
        unfold getitem in Ha. destruct (canvas !! key) as [a'|]; [|done].
        injection Ha as ->. exists a. split; [done|].
        rewrite Hframe by done. by rewrite lookup_insert_eq.
Qed.

Lemma put_bboxes_inv keys tiles st out out' :
  put_bboxes mask keys tiles st out = Ok out' ->
  (forall k, k ∉ keys -> out' !! k = out !! k)
  /\ (forall key, key ∈ keys ->
        exists arrays,
          for_each (read_boxes mask st key) tiles = Ok arrays
          /\ out' !! key = Some (VBoxes mask (concat arrays))).
Proof.
  revert out. induction keys as [|key keys IH]; intros out; simpl.
  - intros [= <-]. split; [done|]. by intros key []%not_elem_of_nil.
  - intros (arrays & Ha & Hrun)%bind_Ok.
    destruct (IH _ Hrun) as [Hframe Hkeys]. split.
    + intros k [Hne Hk]%not_elem_of_cons.
      rewrite Hframe by done. by rewrite lookup_insert_ne.
    + intros key0 Hin. destruct (decide (key0 ∈ keys)) as [Hin'|Hnotin].
      * by apply Hkeys.
      * apply elem_of_cons in Hin as [->|Hin]; [|done].
        exists arrays. split; [done|].
        rewrite Hframe by done. by rewrite lookup_insert_eq.
Qed.

End MosaicTiles.

(** *** The mosaic of four tiles *)

Section MosaicPipelineFacts.

Context {mask : Type}.
Variable batch_rand_others : Z -> nat -> list Z.
Variable prepare : Z -> gmap string (value mask).
Variable individual_pipeline :
  nat -> gmap string (value mask) -> gmap positive (list box) ->
  res (option (gmap string (value mask)) * gmap positive (list box)).
Variable pad_val : Z.

Implicit Type t out : gmap string (value mask).
Implicit Type st : gmap positive (list box).

Lemma read_boxes_not_img st key t a bs :
  t !! key = Some (VImg mask a) -> read_boxes mask st key t = Ok bs -> False.
Proof.
  intros Ha [Hb|(l & Hb & _)]%read_boxes_kind; rewrite Hb in Ha; done.
Qed.





End MosaicPipelineFacts.



(** * Further properties: common lemmas *)

From Stdlib Require Import Lqa.

Lemma for_each_lookup {A B : Type} (f : A -> res B) (l : list A)
  (bs : list B) (i : nat) (a : A) :
  for_each f l = Ok bs -> l !! i = Some a ->
  exists b, bs !! i = Some b /\ f a = Ok b.
Proof.
  revert bs i. induction l as [|a0 l IH]; intros bs i; simpl; [done|].
  intros (b0 & Hb0 & (bs' & Hbs' & [= <-])%bind_Ok)%bind_Ok.
  destruct i as [|i]; simpl.
  - intros [= <-]. eauto.
  - intros Hi. by apply (IH bs' i).
Qed.

Lemma for_each_Ok_inv {A B : Type} (f : A -> res B) (l : list A)
  (bs : list B) (i : nat) (b : B) :
  for_each f l = Ok bs -> bs !! i = Some b ->
  exists a, l !! i = Some a /\ f a = Ok b.
Proof.
  intros Hrun Hb. pose proof (for_each_Ok_length _ _ _ Hrun) as Hlen.
  destruct (l !! i) as [a|] eqn:Ha.
  - destruct (for_each_lookup _ _ _ _ _ Hrun Ha) as (b' & Hb' & Hf).
    exists a. split; [done|]. congruence.
  - apply lookup_ge_None in Ha. apply lookup_lt_Some in Hb. lia.
Qed.

Lemma for_each_total {A B : Type} (f : A -> res B) (l : list A) :
  (forall a, a ∈ l -> exists b, f a = Ok b) ->
  exists bs, for_each f l = Ok bs.
Proof.
  induction l as [|a l IH]; intros Hf; simpl; [eauto|].
  destruct (Hf a) as [b ->]; [left|].
  destruct IH as [bs ->]; [intros a' Ha'; apply Hf; by right|].
  simpl. eauto.
Qed.

Lemma Qltb_false (x y : Q) : Qltb x y = false <-> (y <= x)%Q.
Proof.
  unfold Qltb. rewrite negb_false_iff. apply Qle_bool_iff.
Qed.

(** A sample of [0, 1). *)
Lemma unit_draw_range (g : rng) (pos : nat) :
  (0 <= unit_draw g pos)%Q /\ (unit_draw g pos < 1)%Q.
Proof.
  unfold unit_draw.
  pose proof (Qfloor_le (g pos)) as Hle.
  pose proof (Qlt_floor (g pos)) as Hlt.
  rewrite inject_Z_plus in Hlt. change (inject_Z 1) with 1%Q in Hlt.
  split; lra.
Qed.

(** [np.random.randint(lo, hi)] lies in [lo, hi) when the interval is
    not empty. *)
Lemma randint_range (g : rng) (pos : nat) (lo hi : Z) :
  lo < hi -> lo <= randint g pos lo hi < hi.
Proof.
  intros Hlt. unfold randint.
  destruct (unit_draw_range g pos) as [H0 H1].
  set (u := unit_draw g pos) in *.
  assert (Hn : (0 < inject_Z (hi - lo))%Q).
  { change 0%Q with (inject_Z 0). rewrite <- Zlt_Qlt. lia. }
  assert (Hlo : 0 <= Qfloor (u * inject_Z (hi - lo))).
  { apply Qfloor_resp_le with (x := 0%Q). nra. }
  assert (Hhi : Qfloor (u * inject_Z (hi - lo)) < hi - lo).
  { rewrite Zlt_Qlt. eapply Qle_lt_trans; [apply Qfloor_le|]. nra. }
  lia.
Qed.

(** * Further properties

    ** inference.py: infer_labels *)

Section InferLabelsMore.

Variable dist_func : embedding -> embedding -> Q.

Lemma pred_labels_length (qry : qry_outputs) (ref : ref_outputs)
  (pl : list (list Z)) :
  pred_labels dist_func qry ref = Ok pl ->
  length pl = length (qry_embeddings qry).
Proof.
  unfold pred_labels. intros Hpl%for_each_Ok_length.
  by rewrite !length_map in Hpl.
Qed.

Lemma rank_step_inv (label_mapping : gmap Z Z) (ncols : nat)
  (pl : list (list Z)) (result result' : outputs) (k : Z) :
  rank_step label_mapping ncols pl result k = Ok result' ->
  bbox_ids result' = bbox_ids result
  /\ exists labs,
       labels_top result' = <[k := labs]> (labels_top result)
       /\ length labs = length pl.
Proof.
  unfold rank_step. destruct (decide (k = 1)) as [->|Hk].
  - intros (col & Hcol & [= <-])%bind_Ok. split; [done|].
    exists col. split; [done|]. unfold column_0 in Hcol.
    destruct (decide (ncols = 0%nat)); [done|].
    by apply for_each_Ok_length in Hcol.
  - intros (labs & Hlabs & [= <-])%bind_Ok. split; [done|].
    exists labs. split; [done|]. by apply for_each_Ok_length in Hlabs.
Qed.

Lemma rank_loop_inv (label_mapping : gmap Z Z) (ncols : nat)
  (pl : list (list Z)) (rank_list : list Z) (result result' : outputs) :
  rank_loop label_mapping ncols pl result rank_list = Ok result' ->
  bbox_ids result' = bbox_ids result
  /\ dom (labels_top result')
     = dom (labels_top result) ∪ list_to_set rank_list
  /\ forall k labs, labels_top result' !! k = Some labs ->
       length labs = length pl \/ labels_top result !! k = Some labs.
Proof.
  revert result. induction rank_list as [|k ks IH]; intros result; simpl.
  - intros [= <-]. split; [done|]. split; [set_solver|]. eauto.
  - intros (r1 & Hstep & Hloop)%bind_Ok.
    apply rank_step_inv in Hstep as (Hids & labs & Htop & Hlen).
    apply IH in Hloop as (Hids' & Hdom & Hlens).
    split; [congruence|]. split.
    + rewrite Hdom, Htop, dom_insert_L. set_solver.
    + intros k' labs' Hk'. destruct (Hlens k' labs' Hk') as [?|Hr1]; [by left|].
      rewrite Htop, lookup_insert in Hr1. case_decide.
      * injection Hr1 as <-. by left.
      * by right.
Qed.

(** What a call that returns leaves of the predicted label rows [pl]. *)
Lemma infer_labels_inv (qry : qry_outputs) (ref : ref_outputs)
  (label_mapping : gmap Z Z) (rank_list : list Z) (out : outputs) :
  infer_labels dist_func qry ref label_mapping rank_list = Ok out ->
  exists pl,
    pred_labels dist_func qry ref = Ok pl
    /\ bbox_ids out = qry_bbox_ids qry
    /\ dom (labels_top out) = list_to_set rank_list
    /\ forall k labs, labels_top out !! k = Some labs ->
         length labs = length pl.
Proof.
  unfold infer_labels. intros (pl & Hpl & Hloop)%bind_Ok.
  apply rank_loop_inv in Hloop as (Hids & Hdom & Hlens). simpl in *.
  exists pl. split; [done|]. split; [done|]. split; [set_solver|].
  intros k labs Hk. destruct (Hlens k labs Hk) as [Hlen|He]; [done|].
  by rewrite lookup_empty in He.
Qed.

(** inference.py, infer_labels.  When the function returns, the box ids
    are those of the query, the result has a label array for each rank
    of the rank list and for nothing else, and every label array has
    one label per query embedding. *)
Theorem infer_labels_shape (qry : qry_outputs) (ref : ref_outputs)
  (label_mapping : gmap Z Z) (rank_list : list Z) (out : outputs) :
  infer_labels dist_func qry ref label_mapping rank_list = Ok out ->
  bbox_ids out = qry_bbox_ids qry
  /\ dom (labels_top out) = list_to_set rank_list
  /\ forall k labs, labels_top out !! k = Some labs ->
       length labs = length (qry_embeddings qry).
Proof.
  intros (pl & Hpl & Hids & Hdom & Hlens)%infer_labels_inv.
  split; [done|]. split; [done|].
  intros k labs Hk. rewrite (Hlens k labs Hk). by eapply pred_labels_length.
Qed.

(** With no reference embedding the function raises [IndexError] as
    soon as there are a rank and a query: neither the first column nor
    a most common label exists. *)
Theorem infer_labels_no_reference (qry : qry_outputs) (ref : ref_outputs)
  (label_mapping : gmap Z Z) (rank_list : list Z) :
  ref_embeddings ref = [] ->
  rank_list <> [] ->
  qry_embeddings qry <> [] ->
  infer_labels dist_func qry ref label_mapping rank_list = Raise IndexError.
Proof.
  intros Href Hrank Hqry. unfold infer_labels, pred_labels. rewrite Href.
  destruct rank_list as [|k ks]; [done|].
  destruct (qry_embeddings qry) as [|q qs]; [done|]. simpl.
  assert (Hrows : for_each (for_each (index (ref_labels ref)))
                    (map argsort (map (fun _ : embedding => @nil Q) qs))
                  = Ok (map (fun _ => []) qs)).
  { clear. induction qs as [|q qs IH]; simpl; [done|]. by rewrite IH. }
  rewrite Hrows. simpl. unfold rank_step.
  destruct (decide (k = 1)) as [->|Hk]; [done|].
  assert (Hvote : vote_row label_mapping k [] = Raise IndexError).
  { unfold vote_row, slice_to. destruct (0 <=? k); rewrite take_nil; done. }
  unfold vote_labels. cbn [for_each]. by rewrite Hvote.
Qed.

End InferLabelsMore.

Lemma infer_labels_shape_witness :
  let qry := {| qry_embeddings := [[1 # 10; 1 # 10]; [9%Q; 9%Q]];
                qry_bbox_ids := [5; 6] |} in
  let ref := {| ref_embeddings := [[0%Q; 0%Q]; [10%Q; 10%Q]; [1%Q; 0%Q]];
                ref_labels := [1; 2; 1] |} in
  let out :=
    match infer_labels sq_euclidean qry ref {[ 1 := 10; 2 := 11 ]} [1; 3] with
    | Ok out => out
    | Raise _ => {| bbox_ids := []; labels_top := ∅ |}
    end in
  bbox_ids out = [5; 6]
  /\ dom (labels_top out) = list_to_set [1; 3]
  /\ forall k labs, labels_top out !! k = Some labs -> length labs = 2%nat.
Proof.
  intros qry ref out.
  apply (infer_labels_shape sq_euclidean qry ref {[ 1 := 10; 2 := 11 ]} [1; 3]).
  vm_compute. reflexivity.
Defined.

Lemma infer_labels_no_reference_witness :
  infer_labels sq_euclidean
    {| qry_embeddings := [[1 # 10; 1 # 10]]; qry_bbox_ids := [5] |}
    {| ref_embeddings := []; ref_labels := [] |} {[ 1 := 10 ]} [3]
  = Raise IndexError.
Proof.
  apply infer_labels_no_reference; [reflexivity | discriminate | discriminate].
Defined.

(** *** The nearest reference *)

Lemma insert_by_elem_of (kv x : Q * nat) (l : list (Q * nat)) :
  x ∈ insert_by kv l <-> x = kv \/ x ∈ l.
Proof.
  induction l as [|kv' l IH]; simpl.
  - rewrite list_elem_of_singleton. set_solver.
  - destruct (Qle_bool kv.1 kv'.1).
    + by rewrite elem_of_cons.
    + rewrite !elem_of_cons, IH. tauto.
Qed.

Lemma insert_by_head (kv : Q * nat) (l : list (Q * nat)) :
  (forall hd, head l = Some hd -> forall x, x ∈ l -> (hd.1 <= x.1)%Q) ->
  forall hd, head (insert_by kv l) = Some hd ->
  forall x, x ∈ insert_by kv l -> (hd.1 <= x.1)%Q.
Proof.
  intros Hl hd. destruct l as [|kv' l]; simpl.
  - intros [= <-] x ->%list_elem_of_singleton. apply Qle_refl.
  - destruct (Qle_bool kv.1 kv'.1) eqn:Hle; simpl; intros [= <-] x Hx.
    + apply Qle_bool_iff in Hle. apply elem_of_cons in Hx as [->|Hx].
      * apply Qle_refl.
      * apply Qle_trans with kv'.1; [done|]. by apply (Hl kv').
    + assert (Hlt : (kv'.1 < kv.1)%Q).
      { apply Qnot_le_lt. rewrite <- Qle_bool_iff. by rewrite Hle. }
      apply elem_of_cons in Hx as [->|Hx].
      * apply Qle_refl.
      * apply insert_by_elem_of in Hx as [->|Hx]; [by apply Qlt_le_weak|].
        apply (Hl kv'); [done|by right].
Qed.

Lemma sorted_head (l : list (Q * nat)) :
  let s := foldr insert_by [] l in
  (forall x, x ∈ s <-> x ∈ l)
  /\ forall hd, head s = Some hd -> forall x, x ∈ s -> (hd.1 <= x.1)%Q.
Proof.
  induction l as [|kv l [IHe IHh]]; simpl.
  - split; [done|]. by intros hd [=].
  - split.
    + intros x. rewrite insert_by_elem_of, elem_of_cons, IHe. done.
    + by apply insert_by_head.
Qed.

(** The first index of [np.argsort] is the index of a smallest entry. *)
Lemma argsort_head (row : list Q) (j : nat) :
  head (argsort row) = Some j ->
  exists d, row !! j = Some d /\ forall d', d' ∈ row -> (d <= d')%Q.
Proof.
  unfold argsort.
  destruct (sorted_head (zip row (seq 0 (length row)))) as [He Hh].
  destruct (foldr insert_by [] (zip row (seq 0 (length row))))
    as [|[d j'] s] eqn:Hs; simpl; [done|].
  intros [= <-]. exists d.
  assert (Hin : (d, j') ∈ zip row (seq 0 (length row)))
    by (apply He; left).
  apply list_elem_of_lookup in Hin as [i Hi].
  apply lookup_zip_with_Some in Hi as (d0 & j0 & [= <- <-] & Hd & Hj).
  apply lookup_seq in Hj as [-> _]. simpl. split; [done|].
  intros d' [i' Hi']%list_elem_of_lookup.
  assert (Hin' : (d', i') ∈ zip row (seq 0 (length row))).
  { apply list_elem_of_lookup. exists i'. apply lookup_zip_with_Some.
    exists d', i'. split; [done|]. split; [done|].
    apply lookup_seq. split; [done|]. by eapply lookup_lt_Some. }
  apply He in Hin'. apply (Hh (d, i) eq_refl) in Hin'. done.
Qed.

Section InferLabelsNearest.

Variable dist_func : embedding -> embedding -> Q.

Lemma rank_loop_top_1 (label_mapping : gmap Z Z) (ncols : nat)
  (pl : list (list Z)) (rank_list : list Z) (result result' : outputs) :
  rank_loop label_mapping ncols pl result rank_list = Ok result' ->
  1 ∈ rank_list \/ (exists col, labels_top result !! 1 = Some col
                                /\ column_0 ncols pl = Ok col) ->
  exists col, labels_top result' !! 1 = Some col
              /\ column_0 ncols pl = Ok col.
Proof.
  revert result. induction rank_list as [|k ks IH]; intros result; simpl.
  - intros [= <-] [[]%not_elem_of_nil|Hcol]. done.
  - intros (r1 & Hstep & Hloop)%bind_Ok Hk. apply (IH _ Hloop).
    unfold rank_step in Hstep. destruct (decide (k = 1)) as [->|Hne].
    + apply bind_Ok in Hstep as (col & Hcol & [= <-]). right.
      exists col. simpl. by rewrite lookup_insert_eq.
    + destruct Hk as [[?|Hk]%elem_of_cons|(col & Hcol & Hc0)];
        [done|by left|].
      apply bind_Ok in Hstep as (labs & _ & [= <-]). right.
      exists col. simpl. by rewrite lookup_insert_ne.
Qed.

(** inference.py, infer_labels, rank 1.  The label stored for a query
    is the label of a reference embedding that is at least as close to
    the query embedding as every reference embedding. *)
Theorem infer_labels_top_1_nearest (qry : qry_outputs) (ref : ref_outputs)
  (label_mapping : gmap Z Z) (rank_list : list Z) (out : outputs)
  (labs : list Z) (i : nat) (q : embedding) (lab : Z) :
  infer_labels dist_func qry ref label_mapping rank_list = Ok out ->
  1 ∈ rank_list ->
  labels_top out !! 1 = Some labs ->
  qry_embeddings qry !! i = Some q ->
  labs !! i = Some lab ->
  exists j r,
    ref_embeddings ref !! j = Some r
    /\ ref_labels ref !! j = Some lab
    /\ forall r', r' ∈ ref_embeddings ref ->
         (dist_func q r <= dist_func q r')%Q.
Proof.
  unfold infer_labels. intros (pl & Hpl & Hloop)%bind_Ok H1 Hlabs Hq Hlab.
  destruct (rank_loop_top_1 _ _ _ _ _ _ Hloop (or_introl H1))
    as (col & Hcol & Hc0).
  rewrite Hcol in Hlabs. injection Hlabs as ->.
  unfold column_0 in Hc0. destruct (decide _); [done|].
  destruct (for_each_Ok_inv _ _ _ _ _ Hc0 Hlab) as (row & Hrow & Hidx).
  unfold pred_labels in Hpl.
  destruct (for_each_Ok_inv _ _ _ _ _ Hpl Hrow) as (inds & Hinds & Hrow').
  rewrite !list_lookup_fmap, Hq in Hinds. simpl in Hinds.
  injection Hinds as <-.
  unfold index in Hidx. destruct (row !! 0%nat) as [lab'|] eqn:Hr0; [|done].
  injection Hidx as ->.
  destruct (for_each_Ok_inv _ _ _ _ _ Hrow' Hr0) as (j & Hj & Hlj).
  unfold index in Hlj. destruct (ref_labels ref !! j) as [lj|] eqn:Hl; [|done].
  injection Hlj as ->.
  destruct (argsort_head (map (dist_func q) (ref_embeddings ref)) j)
    as (d & Hd & Hmin).
  { by rewrite <- head_lookup in Hj. }
  rewrite list_lookup_fmap in Hd.
  destruct (ref_embeddings ref !! j) as [r|] eqn:Hr; [|done].
  injection Hd as <-. exists j, r. split; [done|]. split; [done|].
  intros r' Hr'. apply Hmin. apply list_elem_of_fmap. eauto.
Qed.

End InferLabelsNearest.

Lemma infer_labels_top_1_nearest_witness :
  let qry := {| qry_embeddings := [[1 # 10; 1 # 10]]; qry_bbox_ids := [5] |} in
  let ref := {| ref_embeddings := [[0%Q; 0%Q]; [10%Q; 10%Q]];
                ref_labels := [1; 2] |} in
  exists j r,
    ref_embeddings ref !! j = Some r
    /\ ref_labels ref !! j = Some 1
    /\ forall r', r' ∈ ref_embeddings ref ->
         (sq_euclidean [1 # 10; 1 # 10] r <= sq_euclidean [1 # 10; 1 # 10] r')%Q.
Proof.
  intros qry ref.
  apply (infer_labels_top_1_nearest sq_euclidean qry ref {[ 1 := 10 ]} [1]
           {| bbox_ids := [5]; labels_top := {[ 1 := [1] ]} |} [1] 0).
  - vm_compute. reflexivity.
  - left.
  - reflexivity.
  - reflexivity.
  - reflexivity.
Defined.

(** *** The majority vote *)

Lemma count_app (x : Z) (l1 l2 : list Z) :
  count x (l1 ++ l2) = (count x l1 + count x l2)%nat.
Proof. unfold count. by rewrite filter_app, length_app. Qed.

Lemma count_singleton (x y : Z) :
  count x [y] = if decide (y = x) then 1%nat else 0%nat.
Proof.
  unfold count. rewrite filter_cons, filter_nil. by destruct (decide (y = x)).
Qed.

Lemma count_not_elem_of (x : Z) (l : list Z) : x ∉ l -> count x l = 0%nat.
Proof.
  intros Hx. unfold count.
  destruct (filter (fun y => y = x) l) as [|y f] eqn:Hf; [done|].
  assert (Hy : y ∈ filter (fun y => y = x) l) by (rewrite Hf; left).
  apply list_elem_of_filter in Hy as [-> Hy]. done.
Qed.

(** [Counter] adds one to the entry of a key it has, at its place, and
    appends an entry for a key it does not have. *)
Lemma counter_add_spec (x : Z) (c : list (Z * nat)) :
  (exists p n, c !! p = Some (x, n)
               /\ counter_add x c = <[p := (x, S n)]> c)
  \/ ((forall p n, c !! p <> Some (x, n))
      /\ counter_add x c = c ++ [(x, 1%nat)]).
Proof.
  induction c as [|[y n] c IH]; simpl.
  - right. split; [|done]. intros p n. by rewrite lookup_nil.
  - destruct (decide (x = y)) as [->|Hne].
    + left. by exists 0%nat, n.
    + destruct IH as [(p & m & Hp & ->)|[Hno ->]].
      * left. by exists (S p), m.
      * right. split; [|done]. intros [|p] m; simpl; [congruence|apply Hno].
Qed.

Lemma Counter_snoc (l : list Z) (x : Z) :
  Counter (l ++ [x]) = counter_add x (Counter l).
Proof. unfold Counter. by rewrite foldl_snoc. Qed.

Lemma Counter_counted (l : list Z) : counted l (Counter l).
Proof.
  induction l as [|x l IH] using rev_ind.
  - change (Counter []) with (@nil (Z * nat)). split.
    + intros i y n. by rewrite lookup_nil.
    + by intros y []%not_elem_of_nil.
    + intros i j y n m. by rewrite lookup_nil.
    + intros i y n. by rewrite lookup_nil.
  - rewrite Counter_snoc. destruct IH as [Hcount Hall Honce Horder].
    destruct (counter_add_spec x (Counter l))
      as [(p & n & Hp & ->)|[Hno ->]].
    + (* [x] was counted before *)
      assert (Hlt : (p < length (Counter l))%nat)
        by (by eapply lookup_lt_Some).
      split.
      * intros i y m. destruct (decide (i = p)) as [->|Hne].
        -- rewrite list_lookup_insert_eq by done. intros [= <- <-].
           rewrite count_app, count_singleton, decide_True by done.
           rewrite <- (Hcount _ _ _ Hp). lia.
        -- rewrite list_lookup_insert_ne by done. intros Hi.
           rewrite count_app, count_singleton, decide_False.
           ++ rewrite <- (Hcount _ _ _ Hi). lia.
           ++ intros ->. apply Hne. by eapply Honce.
      * intros y [Hy|Hy%list_elem_of_singleton]%elem_of_app; [|subst y].
        -- destruct (Hall y Hy) as (i & m & Hi).
           destruct (decide (i = p)) as [->|Hne].
           ++ exists p, (S n). rewrite list_lookup_insert_eq by done.
              rewrite Hp in Hi. by injection Hi as <- _.
           ++ exists i, m. by rewrite list_lookup_insert_ne.
        -- exists p, (S n). by rewrite list_lookup_insert_eq.
      * assert (Hkey : forall i y m,
                  <[p := (x, S n)]> (Counter l) !! i = Some (y, m) ->
                  exists m', Counter l !! i = Some (y, m')).
        { intros i y m. destruct (decide (i = p)) as [->|Hne].
          - rewrite list_lookup_insert_eq by done. intros [= <- <-]. eauto.
          - rewrite list_lookup_insert_ne by done. eauto. }
        intros i j y m m' [? Hi]%Hkey [? Hj]%Hkey. by eapply Honce.
      * assert (Hkey : forall i y m,
                  <[p := (x, S n)]> (Counter l) !! i = Some (y, m) ->
                  exists m', Counter l !! i = Some (y, m')).
        { intros i y m. destruct (decide (i = p)) as [->|Hne].
          - rewrite list_lookup_insert_eq by done. intros [= <- <-]. eauto.
          - rewrite list_lookup_insert_ne by done. eauto. }
        intros i y m [m' Hi]%Hkey.
        destruct (Horder _ _ _ Hi) as (pre & post & -> & Hpre & Hbefore).
        exists pre, (post ++ [x]). split; [by rewrite <- app_assoc|].
        split; [done|]. intros z Hz.
        destruct (Hbefore z Hz) as (j & mz & Hj & Hjz).
        destruct (decide (j = p)) as [->|Hne].
        -- exists p, (S n). split; [done|].
           rewrite list_lookup_insert_eq by done.
           rewrite Hp in Hjz. by injection Hjz as <- _.
        -- exists j, mz. by rewrite list_lookup_insert_ne.
    + (* [x] is new *)
      assert (Hx : x ∉ l).
      { intros Hx. destruct (Hall x Hx) as (i & n & Hi). by apply (Hno i n). }
      split.
      * intros i y m Hi. rewrite count_app, count_singleton.
        apply lookup_app_Some in Hi as [Hi|[Hlen Hi]].
        -- rewrite decide_False; [rewrite <- (Hcount _ _ _ Hi); lia|].
           intros ->. by apply (Hno i m).
        -- apply list_lookup_singleton_Some in Hi as [_ [= <- <-]].
           rewrite decide_True, count_not_elem_of by done. done.
      * intros y [Hy|Hy%list_elem_of_singleton]%elem_of_app; [|subst y].
        -- destruct (Hall y Hy) as (i & m & Hi). exists i, m.
           by apply lookup_app_l_Some.
        -- exists (length (Counter l)), 1%nat.
           rewrite lookup_app_r by done. by rewrite Nat.sub_diag.
      * intros i j y m m' Hi Hj.
        apply lookup_app_Some in Hi as [Hi|[Hleni Hi]];
          apply lookup_app_Some in Hj as [Hj|[Hlenj Hj]].
        -- by eapply Honce.
        -- apply list_lookup_singleton_Some in Hj as [_ [= <- <-]].
           by apply Hno in Hi.
        -- apply list_lookup_singleton_Some in Hi as [_ [= <- <-]].
           by apply Hno in Hj.
        -- apply list_lookup_singleton_Some in Hi as [Hi _].
           apply list_lookup_singleton_Some in Hj as [Hj _]. lia.
      * intros i y m Hi.
        apply lookup_app_Some in Hi as [Hi|[Hlen Hi]].
        -- destruct (Horder _ _ _ Hi) as (pre & post & -> & Hpre & Hbefore).
           exists pre, (post ++ [x]). split; [by rewrite <- app_assoc|].
           split; [done|]. intros z Hz.
           destruct (Hbefore z Hz) as (j & mz & Hj & Hjz).
           exists j, mz. split; [done|]. by apply lookup_app_l_Some.
        -- apply list_lookup_singleton_Some in Hi as [Hi [= <- <-]].
           exists l, []. split; [done|]. split; [done|].
           intros z Hz. destruct (Hall z Hz) as (j & mz & Hjz).
           exists j, mz. split; [|by apply lookup_app_l_Some].
           apply lookup_lt_Some in Hjz. lia.
Qed.

Lemma max_by_count_spec (seen rest : list (Z * nat)) (best : Z * nat)
  (p : nat) :
  first_max seen p best ->
  exists p', first_max (seen ++ rest) p' (max_by_count best rest).
Proof.
  revert seen best p. induction rest as [|kv rest IH]; intros seen best p.
  - rewrite app_nil_r. simpl. eauto.
  - intros (Hp & Hbefore & Hall). simpl.
    replace (seen ++ kv :: rest) with ((seen ++ [kv]) ++ rest)
      by (by rewrite <- app_assoc).
    destruct (Nat.ltb_spec best.2 kv.2) as [Hlt|Hge].
    + apply (IH _ _ (length seen)). split; [|split].
      * rewrite lookup_app_r by done. by rewrite Nat.sub_diag.
      * intros j kv' Hj Hkv'. rewrite lookup_app_l in Hkv' by done.
        specialize (Hall _ _ Hkv'). lia.
      * intros j kv' [Hkv'|[_ Hkv']]%lookup_app_Some.
        -- specialize (Hall _ _ Hkv'). lia.
        -- apply list_lookup_singleton_Some in Hkv' as [_ <-]. done.
    + apply (IH _ _ p). split; [|split].
      * by apply lookup_app_l_Some.
      * intros j kv' Hj Hkv'. apply (Hbefore j); [done|].
        apply lookup_lt_Some in Hp. by rewrite lookup_app_l in Hkv' by lia.
      * intros j kv' [Hkv'|[_ Hkv']]%lookup_app_Some.
        -- by eapply Hall.
        -- apply list_lookup_singleton_Some in Hkv' as [_ <-]. done.
Qed.

Lemma most_common_1_spec (c : list (Z * nat)) :
  match most_common_1 c with
  | [] => c = []
  | best :: _ => exists p, first_max c p best
  end.
Proof.
  destruct c as [|kv c]; simpl; [done|].
  apply (max_by_count_spec [kv] c kv 0). split; [done|]. split.
  - intros j kv' Hj. lia.
  - intros [|j] kv'; simpl; [by intros [= <-]|by rewrite lookup_nil].
Qed.

(** inference.py, infer_labels, the vote among the [k] nearest labels
    of one query.  The vote returns the mapped label of the label that
    occurs most often among them, the one met first when several occur
    as often; with no label to vote on it raises [IndexError], and
    [KeyError] when the winner is not a key of the mapping. *)
Theorem vote_row_majority (label_mapping : gmap Z Z) (k : Z) (row : list Z) :
  match vote_row label_mapping k row with
  | Ok v =>
      exists l, majority_of (slice_to k row) l /\ label_mapping !! l = Some v
  | Raise e =>
      (slice_to k row = [] /\ e = IndexError)
      \/ (exists l, majority_of (slice_to k row) l
                    /\ label_mapping !! l = None /\ e = KeyError)
  end.
Proof.
  unfold vote_row. set (top := slice_to k row).
  pose proof (Counter_counted top) as [Hcount Hall Honce Horder].
  pose proof (most_common_1_spec (Counter top)) as Hmax.
  destruct (most_common_1 (Counter top)) as [|[l n] rest] eqn:Hmc.
  - simpl. left. split; [|done].
    destruct top as [|x top']; [done|].
    destruct (Hall x) as (i & m & Hi); [left|].
    rewrite Hmax in Hi. by rewrite lookup_nil in Hi.
  - destruct Hmax as (p & Hp & Hbefore & Hmost). simpl in *.
    assert (Hmaj : majority_of top l).
    { destruct (Horder _ _ _ Hp) as (pre & post & Htop & Hpre & Hseen).
      exists pre, post. split; [done|]. split; [done|].
      rewrite <- (Hcount _ _ _ Hp). split.
      - intros l' Hl'. destruct (Hseen l' Hl') as (j & m & Hj & Hjm).
        rewrite <- (Hcount _ _ _ Hjm). by apply (Hbefore j (l', m)).
      - intros l'. destruct (decide (l' ∈ top)) as [Hin|Hnotin].
        + destruct (Hall l' Hin) as (j & m & Hjm).
          rewrite <- (Hcount _ _ _ Hjm). by apply (Hmost j (l', m)).
        + rewrite count_not_elem_of by done. lia. }
    unfold getitem. destruct (label_mapping !! l) as [v|] eqn:Hl.
    + exists l. done.
    + right. exists l. done.
Qed.

(** ** inference.py: save_submit_json, the map from box ids to labels *)

Lemma build_pred_dict_inv (pred_dict d : gmap Z Z) (i : nat)
  (ids labels : list Z) :
  build_pred_dict pred_dict i ids labels = Ok d ->
  (forall j, (j < length ids)%nat -> (i + j < length labels)%nat)
  /\ forall x l,
       d !! x = Some l <->
       (exists j, ids !! j = Some x /\ labels !! (i + j)%nat = Some l
                  /\ forall j', (j < j')%nat -> ids !! j' <> Some x)
       \/ ((x ∉ ids) /\ pred_dict !! x = Some l).
Proof.
  revert pred_dict i. induction ids as [|id ids IH]; intros pred_dict i; simpl.
  - intros [= <-]. split; [intros j; lia|]. intros x l. split.
    + intros Hx. right. split; [apply not_elem_of_nil|done].
    + intros [(j & Hj & _)|[_ Hx]]; [by rewrite lookup_nil in Hj|done].
  - intros (label & Hlabel & Hrun)%bind_Ok.
    unfold index in Hlabel.
    destruct (labels !! i) as [label'|] eqn:Hi; [|done]. injection Hlabel as ->.
    destruct (IH _ _ Hrun) as [Hlen Hd]. split.
    + intros [|j] Hj.
      * apply lookup_lt_Some in Hi. lia.
      * specialize (Hlen j). lia.
    + intros x l. rewrite Hd. split.
      * intros [(j & Hj & Hl & Hlast)|[Hnotin Hx]].
        -- left. exists (S j). simpl.
           replace (i + S j)%nat with (S i + j)%nat by lia.
           split; [done|]. split; [done|].
           intros [|j'] Hj'; [lia|]. simpl. apply Hlast. lia.
        -- rewrite lookup_insert in Hx. case_decide as Heq.
           ++ subst x. injection Hx as <-. left. exists 0%nat. simpl.
              rewrite Nat.add_0_r. split; [done|]. split; [done|].
              intros [|j'] Hj'; [lia|]. simpl. intros Hin.
              apply Hnotin. by eapply list_elem_of_lookup_2.
           ++ right. split; [|done]. by apply not_elem_of_cons.
      * intros [(j & Hj & Hl & Hlast)|[[Hne Hnotin]%not_elem_of_cons Hx]].
        -- destruct j as [|j]; simpl in *.
           ++ injection Hj as ->. rewrite Nat.add_0_r in Hl. right. split.
              ** intros [j' Hj']%list_elem_of_lookup.
                 apply (Hlast (S j')); [lia|done].
              ** rewrite lookup_insert_eq. congruence.
           ++ left. exists j.
              replace (S (i + j)) with (i + S j)%nat by lia. split; [done|].
              split; [done|]. intros j' Hj'. apply (Hlast (S j')). lia.
        -- right. split; [done|]. by rewrite lookup_insert_ne.
Qed.

Lemma build_pred_dict_total (pred_dict : gmap Z Z) (i : nat)
  (ids labels : list Z) :
  (i + length ids <= length labels)%nat ->
  exists d, build_pred_dict pred_dict i ids labels = Ok d.
Proof.
  revert pred_dict i. induction ids as [|id ids IH]; intros pred_dict i; simpl.
  - eauto.
  - intros Hlen. unfold index.
    destruct (lookup_lt_is_Some_2 labels i) as [label ->]; [lia|]. simpl.
    apply IH. lia.
Qed.

(** inference.py, save_submit_json, lines 270-274.  The map from box
    ids to labels is built exactly when the outputs have the label
    array of the rank and it has a label for every box id; it then maps
    each box id to the label at the last position of the id, and
    nothing else. *)
Theorem pred_dict_of_last_wins (out : outputs) (top_k : Z) (d : gmap Z Z) :
  pred_dict_of out top_k = Ok d <->
  exists labels,
    labels_top out !! top_k = Some labels
    /\ (length (bbox_ids out) <= length labels)%nat
    /\ forall x l,
         d !! x = Some l <->
         exists j, bbox_ids out !! j = Some x /\ labels !! j = Some l
                   /\ forall j', (j < j')%nat -> bbox_ids out !! j' <> Some x.
Proof.
  unfold pred_dict_of, getitem. split.
  - destruct (labels_top out !! top_k) as [labels|]; [|done]. simpl.
    intros [Hlen Hd]%build_pred_dict_inv. exists labels. split; [done|].
    split.
    + destruct (bbox_ids out) as [|id ids]; simpl; [lia|].
      specialize (Hlen (length ids)). simpl in Hlen. lia.
    + intros x l. rewrite Hd. split.
      * intros [?|[_ He]]; [done|by rewrite lookup_empty in He].
      * by left.
  - intros (labels & -> & Hlen & Hd). simpl.
    destruct (build_pred_dict_total ∅ 0 (bbox_ids out) labels) as [d' Hd'];
      [simpl; lia|].
    rewrite Hd'. f_equal. apply map_eq. intros x.
    apply build_pred_dict_inv in Hd' as [_ Hd'].
    apply option_eq. intros l. rewrite Hd, Hd'. split.
    + intros [?|[_ He]]; [done|by rewrite lookup_empty in He].
    + by left.
Qed.

(** ** inference.py: run_emb_task *)

Section RunEmbTaskFacts.

Variable dist_func : embedding -> embedding -> Q.

(** inference.py, run_emb_task.  The fusion reads the labels of rank 1
    whatever [top_k_list] is: when 1 is not in the list the task never
    completes and writes nothing; if the labels could be inferred, it
    ends with [KeyError]. *)
Theorem run_emb_task_needs_rank_1 (outputs_qry : qry_outputs)
  (outputs_ref : ref_outputs) (det_json_path out_json_path : string)
  (label_mapping : gmap Z Z) (score_thr : Q) (top_k_list : list Z)
  (fs : filesystem) :
  1 ∉ top_k_list ->
  exists e,
    run_emb_task dist_func outputs_qry outputs_ref det_json_path
      out_json_path label_mapping score_thr top_k_list fs = (Raise e, fs)
    /\ (infer_labels dist_func outputs_qry outputs_ref label_mapping
          top_k_list = Raise e
        \/ e = KeyError).
Proof.
  intros H1. unfold run_emb_task.
  destruct (infer_labels _ _ _ _ _) as [out|e] eqn:Hinfer.
  - exists KeyError. split; [|by right].
    apply infer_labels_inv in Hinfer as (pl & _ & _ & Hdom & _).
    assert (Hnone : labels_top out !! 1 = None).
    { apply not_elem_of_dom. rewrite Hdom. set_solver. }
    unfold save_submit_json, pred_dict_of, getitem. by rewrite Hnone.
  - exists e. split; [done|by left].
Qed.

(** inference.py, run_emb_task.  When the labels are inferred for a
    rank list with rank 1, the query has a box id for each embedding,
    and every annotation of the detection file carries one of these box
    ids, the task completes: it writes the annotations with score at
    least the threshold, each with the label stored for its id. *)
Theorem run_emb_task_completes (outputs_qry : qry_outputs)
  (outputs_ref : ref_outputs) (det_json_path out_json_path : string)
  (label_mapping : gmap Z Z) (score_thr : Q) (top_k_list : list Z)
  (fs : filesystem) (out : outputs) (data_ori : det_json) :
  infer_labels dist_func outputs_qry outputs_ref label_mapping top_k_list
  = Ok out ->
  1 ∈ top_k_list ->
  length (qry_bbox_ids outputs_qry) = length (qry_embeddings outputs_qry) ->
  fs !! det_json_path = Some data_ori ->
  (forall ann, ann ∈ annotations data_ori ->
     ann_id ann ∈ qry_bbox_ids outputs_qry) ->
  exists pred_dict ann_new,
    pred_dict_of out 1 = Ok pred_dict
    /\ run_emb_task dist_func outputs_qry outputs_ref det_json_path
         out_json_path label_mapping score_thr top_k_list fs
       = (Ok tt,
          <[out_json_path :=
             {| images := images data_ori; annotations := ann_new |}]> fs)
    /\ Forall2 (relabelled pred_dict)
         (List.filter (score_at_least score_thr) (annotations data_ori))
         ann_new.
Proof.
  intros Hinfer H1 Hlen Hfs Hcov. unfold run_emb_task. rewrite Hinfer.
  destruct (infer_labels_inv _ _ _ _ _ _ Hinfer)
    as (pl & Hpl & Hids & Hdom & Hlens').
  assert (Hlens : forall k labs, labels_top out !! k = Some labs ->
                    length labs = length (qry_embeddings outputs_qry)).
  { intros k labs Hk. rewrite (Hlens' k labs Hk).
    by eapply pred_labels_length. }
  assert (Hin : 1 ∈ dom (labels_top out)) by (rewrite Hdom; set_solver).
  apply elem_of_dom in Hin as [labels Hlabels].
  pose proof (Hlens _ _ Hlabels) as Hll.
  destruct (build_pred_dict_total ∅ 0 (bbox_ids out) labels) as [d Hd].
  { simpl. rewrite Hids. lia. }
  assert (Hpd : pred_dict_of out 1 = Ok d).
  { unfold pred_dict_of, getitem. by rewrite Hlabels. }
  assert (Hall : Forall (fun ann => is_Some (d !! ann_id ann))
                   (annotations data_ori)).
  { apply Forall_forall. intros ann Hann.
    apply Hcov in Hann. rewrite <- Hids in Hann.
    apply build_pred_dict_inv in Hd as [Hlt Hd].
    (* the last position of the id *)
    assert (Hlast : exists j, bbox_ids out !! j = Some (ann_id ann)
              /\ forall j', (j < j')%nat ->
                   bbox_ids out !! j' <> Some (ann_id ann)).
    { clear -Hann. induction (bbox_ids out) as [|id ids IH].
      - by apply not_elem_of_nil in Hann.
      - destruct (decide (ann_id ann ∈ ids)) as [Hin|Hnotin].
        + destruct (IH Hin) as (j & Hj & Hlast). exists (S j).
          split; [done|]. intros [|j'] Hj'; [lia|]. apply Hlast. lia.
        + apply elem_of_cons in Hann as [Heq|?]; [|done].
          exists 0%nat. split; [by rewrite Heq|].
          intros [|j'] Hj'; [lia|]. simpl. intros Hin.
          apply Hnotin. by eapply list_elem_of_lookup_2. }
    destruct Hlast as (j & Hj & Hlast).
    destruct (lookup_lt_is_Some_2 labels j) as [l Hl].
    { apply lookup_lt_Some in Hj. specialize (Hlt j Hj). lia. }
    exists l. apply Hd. left. exists j. done. }
  destruct (fuse_covered d score_thr _ [] Hall) as (kept & Hfuse & HF).
  exists d, kept. split; [done|]. split; [|done].
  unfold save_submit_json. by rewrite Hpd, Hfs, Hfuse.
Qed.

End RunEmbTaskFacts.

Lemma run_emb_task_needs_rank_1_witness :
  let qry := {| qry_embeddings := [[1 # 10; 1 # 10]]; qry_bbox_ids := [5] |} in
  let ref := {| ref_embeddings := [[0%Q; 0%Q]; [10%Q; 10%Q]];
                ref_labels := [1; 2] |} in
  let fs : filesystem := {[ "det.json" := {| images := []; annotations := [] |} ]} in
  exists e,
    run_emb_task sq_euclidean qry ref "det.json" "out.json"
      {[ 1 := 10; 2 := 11 ]} (1 # 10) [3] fs = (Raise e, fs)
    /\ (infer_labels sq_euclidean qry ref {[ 1 := 10; 2 := 11 ]} [3] = Raise e
        \/ e = KeyError).
Proof.
  intros qry ref fs.
  apply (run_emb_task_needs_rank_1 sq_euclidean qry ref "det.json" "out.json"
           {[ 1 := 10; 2 := 11 ]} (1 # 10) [3] fs).
  intros [=]%list_elem_of_singleton.
Defined.

Lemma run_emb_task_completes_witness :
  let qry := {| qry_embeddings := [[1 # 10; 1 # 10]; [9%Q; 9%Q]];
                qry_bbox_ids := [5; 6] |} in
  let ref := {| ref_embeddings := [[0%Q; 0%Q]; [10%Q; 10%Q]];
                ref_labels := [1; 2] |} in
  let kept := {| ann_image_id := 0; ann_id := 6; ann_bbox := [1; 2; 3; 4];
                 ann_category_id := 0; ann_score := 8 # 10 |} in
  let low := {| ann_image_id := 0; ann_id := 5; ann_bbox := [4; 4; 2; 2];
                ann_category_id := 0; ann_score := 1 # 100 |} in
  let data_ori :=
    {| images := [ {| file_name := "a.jpg"; img_id := 0 |} ];
       annotations := [low; kept] |} in
  let fs : filesystem := {[ "det.json" := data_ori ]} in
  exists pred_dict ann_new,
    pred_dict_of {| bbox_ids := [5; 6]; labels_top := {[ 1 := [1; 2] ]} |} 1
    = Ok pred_dict
    /\ run_emb_task sq_euclidean qry ref "det.json" "out.json"
         {[ 1 := 10; 2 := 11 ]} (1 # 10) [1] fs
       = (Ok tt,
          <["out.json" :=
             {| images := images data_ori; annotations := ann_new |}]> fs)
    /\ Forall2 (relabelled pred_dict) [kept] ann_new
    /\ ann_category_id <$> ann_new = [2]
    /\ ann_id <$> ann_new = [6].
Proof.
  intros qry ref kept low data_ori fs.
  destruct (run_emb_task_completes sq_euclidean qry ref "det.json" "out.json"
              {[ 1 := 10; 2 := 11 ]} (1 # 10) [1] fs
              {| bbox_ids := [5; 6]; labels_top := {[ 1 := [1; 2] ]} |}
              data_ori)
    as (pred_dict & ann_new & Hpd & Hrun & HF).
  - vm_compute. reflexivity.
  - left.
  - reflexivity.
  - reflexivity.
  - intros ann [->|Ha%list_elem_of_singleton]%elem_of_cons;
      [left | subst ann; right; left].
  - exists pred_dict, ann_new. split; [exact Hpd|]. split; [exact Hrun|].
    change (List.filter (score_at_least (1 # 10)) (annotations data_ori))
      with [kept] in HF.
    split; [exact HF|].
    assert (Hd : pred_dict = {[ 5 := 1; 6 := 2 ]}).
    { vm_compute in Hpd. by injection Hpd as <-. }
    subst pred_dict.
    inversion HF as [|? a1 ? l1 (H1 & _ & Hi1 & _) HF1]; subst.
    inversion HF1; subst. simpl.
    injection H1 as <-. rewrite Hi1. split; reflexivity.
Defined.

(** ** inference.py: save_det_json *)

Lemma make_anno_info_inv (img_id bbox_id : Z) (t : dtype) (row : list Q)
    (a : anno_info) :
  make_anno_info img_id bbox_id t row = Ok a ->
  anno_image_id a = img_id /\ anno_id a = bbox_id /\ (6 <= length row)%nat
  /\ sc_dtype (anno_category_id a) = t /\ sc_dtype (anno_score a) = t.
Proof.
  unfold make_anno_info.
  intros (x1 & _ & (y1 & _ & (x2 & _ & (y2 & _ & (c & Hc & (s & _ & [= <-])
    %bind_Ok)%bind_Ok)%bind_Ok)%bind_Ok)%bind_Ok)%bind_Ok.
  simpl. split; [done|]. split; [done|]. split; [|done].
  unfold index in Hc. destruct (row !! 5%nat) eqn:H5; [|done].
  apply lookup_lt_Some in H5. lia.
Qed.



Lemma rows_loop_inv (img_id bbox_id : Z) (t : dtype) (rows : list (list Q))
  (annotations annotations' : list anno_info) (bbox_id' : Z) :
  rows_loop img_id bbox_id t rows annotations = Ok (annotations', bbox_id') ->
  bbox_id' = bbox_id + Z.of_nat (length rows)
  /\ exists new,
       annotations' = annotations ++ new
       /\ anno_id <$> new = seqZ bbox_id (Z.of_nat (length rows))
       /\ anno_image_id <$> new = replicate (length rows) img_id
       /\ Forall (fun row => (6 <= length row)%nat) rows
       /\ forallb serializable new
          = forallb (fun _ => json_float {| sc_dtype := t; sc_value := 0 |})
              rows.
Proof.
  revert bbox_id annotations.
  induction rows as [|row rows IH]; intros bbox_id annotations; simpl.
  - intros [= <- <-]. split; [lia|]. exists []. rewrite app_nil_r. done.
  - intros (a & Ha & Hrun)%bind_Ok.
    apply make_anno_info_inv in Ha as (Himg & Hid & Hlen & Hc & Hs).
    apply IH in Hrun as (-> & new & -> & Hids & Himgs & Hrows & Hser).
    split; [lia|]. exists (a :: new). rewrite <- app_assoc. split; [done|].
    split; [|split; [|split]].
    + rewrite fmap_cons, Hids, Hid.
      replace (Z.of_nat (S (length rows))) with (Z.succ (Z.of_nat (length rows)))
        by lia.
      rewrite (seqZ_cons bbox_id) by lia.
      by replace (Z.pred (Z.succ (Z.of_nat (length rows))))
        with (Z.of_nat (length rows)) by lia.
    + rewrite fmap_cons, Himgs, Himg. done.
    + by constructor.
    + simpl. rewrite Hser. f_equal.
      unfold serializable, json_float. rewrite Hc, Hs. simpl.
      by destruct t.
Qed.

Lemma forallb_const {A : Type} (b : bool) (l : list A) :
  forallb (fun _ => b) l = match l with [] => true | _ => b end.
Proof.
  induction l as [|x l IH]; [done|]. simpl. rewrite IH.
  destruct b, l; done.
Qed.

Lemma dets_loop_inv (data_dict : det_outputs) (i : nat)
  (dets : list det_array) (images images' : list image_info)
  (annotations annotations' : list anno_info) (bbox_id : Z) :
  dets_loop data_dict i dets images annotations bbox_id
  = Ok (images', annotations') ->
  (forall j, (j < length dets)%nat ->
     (i + j < length (img_ids data_dict))%nat
     /\ (i + j < length (img_names data_dict))%nat)
  /\ exists new,
       annotations' = annotations ++ new
       /\ anno_id <$> new
          = seqZ bbox_id (Z.of_nat (total_rows (det_rows <$> dets)))
       /\ anno_image_id <$> new
          = row_image_ids (drop i (img_ids data_dict)) (det_rows <$> dets)
       /\ images'
          = images ++ zip_with (fun name id => {| file_name := name;
                                                   img_id := id |})
                        (take (length dets) (drop i (img_names data_dict)))
                        (take (length dets) (drop i (img_ids data_dict)))
       /\ Forall (fun d => Forall (fun row => (6 <= length row)%nat)
                             (det_rows d)) dets
       /\ forallb serializable new = forallb writable dets.
Proof.
  revert i images annotations bbox_id.
  induction dets as [|det dets IH]; intros i images annotations bbox_id; simpl.
  - intros [= <- <-]. split; [intros j; lia|].
    exists []. rewrite !app_nil_r. unfold row_image_ids.
    by destruct (drop i (img_ids data_dict)).
  - intros (img_id & Hid & (name & Hname & Hrun)%bind_Ok)%bind_Ok.
    apply bind_Ok in Hrun as ([anns1 bbox_id1] & Hrows & Hrun).
    unfold index in Hid, Hname.
    destruct (img_ids data_dict !! i) as [id'|] eqn:Hi; [|done].
    destruct (img_names data_dict !! i) as [name'|] eqn:Hn; [|done].
    injection Hid as ->. injection Hname as ->.
    apply rows_loop_inv in Hrows
      as (-> & new1 & -> & Hids1 & Himgs1 & Hrows1 & Hser1).
    apply IH in Hrun as (Hl & new & -> & Hids & Himgs & -> & Hdets & Hser).
    split.
    { intros [|j] Hj.
      - apply lookup_lt_Some in Hi, Hn. lia.
      - specialize (Hl j). lia. }
    exists (new1 ++ new). rewrite <- !app_assoc. split; [done|].
    rewrite (drop_S _ _ _ Hi), (drop_S _ _ _ Hn). simpl.
    split; [|split; [|split; [|split]]].
    + rewrite fmap_app, Hids1, Hids. unfold total_rows. simpl.
      rewrite Nat2Z.inj_add, seqZ_app by lia. done.
    + rewrite fmap_app, Himgs1, Himgs. done.
    + done.
    + by constructor.
    + rewrite forallb_app, Hser1, Hser, forallb_const. done.
Qed.





(** inference.py, save_det_json.  When the call completes it has
    written one file, whose images are the names and ids of the
    detection arrays in their order, and whose annotations, one per row
    and array after array, are numbered 0, 1, 2, ... and carry the id
    of the image of their array. *)
Theorem save_det_json_numbers (data_dict : det_outputs) (json_path : string)
  (fs fs' : gmap string json_file) :
  save_det_json data_dict json_path fs = (Ok tt, fs') ->
  exists p,
    fs' = <[json_path := Complete p]> fs
    /\ pred_images p
       = zip_with (fun name id => {| file_name := name; img_id := id |})
           (take (length (detections data_dict)) (img_names data_dict))
           (take (length (detections data_dict)) (img_ids data_dict))
    /\ anno_id <$> pred_annotations p
       = seqZ 0 (Z.of_nat (total_rows (det_rows <$> detections data_dict)))
    /\ anno_image_id <$> pred_annotations p
       = row_image_ids (img_ids data_dict)
           (det_rows <$> detections data_dict)
    /\ NoDup (anno_id <$> pred_annotations p).
Proof.
  unfold save_det_json, json_dump.
  destruct (dets_loop _ _ _ _ _ _) as [[images annotations]|e] eqn:Hloop;
    [|done].
  simpl. destruct (forallb serializable annotations); [|done].
  intros [= <-].
  apply dets_loop_inv in Hloop
    as (_ & new & -> & Hids & Himgs & -> & _).
  eexists. split; [done|]. simpl. rewrite !drop_0 in *.
  split; [done|]. split; [done|]. split; [done|].
  rewrite Hids. apply NoDup_seqZ.
Qed.


Lemma save_det_json_numbers_witness :
  let data_dict :=
    {| img_names := ["a.jpg"; "b.jpg"];
       img_ids := [7; 9];
       detections :=
         [ {| det_dtype := Float64;
              det_rows := [ [1 # 2; 1%Q; 10%Q; 20%Q; 9 # 10; 3%Q];
                            [0%Q; 0%Q; 5%Q; 5%Q; 8 # 10; 4%Q] ] |};
           {| det_dtype := Float64;
              det_rows := [ [2%Q; 2%Q; 4%Q; 6%Q; 7 # 10; 3%Q] ] |} ] |} in
  let fs' := (save_det_json data_dict "det.json" ∅).2 in
  exists p,
    fs' = <["det.json" := Complete p]> ∅
    /\ pred_images p
       = zip_with (fun name id => {| file_name := name; img_id := id |})
           (take 2 ["a.jpg"; "b.jpg"]) (take 2 [7; 9])
    /\ anno_id <$> pred_annotations p = seqZ 0 3
    /\ anno_image_id <$> pred_annotations p = [7; 7; 9]
    /\ NoDup (anno_id <$> pred_annotations p).
Proof.
  intros data_dict fs'.
  apply (save_det_json_numbers data_dict "det.json" ∅ fs').
  vm_compute. reflexivity.
Defined.

(** A [float32] detection array: the call raises [TypeError] and the
    file is left truncated. *)
Example save_det_json_float32 :
  save_det_json
    {| img_names := ["a.jpg"]; img_ids := [7];
       detections :=
         [ {| det_dtype := Float32;
              det_rows := [ [1 # 2; 1%Q; 10%Q; 20%Q; 9 # 10; 3%Q] ] |} ] |}
    "det.json" ∅
  = (Raise TypeError, {[ "det.json" := Truncated ]}).
Proof. vm_compute. reflexivity. Qed.

(** ** transforms.py: JointRandomFlip.bbox_flip *)

Lemma flip_row_horizontal_length {A : Type} `{Scalar A} (w : Z) (row : list A) :
  length (flip_row_horizontal w row) = length row.
Proof.
  induction row as [| | | |x1 y1 x2 y2 rest IH] using list_ind_4; try done.
  simpl. by rewrite IH.
Qed.

Lemma flip_row_vertical_length {A : Type} `{Scalar A} (h : Z) (row : list A) :
  length (flip_row_vertical h row) = length row.
Proof.
  induction row as [| | | |x1 y1 x2 y2 rest IH] using list_ind_4; try done.
  simpl. by rewrite IH.
Qed.

Lemma flip_row_diagonal_length {A : Type} `{Scalar A} (h w : Z) (row : list A) :
  length (flip_row_diagonal h w row) = length row.
Proof.
  induction row as [| | | |x1 y1 x2 y2 rest IH] using list_ind_4; try done.
  simpl. by rewrite IH.
Qed.

(** transforms.py, JointRandomFlip.bbox_flip.  The function returns
    exactly when the number of columns is a multiple of 4 and the
    direction is one of the three; the failed assertion on the columns
    comes before the [ValueError] on the direction; and the flipped
    array has the shape of the input. *)
Theorem bbox_flip_shape {A : Type} `{Scalar A} (bboxes : array2 A)
  (img_shape : Z * Z) (direction : string) :
  match bbox_flip bboxes img_shape direction with
  | Ok flipped =>
      (ncols bboxes `mod` 4 = 0)%nat
      /\ direction ∈ ["horizontal"; "vertical"; "diagonal"]
      /\ ncols flipped = ncols bboxes
      /\ length <$> rows flipped = length <$> rows bboxes
  | Raise e =>
      ((ncols bboxes `mod` 4 <> 0)%nat /\ e = AssertionError)
      \/ ((ncols bboxes `mod` 4 = 0)%nat
          /\ (direction ∉ ["horizontal"; "vertical"; "diagonal"])
          /\ e = ValueError)
  end.
Proof.
  unfold bbox_flip.
  destruct (decide (ncols bboxes `mod` 4 = 0)%nat) as [Hc|Hc]; [|by left].
  destruct (decide (direction = "horizontal")) as [->|Hh].
  { split; [done|]. split; [left|]. split; [done|]. simpl.
    rewrite <- list_fmap_compose. apply list_fmap_ext. intros i row _.
    apply flip_row_horizontal_length. }
  destruct (decide (direction = "vertical")) as [->|Hv].
  { split; [done|]. split; [right; left|]. split; [done|]. simpl.
    rewrite <- list_fmap_compose. apply list_fmap_ext. intros i row _.
    apply flip_row_vertical_length. }
  destruct (decide (direction = "diagonal")) as [->|Hd].
  { split; [done|]. split; [right; right; left|]. split; [done|]. simpl.
    rewrite <- list_fmap_compose. apply list_fmap_ext. intros i row _.
    apply flip_row_diagonal_length. }
  right. split; [done|]. split; [|done].
  intros Hin. repeat (apply elem_of_cons in Hin as [?|Hin]; [done|]).
  by apply not_elem_of_nil in Hin.
Qed.

(** transforms.py, JointRandomFlip.bbox_flip, on an N x 4 array of
    rationals.  Row by row, the flipped box has the width and the
    height of the box, and a well-formed box inside the image is
    flipped to a well-formed box inside the image. *)
Theorem bbox_flip_keeps_boxes (rs : list (list Q)) (h w : Z)
  (direction : string) (flipped : array2 Q) (i : nat) (x1 y1 x2 y2 : Q) :
  bbox_flip {| ncols := 4; rows := rs |} (h, w) direction = Ok flipped ->
  rs !! i = Some [x1; y1; x2; y2] ->
  exists x1' y1' x2' y2',
    rows flipped !! i = Some [x1'; y1'; x2'; y2']
    /\ (x2' - x1' == x2 - x1)%Q /\ (y2' - y1' == y2 - y1)%Q
    /\ (row_in_image w h x1 y1 x2 y2 -> row_in_image w h x1' y1' x2' y2').
Proof.
  intros Hflip Hrow. unfold bbox_flip in Hflip. simpl in Hflip.
  unfold row_in_image.
  destruct (decide (direction = "horizontal")) as [->|Hh].
  { injection Hflip as <-. simpl. rewrite list_lookup_fmap, Hrow. simpl.
    eexists _, _, _, _. split; [done|]. repeat split; lra. }
  destruct (decide (direction = "vertical")) as [->|Hv].
  { injection Hflip as <-. simpl. rewrite list_lookup_fmap, Hrow. simpl.
    eexists _, _, _, _. split; [done|]. repeat split; lra. }
  destruct (decide (direction = "diagonal")) as [->|Hd]; [|done].
  injection Hflip as <-. simpl. rewrite list_lookup_fmap, Hrow. simpl.
  eexists _, _, _, _. split; [done|]. repeat split; lra.
Qed.

Lemma bbox_flip_keeps_boxes_witness :
  exists x1' y1' x2' y2',
    [[600%Q; 20%Q; 630%Q; 40%Q]] !! 0%nat = Some [x1'; y1'; x2'; y2']
    /\ (x2' - x1' == 40 - 10)%Q /\ (y2' - y1' == 40 - 20)%Q
    /\ (row_in_image 640 480 10 20 40 40 ->
        row_in_image 640 480 x1' y1' x2' y2').
Proof.
  apply (bbox_flip_keeps_boxes [[10%Q; 20%Q; 40%Q; 40%Q]] 480 640 "horizontal"
           {| ncols := 4; rows := [[600%Q; 20%Q; 630%Q; 40%Q]] |} 0
           10 20 40 40).
  - reflexivity.
  - reflexivity.
Defined.

(** ** transforms.py: JointRandomCrop, the crop window *)

(** transforms.py, JointRandomCrop.__call__, lines 897-907.  For a
    positive crop size the sampled offsets lie between 0 and the
    margins, the cropped image is [min(h, crop_h)] x [min(w, crop_w)],
    its entries are those of the image from the offsets on, and an
    image that is not larger than the crop size is kept whole. *)
Theorem sample_window_inside (self : JointRandomCrop) (g : rng) (pos : nat)
  (img : image) :
  0 < (crop_size self).1 -> 0 < (crop_size self).2 ->
  0 <= img_h img -> 0 <= img_w img ->
  let win := sample_window self g pos img in
  let img' := imslice img (crop_y1 win) (crop_y2 win)
                (crop_x1 win) (crop_x2 win) in
  0 <= offset_h win <= Z.max (img_h img - (crop_size self).1) 0
  /\ 0 <= offset_w win <= Z.max (img_w img - (crop_size self).2) 0
  /\ img_shape win
     = (Z.min (img_h img) (crop_size self).1,
        Z.min (img_w img) (crop_size self).2, img_c img)
  /\ img_h img' = Z.min (img_h img) (crop_size self).1
  /\ img_w img' = Z.min (img_w img) (crop_size self).2
  /\ (forall y x c,
        pix img' y x c = pix img (offset_h win + y) (offset_w win + x) c)
  /\ (img_h img <= (crop_size self).1 -> offset_h win = 0)
  /\ (img_w img <= (crop_size self).2 -> offset_w win = 0).
Proof.
  intros Hch Hcw Hh Hw win img'.
  set (margin_h := Z.max (img_h img - (crop_size self).1) 0).
  set (margin_w := Z.max (img_w img - (crop_size self).2) 0).
  pose proof (randint_range g pos 0 (margin_h + 1)) as Hoh.
  pose proof (randint_range g (S pos) 0 (margin_w + 1)) as How.
  assert (Hoh' : 0 <= offset_h win <= margin_h)
    by (unfold win, sample_window; simpl; fold margin_h; lia).
  assert (How' : 0 <= offset_w win <= margin_w)
    by (unfold win, sample_window; simpl; fold margin_w; lia).
  assert (Hy1 : crop_y1 win = offset_h win) by done.
  assert (Hx1 : crop_x1 win = offset_w win) by done.
  assert (Hy2 : crop_y2 win = offset_h win + (crop_size self).1) by done.
  assert (Hx2 : crop_x2 win = offset_w win + (crop_size self).2) by done.
  assert (Hsy1 : slice_index (img_h img) (crop_y1 win) = offset_h win).
  { rewrite Hy1. apply slice_index_inside. unfold margin_h in *. lia. }
  assert (Hsx1 : slice_index (img_w img) (crop_x1 win) = offset_w win).
  { rewrite Hx1. apply slice_index_inside. unfold margin_w in *. lia. }
  assert (Hsy2 : slice_index (img_h img) (crop_y2 win)
                 = Z.min (offset_h win + (crop_size self).1) (img_h img)).
  { rewrite Hy2. unfold slice_index.
    destruct (Z.ltb_spec (offset_h win + (crop_size self).1) 0); lia. }
  assert (Hsx2 : slice_index (img_w img) (crop_x2 win)
                 = Z.min (offset_w win + (crop_size self).2) (img_w img)).
  { rewrite Hx2. unfold slice_index.
    destruct (Z.ltb_spec (offset_w win + (crop_size self).2) 0); lia. }
  assert (Hh' : img_h img' = Z.min (img_h img) (crop_size self).1).
  { change (img_h img')
      with (Z.max (slice_index (img_h img) (crop_y2 win)
                   - slice_index (img_h img) (crop_y1 win)) 0).
    rewrite Hsy1, Hsy2. unfold margin_h in *. lia. }
  assert (Hw' : img_w img' = Z.min (img_w img) (crop_size self).2).
  { change (img_w img')
      with (Z.max (slice_index (img_w img) (crop_x2 win)
                   - slice_index (img_w img) (crop_x1 win)) 0).
    rewrite Hsx1, Hsx2. unfold margin_w in *. lia. }
  split; [done|]. split; [done|]. split.
  { change (img_shape win) with (img_h img', img_w img', img_c img').
    by rewrite Hh', Hw'. }
  split; [done|]. split; [done|]. split.
  { intros y x c.
    change (pix img' y x c)
      with (pix img (slice_index (img_h img) (crop_y1 win) + y)
              (slice_index (img_w img) (crop_x1 win) + x) c).
    by rewrite Hsy1, Hsx1. }
  unfold margin_h, margin_w in *. split; lia.
Qed.

Lemma sample_window_inside_witness :
  let self := {| crop_size := (10, 10); allow_negative_crop := false |} in
  let img := {| img_h := 20; img_w := 8; img_c := 3;
                pix := fun y x c => y + x + c |} in
  let win := sample_window self (fun _ => 1 # 2) 0 img in
  let img' := imslice img (crop_y1 win) (crop_y2 win)
                (crop_x1 win) (crop_x2 win) in
  0 <= offset_h win <= Z.max (20 - 10) 0
  /\ 0 <= offset_w win <= Z.max (8 - 10) 0
  /\ img_shape win = (Z.min 20 10, Z.min 8 10, 3)
  /\ img_h img' = Z.min 20 10
  /\ img_w img' = Z.min 8 10
  /\ (forall y x c,
        pix img' y x c = pix img (offset_h win + y) (offset_w win + x) c)
  /\ (20 <= 10 -> offset_h win = 0)
  /\ (8 <= 10 -> offset_w win = 0).
Proof.
  intros self img win img'.
  apply (sample_window_inside self (fun _ => 1 # 2) 0 img); simpl; lia.
Defined.

Lemma clip_range (x lo hi : Q) :
  (lo <= hi)%Q -> (lo <= clip x lo hi)%Q /\ (clip x lo hi <= hi)%Q.
Proof.
  intros Hlh. unfold clip, minimum, maximum.
  destruct (Qltb x lo) eqn:H1;
    [apply Qltb_lt in H1 | apply Qltb_false in H1].
  - destruct (Qltb hi lo) eqn:H2;
      [apply Qltb_lt in H2 | apply Qltb_false in H2]; split; lra.
  - destruct (Qltb hi x) eqn:H2;
      [apply Qltb_lt in H2 | apply Qltb_false in H2]; split; lra.
Qed.

Lemma clip_inside (x lo hi : Q) :
  (lo <= x)%Q -> (x <= hi)%Q -> clip x lo hi = x.
Proof.
  intros Hlo Hhi. unfold clip, minimum, maximum.
  destruct (Qltb x lo) eqn:H1; [apply Qltb_lt in H1; lra|].
  destruct (Qltb hi x) eqn:H2; [apply Qltb_lt in H2; lra|]. done.
Qed.

(** transforms.py, JointRandomCrop.__call__, lines 921-928.  Every box
    that the crop keeps lies in the cropped image and has a positive
    width and height; a box that lies in the window to begin with is
    only moved by the offsets. *)
Theorem crop_box_inside (win : crop_window) (bs : list box) :
  0 <= (img_shape win).1.1 -> 0 <= (img_shape win).1.2 ->
  Forall (box_in_image (img_shape win).1.2 (img_shape win).1.1)
    (List.filter box_valid (map (crop_box win) bs))
  /\ forall b,
       (inject_Z (offset_w win) <= bx1 b)%Q ->
       (bx2 b <= inject_Z (offset_w win) + inject_Z (img_shape win).1.2)%Q ->
       (inject_Z (offset_h win) <= by1 b)%Q ->
       (by2 b <= inject_Z (offset_h win) + inject_Z (img_shape win).1.1)%Q ->
       (bx1 b <= bx2 b)%Q -> (by1 b <= by2 b)%Q ->
       crop_box win b
       = {| bx1 := bx1 b - inject_Z (offset_w win);
            by1 := by1 b - inject_Z (offset_h win);
            bx2 := bx2 b - inject_Z (offset_w win);
            by2 := by2 b - inject_Z (offset_h win) |}.
Proof.
  intros Hh Hw.
  assert (Hh' : (0 <= inject_Z (img_shape win).1.1)%Q)
    by (change 0%Q with (inject_Z 0); by rewrite <- Zle_Qle).
  assert (Hw' : (0 <= inject_Z (img_shape win).1.2)%Q)
    by (change 0%Q with (inject_Z 0); by rewrite <- Zle_Qle).
  split.
  - apply Forall_forall. intros b Hb.
    apply list_elem_of_In, filter_In in Hb as [Hin Hvalid].
    apply in_map_iff in Hin as (b0 & <- & _).
    unfold box_valid in Hvalid.
    apply andb_true_iff in Hvalid as [Hx%Qltb_lt Hy%Qltb_lt].
    unfold box_in_image. unfold crop_box in *. simpl in *.
    pose proof (clip_range (bx1 b0 - inject_Z (offset_w win)) 0 _ Hw').
    pose proof (clip_range (bx2 b0 - inject_Z (offset_w win)) 0 _ Hw').
    pose proof (clip_range (by1 b0 - inject_Z (offset_h win)) 0 _ Hh').
    pose proof (clip_range (by2 b0 - inject_Z (offset_h win)) 0 _ Hh').
    tauto.
  - intros b Hx1 Hx2 Hy1 Hy2 Hx Hy. unfold crop_box.
    rewrite !clip_inside by lra. done.
Qed.

Lemma crop_box_inside_witness :
  let win := sample_window
               {| crop_size := (10, 10); allow_negative_crop := false |}
               (fun _ => 0%Q) 0
               {| img_h := 20; img_w := 30; img_c := 3;
                  pix := fun _ _ _ => 0 |} in
  let bs := [ {| bx1 := 2; by1 := 3; bx2 := 18; by2 := 8 |} ] in
  Forall (box_in_image (img_shape win).1.2 (img_shape win).1.1)
    (List.filter box_valid (map (crop_box win) bs))
  /\ forall b,
       (inject_Z (offset_w win) <= bx1 b)%Q ->
       (bx2 b <= inject_Z (offset_w win) + inject_Z (img_shape win).1.2)%Q ->
       (inject_Z (offset_h win) <= by1 b)%Q ->
       (by2 b <= inject_Z (offset_h win) + inject_Z (img_shape win).1.1)%Q ->
       (bx1 b <= bx2 b)%Q -> (by1 b <= by2 b)%Q ->
       crop_box win b
       = {| bx1 := bx1 b - inject_Z (offset_w win);
            by1 := by1 b - inject_Z (offset_h win);
            bx2 := bx2 b - inject_Z (offset_w win);
            by2 := by2 b - inject_Z (offset_h win) |}.
Proof.
  intros win bs. apply (crop_box_inside win bs); vm_compute; discriminate.
Defined.

(** ** inference.py: get_label_mapping *)

Lemma get_label_mapping_distinct_witness :
  label_mapping_claim
    [ {| cat_id := 1; cat_name := "apple" |};
      {| cat_id := 2; cat_name := "pear" |} ]
    [ {| cat_id := 10; cat_name := "apple" |} ].
Proof.
  apply get_label_mapping_distinct.
  - simpl. apply NoDup_cons. split; [|apply NoDup_singleton].
    intros [=]%list_elem_of_singleton.
  - simpl. apply NoDup_singleton.
Defined.

(** ** transforms.py: MinIoURandomCrop *)

Lemma int_of_floor (q : Q) : (0 <= q)%Q -> int_of q = Qfloor q.
Proof.
  destruct q as [n d]. unfold Qle, int_of, Qfloor. simpl. intros Hn.
  apply Z.quot_div_nonneg; lia.
Qed.

Lemma inject_Z_sub (a b : Z) : (inject_Z (a - b) == inject_Z a - inject_Z b)%Q.
Proof.
  unfold Z.sub. rewrite inject_Z_plus, inject_Z_opp. reflexivity.
Qed.

Lemma Qfloor_lower (q : Q) (n : Z) : (inject_Z n <= q)%Q -> n <= Qfloor q.
Proof.
  intros Hq. apply Qfloor_resp_le in Hq. by rewrite Qfloor_Z in Hq.
Qed.

Lemma Qfloor_upper (q : Q) (n : Z) : (q < inject_Z n + 1)%Q -> Qfloor q <= n.
Proof.
  intros Hq. pose proof (Qfloor_le q) as Hle.
  assert (Hlt : (inject_Z (Qfloor q) < inject_Z (n + 1))%Q).
  { rewrite inject_Z_plus. change (inject_Z 1) with 1%Q. lra. }
  rewrite <- Zlt_Qlt in Hlt. lia.
Qed.

(** The patch of one axis: sampled length [len] in
    [[mc * n, n]], start [uniform(n - len)], that is, between [n - len]
    and 1. *)
Lemma sample_axis (n : Z) (len u : Q) :
  0 < n -> (0 < len)%Q -> (len <= inject_Z n)%Q -> (0 <= u)%Q -> (u < 1)%Q ->
  let start := ((inject_Z n - len) + (1 - (inject_Z n - len)) * u)%Q in
  0 <= int_of start
  /\ int_of start <= int_of (start + len)
  /\ int_of (start + len) <= n
  /\ (int_of start = 0 -> n - 1 <= int_of (start + len)).
Proof.
  intros Hn Hlen Hle Hu0 Hu1 start.
  set (a := (inject_Z n - len)%Q) in *.
  assert (Ha : (0 <= a)%Q) by (unfold a; lra).
  assert (Hs0 : (0 <= start)%Q).
  { unfold start. destruct (Qlt_le_dec 1 a); nra. }
  assert (Hs1 : (start + len < inject_Z n + 1)%Q).
  { unfold start, a in *. destruct (Qlt_le_dec 1 (inject_Z n - len)); nra. }
  rewrite !int_of_floor by lra.
  split; [by apply (Qfloor_lower start 0)|].
  split; [apply Qfloor_resp_le; lra|].
  split; [by apply Qfloor_upper|].
  intros H0. pose proof (Qlt_floor start) as Hlt. rewrite H0 in Hlt.
  change (inject_Z (0 + 1)) with 1%Q in Hlt.
  assert (Ha1 : (a < 1)%Q).
  { destruct (Qlt_le_dec a 1) as [|Hge]; [done|]. unfold start in Hlt. nra. }
  apply Qfloor_lower. rewrite inject_Z_sub. change (inject_Z 1) with 1%Q.
  unfold a in *. lra.
Qed.

Lemma uniform_range (g : rng) (pos : nat) (low high : Q) :
  (low <= high)%Q ->
  (low <= uniform g pos low high)%Q /\ (uniform g pos low high <= high)%Q.
Proof.
  intros Hlh. unfold uniform. destruct (unit_draw_range g pos). split; nra.
Qed.

(** A sampled patch lies inside the image. *)
Lemma sample_patch_bounds (self : MinIoURandomCrop) (g : rng) (pos : nat)
  (h w : Z) (p : patch) (pos' : nat) :
  sample_patch self g pos h w = Ok (Some p, pos') ->
  (0 < min_crop_size self)%Q -> (min_crop_size self <= 1)%Q ->
  0 < h -> 0 < w ->
  pos' = (pos + 4)%nat
  /\ 0 <= px1 p < px2 p /\ px2 p <= w
  /\ 0 <= py1 p < py2 p /\ py2 p <= h
  /\ (px1 p = 0 -> w - 1 <= px2 p)
  /\ (py1 p = 0 -> h - 1 <= py2 p).
Proof.
  intros Hrun Hmc0 Hmc1 Hh Hw. unfold sample_patch in Hrun.
  assert (HwQ : (0 < inject_Z w)%Q)
    by (change 0%Q with (inject_Z 0); by rewrite <- Zlt_Qlt).
  assert (HhQ : (0 < inject_Z h)%Q)
    by (change 0%Q with (inject_Z 0); by rewrite <- Zlt_Qlt).
  destruct (uniform_range g pos (min_crop_size self * inject_Z w)
              (inject_Z w)) as [Hw1 Hw2]; [nra|].
  destruct (uniform_range g (S pos) (min_crop_size self * inject_Z h)
              (inject_Z h)) as [Hh1 Hh2]; [nra|].
  set (new_w := uniform g pos _ _) in *.
  set (new_h := uniform g (S pos) _ _) in *.
  destruct (Qeq_bool new_w 0); [done|].
  destruct (_ || _); [done|].
  destruct (unit_draw_range g (S (S pos))) as [Hu0 Hu1].
  destruct (unit_draw_range g (S (S (S pos)))) as [Hv0 Hv1].
  destruct (sample_axis w new_w (unit_draw g (S (S pos))))
    as (Hx0 & Hx1 & Hx2 & Hx3); [done|nra|done|done|done|].
  destruct (sample_axis h new_h (unit_draw g (S (S (S pos)))))
    as (Hy0 & Hy1 & Hy2 & Hy3); [done|nra|done|done|done|].
  cbv zeta in Hrun.
  destruct (bool_decide _ || bool_decide _) eqn:Hline in Hrun; [done|].
  injection Hrun as <- <-.
  apply orb_false_iff in Hline as [Hpx%bool_decide_eq_false
                                     Hpy%bool_decide_eq_false].
  unfold uniform in *. cbn [px1 px2 py1 py2] in *.
  split; [lia|]. split; [lia|]. split; [done|]. split; [lia|].
  split; [done|]. split; done.
Qed.

(** transforms.py, MinIoURandomCrop.__call__, lines 1758-1773.  With a
    minimum crop size in (0, 1], a patch that is sampled for a non-empty
    image takes four draws, has a positive width and height and lies
    inside the image.  Its corner is drawn between [w - new_w] and 1
    ([np.random.uniform(w - new_w)]): a patch that starts in column 0
    reaches at least column [w - 1], and likewise for the rows. *)
Theorem sample_patch_inside (self : MinIoURandomCrop) (g : rng) (pos : nat)
  (h w : Z) (p : patch) (pos' : nat) :
  sample_patch self g pos h w = Ok (Some p, pos') ->
  (0 < min_crop_size self)%Q -> (min_crop_size self <= 1)%Q ->
  0 < h -> 0 < w ->
  pos' = (pos + 4)%nat
  /\ 0 <= px1 p < px2 p /\ px2 p <= w
  /\ 0 <= py1 p < py2 p /\ py2 p <= h
  /\ (px1 p = 0 -> w - 1 <= px2 p)
  /\ (py1 p = 0 -> h - 1 <= py2 p).
Proof. apply sample_patch_bounds. Qed.

Lemma sample_patch_inside_witness :
  let self := {| min_ious := [1 # 10; 3 # 10; 5 # 10; 7 # 10; 9 # 10];
                 min_crop_size := 3 # 10 |} in
  let p := {| px1 := 0; py1 := 0; px2 := 100; py2 := 100 |} in
  5%nat = (1 + 4)%nat
  /\ 0 <= px1 p < px2 p /\ px2 p <= 100
  /\ 0 <= py1 p < py2 p /\ py2 p <= 100
  /\ (px1 p = 0 -> 100 - 1 <= px2 p)
  /\ (py1 p = 0 -> 100 - 1 <= py2 p).
Proof.
  intros self p.
  apply (sample_patch_inside self example_rng 1 100 100 p 5);
    [vm_compute; reflexivity | reflexivity | discriminate | lia | lia].
Defined.

Section MinIoURandomCropMore.

Context {mask : Type}.
Variable mask_crop : patch -> mask -> mask.
Variable bbox_overlaps_np : patch -> box -> Q.

Implicit Type results : gmap string (value mask).

(** transforms.py, MinIoURandomCrop.__call__, lines 1750-1755.  When
    the call returns with mode 1, it returns the record it was given. *)
Theorem MinIoURandomCrop_keeps_original (fuel : nat)
  (self : MinIoURandomCrop) (g : rng) (pos : nat) results out (mode : Q) :
  MinIoURandomCrop_call mask mask_crop bbox_overlaps_np fuel self g pos results
  = Some (Ok (out, mode)) ->
  Qeq_bool mode 1 = true ->
  out = results.
Proof.
  unfold MinIoURandomCrop_call.
  destruct (crop_inputs mask results) as [[img boxes]|e]; [|done].
  revert pos. induction fuel as [|fuel IH]; intros pos; cbn [mode_loop];
    [done|].
  destruct (choice g pos (sample_mode self)) as [mode0|e]; [|done].
  destruct (Qeq_bool mode0 1) eqn:Hmode.
  - by intros [= <- <-].
  - destruct (attempts _ _ _ _ _ _ _ _ _ _ _) as [[[r|] pos']|e]; [| |done].
    + intros [= <- <-] Hm. congruence.
    + apply IH.
Qed.

End MinIoURandomCropMore.

Lemma MinIoURandomCrop_keeps_original_witness :
  let self := {| min_ious := [1 # 10; 3 # 10; 5 # 10; 7 # 10; 9 # 10];
                 min_crop_size := 3 # 10 |} in
  let results : gmap string (value unit) :=
    {[ "img" := VImg unit {| img_h := 100; img_w := 100; img_c := 3;
                             pix := fun _ _ _ => 0 |};
       "bbox_fields" := VKeys unit ["gt_bboxes"];
       "gt_bboxes" := VBoxes unit
          [ {| bx1 := 10; by1 := 10; bx2 := 50; by2 := 50 |} ] ]} in
  let out :=
    match MinIoURandomCrop_call unit (fun _ m => m) iou 1 self
            (fun _ => 0%Q) 0 results with
    | Some (Ok (out, _)) => out
    | _ => ∅
    end in
  out = results.
Proof.
  intros self results out.
  apply (MinIoURandomCrop_keeps_original (fun _ m => m) iou 1 self
           (fun _ => 0%Q) 0 results out 1).
  - vm_compute. reflexivity.
  - reflexivity.
Defined.

Lemma maximum_cases (a b : Q) :
  (maximum a b = b /\ (a < b)%Q) \/ (maximum a b = a /\ (b <= a)%Q).
Proof.
  unfold maximum. destruct (Qltb a b) eqn:E.
  - left. by apply Qltb_lt in E.
  - right. by apply Qltb_false in E.
Qed.

Lemma minimum_cases (a b : Q) :
  (minimum a b = b /\ (b < a)%Q) \/ (minimum a b = a /\ (a <= b)%Q).
Proof.
  unfold minimum. destruct (Qltb b a) eqn:E.
  - left. by apply Qltb_lt in E.
  - right. by apply Qltb_false in E.
Qed.

(** transforms.py, MinIoURandomCrop.__call__, lines 1798-1803.  A box
    with [x1 <= x2] and [y1 <= y2] whose centre lies strictly inside
    the patch is clipped and moved to a box inside the cropped image,
    and keeps a positive width, and height, if it had one. *)
Theorem clip_to_patch_inside (p : patch) (b : box) :
  is_center_of_bbox_in_patch p b = true ->
  (bx1 b <= bx2 b)%Q -> (by1 b <= by2 b)%Q ->
  let b' := clip_to_patch p b in
  (0 <= bx1 b' /\ bx1 b' <= bx2 b' /\ bx2 b' <= inject_Z (px2 p - px1 p)
   /\ 0 <= by1 b' /\ by1 b' <= by2 b' /\ by2 b' <= inject_Z (py2 p - py1 p)
   /\ (bx1 b < bx2 b -> bx1 b' < bx2 b')
   /\ (by1 b < by2 b -> by1 b' < by2 b'))%Q.
Proof.
  intros Hc Hx Hy.
  apply is_center_of_bbox_in_patch_spec in Hc as (Hc1 & Hc2 & Hc3 & Hc4).
  unfold center_inside in *. cbv zeta. unfold clip_to_patch. simpl.
  rewrite !inject_Z_sub.
  assert (Hcx : ((bx1 b + bx2 b) / 2 * 2 == bx1 b + bx2 b)%Q) by field.
  assert (Hcy : ((by1 b + by2 b) / 2 * 2 == by1 b + by2 b)%Q) by field.
  set (cx := ((bx1 b + bx2 b) / 2)%Q) in *.
  set (cy := ((by1 b + by2 b) / 2)%Q) in *.
  destruct (maximum_cases (bx1 b) (inject_Z (px1 p))) as [[-> E1]|[-> E1]];
    destruct (minimum_cases (bx2 b) (inject_Z (px2 p))) as [[-> E2]|[-> E2]];
    destruct (maximum_cases (by1 b) (inject_Z (py1 p))) as [[-> E3]|[-> E3]];
    destruct (minimum_cases (by2 b) (inject_Z (py2 p))) as [[-> E4]|[-> E4]];
    repeat match goal with |- _ /\ _ => split end;
    try match goal with |- (_ < _)%Q -> _ => intros ? end; lra.
Qed.

Lemma clip_to_patch_inside_witness :
  let p := {| px1 := 10; py1 := 10; px2 := 50; py2 := 45 |} in
  let b := {| bx1 := 5; by1 := 20; bx2 := 45; by2 := 60 |} in
  let b' := clip_to_patch p b in
  (0 <= bx1 b' /\ bx1 b' <= bx2 b' /\ bx2 b' <= inject_Z (50 - 10)
   /\ 0 <= by1 b' /\ by1 b' <= by2 b' /\ by2 b' <= inject_Z (45 - 10)
   /\ (bx1 b < bx2 b -> bx1 b' < bx2 b')
   /\ (by1 b < by2 b -> by1 b' < by2 b'))%Q.
Proof.
  intros p b.
  apply (clip_to_patch_inside p b); [reflexivity | discriminate | discriminate].
Defined.

(** ** transforms.py: MinIoURandomCrop, the accepted patch *)





Section MinIoURandomCropAccepted.

Context {mask : Type}.
Variable mask_crop : patch -> mask -> mask.
Variable bbox_overlaps_np : patch -> box -> Q.

Implicit Type results : gmap string (value mask).





End MinIoURandomCropAccepted.


(** The threshold decides: with the mode 0.5 the same patch is given
    up, the IoU with the second box being 1/3. *)
Example MinIoURandomCrop_threshold_example :
  let p := {| px1 := 20; py1 := 10; px2 := 80; py2 := 70 |} in
  let b1 := {| bx1 := 10; by1 := 20; bx2 := 70; by2 := 65 |} in
  let b2 := {| bx1 := 20; by1 := 40; bx2 := 80; by2 := 100 |} in
  let results : gmap string (value Z) :=
    {[ "img" := VImg Z (ramp 100 100 3);
       "bbox_fields" := VKeys Z ["gt_bboxes"];
       "gt_bboxes" := VBoxes Z [b1; b2] ]} in
  (iou p b1 == 5 # 9)%Q /\ (iou p b2 == 1 # 3)%Q
  /\ crop_to_patch Z (fun _ m => m) iou (1 # 2) p (ramp 100 100 3) [b1; b2]
       results = Ok None.
Proof. vm_compute. repeat split. Qed.

(** ** transforms.py: GtBBoxesFilter *)

Lemma mask_select_all {A : Type} (m : list bool) (l : list A) :
  Forall (fun b => b = true) m -> length m = length l -> mask_select m l = l.
Proof.
  intros Hm. revert l. induction Hm as [|b m -> _ IH]; intros [|a l];
    simpl; try done.
  intros [= Hlen]. by rewrite IH.
Qed.

Section GtBBoxesFilterMore.

Context {mask : Type}.
Variable prec : Z.

Implicit Type results out : gmap string (value mask).

(** transforms.py, GtBBoxesFilter.__call__.  Filtering a record that
    the filter returned changes nothing. *)
Theorem GtBBoxesFilter_idempotent (self : GtBBoxesFilter) results out :
  GtBBoxesFilter_call mask prec self results = Ok out ->
  GtBBoxesFilter_call mask prec self out = Ok out.
Proof.
  unfold GtBBoxesFilter_call at 1.
  intros (vb & Hvb & (labels & Hlabels & (bboxes & Hb & Hrun)%bind_Ok)
    %bind_Ok)%bind_Ok.
  apply bind_Ok in Hrun as (kept & Hkept & Hrun).
  apply bind_Ok in Hrun as (labels' & Hl' & [= <-]).
  destruct vb; try done. injection Hb as ->.
  apply bool_index_Ok in Hkept as [Hlen ->].
  rewrite mask_select_map_filter in *.
  set (kept := List.filter (gt_valid prec self) bboxes) in *.
  assert (Hvalid : Forall (fun b => b = true) (map (gt_valid prec self) kept)).
  { apply Forall_forall. intros b Hb%list_elem_of_In.
    apply in_map_iff in Hb as (b0 & <- & Hb0).
    by apply filter_In in Hb0 as [_ ?]. }
  assert (Hkeep : forall (A : Type) (l l' : list A),
            bool_index (map (gt_valid prec self) bboxes) l = Ok l' ->
            bool_index (map (gt_valid prec self) kept) l' = Ok l').
  { intros A l l' [Hl ->]%bool_index_Ok. unfold bool_index.
    assert (Hlen' : length (map (gt_valid prec self) kept)
                    = length (mask_select (map (gt_valid prec self) bboxes) l)).
    { rewrite length_map. unfold kept.
      rewrite <- (mask_select_map_filter (gt_valid prec self) bboxes).
      apply mask_select_length. by rewrite length_map in Hl. }
    rewrite decide_True by done. by rewrite mask_select_all. }
  assert (Hl2 : value_bool_index mask (map (gt_valid prec self) kept) labels'
                = Ok labels').
  { destruct labels; try done; simpl in Hl'.
    - apply bind_Ok in Hl' as (bs' & Hbs' & [= <-]). simpl.
      by rewrite (Hkeep _ _ _ Hbs').
    - apply bind_Ok in Hl' as (ls' & Hls' & [= <-]). simpl.
      by rewrite (Hkeep _ _ _ Hls'). }
  set (out := <["gt_labels" := labels']>
                (<["gt_bboxes" := VBoxes mask kept]> results)).
  assert (Hgb : out !! "gt_bboxes" = Some (VBoxes mask kept)).
  { unfold out. rewrite lookup_insert_ne by done. apply lookup_insert_eq. }
  assert (Hgl : out !! "gt_labels" = Some labels')
    by apply lookup_insert_eq.
  unfold GtBBoxesFilter_call, getitem. rewrite Hgb, Hgl. simpl.
  unfold bool_index at 1. rewrite decide_True by (by rewrite length_map).
  simpl. rewrite mask_select_all by (done || by rewrite length_map).
  rewrite Hl2. simpl. f_equal. apply map_eq. intros k.
  unfold out. rewrite !lookup_insert. repeat case_decide; done.
Qed.

End GtBBoxesFilterMore.

Lemma GtBBoxesFilter_idempotent_witness :
  let self := {| min_size := 2; max_aspect_ratio := 20 |} in
  let results : gmap string (value unit) :=
    {[ "gt_bboxes" := VBoxes unit
          [ {| bx1 := 0; by1 := 0; bx2 := 10; by2 := 10 |};
            {| bx1 := 0; by1 := 0; bx2 := 1; by2 := 10 |} ];
       "gt_labels" := VLabels unit [3; 4] ]} in
  let out := match GtBBoxesFilter_call unit 53 self results with
             | Ok out => out
             | Raise _ => ∅
             end in
  GtBBoxesFilter_call unit 53 self out = Ok out.
Proof.
  intros self results out.
  apply (GtBBoxesFilter_idempotent 53 self results out).
  vm_compute. reflexivity.
Defined.

(** ** test_mixins.py: MaskTestMixin.simple_test_mask *)

Section MaskTestMixinMore.

Variables feats rois pred segm : Type.
Variable num_classes : Z.
Variable bbox2roi : list (list (list Q)) -> rois.
Variable _mask_forward : feats -> rois -> res (list pred).
Variable get_seg_masks :
  list pred -> list (list Q) -> list Z -> list Z -> scale -> bool ->
  res (list (list segm)).

Lemma decode_masks_inv rescale ori_shapes scale_factors mask_preds _bboxes
    det_labels i det_bboxes segm_results calls r calls' :
  decode_masks pred segm num_classes get_seg_masks rescale ori_shapes
    scale_factors mask_preds _bboxes det_labels i det_bboxes segm_results
    calls = (Ok r, calls') ->
  calls' = calls ++ (GetSegMasks <$> detected_from i det_bboxes)
  /\ exists new,
       r = segm_results ++ new
       /\ length new = length det_bboxes
       /\ forall j, det_bboxes !! j = Some [] ->
            new !! j = Some (replicate (Z.to_nat num_classes) []).
Proof.
  revert i segm_results calls.
  induction det_bboxes as [|det_bbox rest IH]; intros i segm_results calls;
    simpl.
  - intros [= <- <-]. split; [by rewrite app_nil_r|].
    exists []. rewrite app_nil_r. split; [done|]. split; [done|].
    intros j. by rewrite lookup_nil.
  - destruct (decide (length det_bbox = 0%nat)) as [Hempty|Hne].
    + intros (-> & new & -> & Hlen & Hnew)%IH. split; [done|].
      exists (replicate (Z.to_nat num_classes) [] :: new).
      rewrite <- app_assoc. split; [done|]. split; [simpl; lia|].
      intros [|j]; simpl; [done|apply Hnew].
    + destruct (index mask_preds i ≫= _) as [[[[[p b] l] o] s]|e]; [|done].
      destruct (get_seg_masks p b l o s rescale) as [segm_result|e]; [|done].
      intros (-> & new & -> & Hlen & Hnew)%IH. split.
      { rewrite <- app_assoc. done. }
      exists (segm_result :: new). rewrite <- app_assoc.
      split; [done|]. split; [simpl; lia|].
      intros [|j]; simpl; [|apply Hnew].
      intros [= ->]. done.
Qed.

(** test_mixins.py, MaskTestMixin.simple_test_mask.  A call that
    returns gives one result per image, and the results of the images
    without a detection are [num_classes] empty lists.  It reached the
    mask head not at all when no image has a detection; otherwise with
    one forward pass followed by one decode for each image that has a
    detection, in the order of the images. *)
Theorem simple_test_mask_calls (x : feats) (img_metas : list img_meta)
  (det_bboxes : list (list (list Q))) (det_labels : list (list Z))
  (rescale : bool) (segm_results : list (list (list segm)))
  (calls : list call) :
  simple_test_mask feats rois pred segm num_classes bbox2roi _mask_forward
    get_seg_masks x img_metas det_bboxes det_labels rescale
  = (Ok segm_results, calls) ->
  length segm_results = length det_bboxes
  /\ (forall j, det_bboxes !! j = Some [] ->
        segm_results !! j = Some (replicate (Z.to_nat num_classes) []))
  /\ calls = if all_empty det_bboxes then []
             else MaskForward :: (GetSegMasks <$> detected_from 0 det_bboxes).
Proof.
  unfold simple_test_mask. fold (all_empty det_bboxes).
  destruct (all_empty det_bboxes) eqn:Hall.
  - intros [= <- <-]. split; [by rewrite length_replicate|]. split; [|done].
    intros j Hj. apply lookup_replicate_2. by eapply lookup_lt_Some.
  - destruct (to_device rescale _ ≫= _) as [[scale_factors _bboxes]|e];
      [|done].
    destruct (_mask_forward x (bbox2roi _bboxes)) as [mask_pred|e]; [|done].
    destruct (split_sizes _ mask_pred) as [mask_preds|e]; [|done].
    intros (-> & new & -> & Hlen & Hnew)%decode_masks_inv.
    split; [done|]. split; [done|]. done.
Qed.

End MaskTestMixinMore.

Lemma simple_test_mask_calls_witness :
  let r := simple_test_mask unit unit unit unit 3 (fun _ => tt)
             (fun _ _ => Ok [tt]) (fun _ _ _ _ _ _ => Ok [[tt]]) tt
             [ {| ori_shape := [10; 10; 3]; scale_factor := ScaleFloat 1 |};
               {| ori_shape := [10; 10; 3]; scale_factor := ScaleFloat 1 |} ]
             [ []; [[0%Q; 0%Q; 5%Q; 5%Q; 9 # 10]] ] [ []; [2] ] false in
  match r.1 with
  | Ok segm_results =>
      length segm_results = 2%nat
      /\ (forall j,
            [ @nil (list Q); [[0%Q; 0%Q; 5%Q; 5%Q; 9 # 10]] ] !! j = Some [] ->
            segm_results !! j = Some (replicate (Z.to_nat 3) []))
      /\ r.2 = [MaskForward; GetSegMasks 1]
  | Raise _ => False
  end.
Proof.
  intros r.
  destruct r as [[segm_results|e] calls] eqn:Hr; simpl.
  - apply (simple_test_mask_calls unit unit unit unit 3 (fun _ => tt)
             (fun _ _ => Ok [tt]) (fun _ _ _ _ _ _ => Ok [[tt]]) tt
             [ {| ori_shape := [10; 10; 3]; scale_factor := ScaleFloat 1 |};
               {| ori_shape := [10; 10; 3]; scale_factor := ScaleFloat 1 |} ]
             [ []; [[0%Q; 0%Q; 5%Q; 5%Q; 9 # 10]] ] [ []; [2] ] false
             segm_results calls).
    exact Hr.
  - vm_compute in Hr. discriminate Hr.
Defined.

(** ** transforms.py: MosaicPipeline, the canvas *)

Lemma new_canvas_pix pad_val h w c keys canvas canvas' key a :
  new_canvas pad_val h w c keys canvas = Ok canvas' ->
  canvas' !! key = Some a ->
  canvas !! key = Some a \/ forall y x c', pix a y x c' = uint8 pad_val.
Proof.
  revert canvas. induction keys as [|k keys IH]; intros canvas; simpl.
  - intros [= <-]. by left.
  - intros (a0 & Ha0 & Hrun)%bind_Ok Ha.
    destruct (IH _ Hrun Ha) as [Hin|?]; [|by right].
    rewrite lookup_insert in Hin. case_decide; [|by left].
    injection Hin as <-. right. unfold full in Ha0.
    destruct (_ || _); [done|]. by injection Ha0 as <-.
Qed.

Section MosaicPipelineMore.

Context {mask : Type}.
Variable batch_rand_others : Z -> nat -> list Z.
Variable prepare : Z -> gmap string (value mask).
Variable individual_pipeline :
  nat -> gmap string (value mask) -> gmap positive (list box) ->
  res (option (gmap string (value mask)) * gmap positive (list box)).
Variable pad_val : Z.

Implicit Type t out : gmap string (value mask).
Implicit Type st : gmap positive (list box).

(** What a returned mosaic says about its canvas: every tile fitted,
    and outside the four tiles the canvas is as it was made. *)
Lemma mosaic_compose_canvas input st1 st2 out t0 t1 t2 t3
    img_fields bf0 bf1 bf2 bf3 hw0 hw1 hw2 hw3 :
  mosaic_compose mask pad_val input [t0; t1; t2; t3] st1 = Ok (out, st2) ->
  get_keys mask t0 "img_fields" [] = Ok img_fields ->
  img_fields <> [] ->
  tile_ready t0 img_fields bf0 hw0 ->
  tile_ready t1 img_fields bf1 hw1 ->
  tile_ready t2 img_fields bf2 hw2 ->
  tile_ready t3 img_fields bf3 hw3 ->
  NoDup (box_locations t0 bf0 ++ box_locations t1 bf1
         ++ box_locations t2 bf2 ++ box_locations t3 bf3) ->
  let M := max_dim hw0 hw1 hw2 hw3 in
  let tiles := [(t0, hw0); (t1, hw1); (t2, hw2); (t3, hw3)] in
  M = Z.max (Z.max (Z.max hw0.1 hw1.1) hw0.2) hw2.2
  /\ ((forall k, k ∈ mosaic_reserved -> k ∉ img_fields ++ bf0) ->
      forall key, key ∈ img_fields ->
        exists a,
          out !! key = Some (VImg mask a)
          /\ forall y x c,
               (forall i t hw, tiles !! i = Some (t, hw) ->
                  ~ ((tile_offset i M hw).2 <= y < (tile_offset i M hw).2 + hw.1
                     /\ (tile_offset i M hw).1 <= x
                        < (tile_offset i M hw).1 + hw.2)) ->
               pix a y x c = uint8 pad_val).
Proof.
  intros Hcall Himg Hne Hr0 Hr1 Hr2 Hr3 Hlocs M tiles.
  unfold mosaic_compose in Hcall.
  destruct (pad_shape_of_dims t0 hw0 (tile_pad_shape _ _ _ _ Hr0)) as [r0 Hp0].
  destruct (pad_shape_of_dims t1 hw1 (tile_pad_shape _ _ _ _ Hr1)) as [r1 Hp1].
  destruct (pad_shape_of_dims t2 hw2 (tile_pad_shape _ _ _ _ Hr2)) as [r2 Hp2].
  destruct (pad_shape_of_dims t3 hw3 (tile_pad_shape _ _ _ _ Hr3)) as [r3 Hp3].
  cbn [for_each] in Hcall. rewrite Hp0, Hp1, Hp2, Hp3 in Hcall.
  simpl in Hcall.
  set (cxy := Z.max (Z.max (Z.max hw0.1 hw1.1) hw0.2) hw2.2) in *.
  pose proof (tile_positive _ _ _ _ Hr0) as [Hh0 Hw0].
  pose proof (tile_positive _ _ _ _ Hr1) as [Hh1 Hw1].
  pose proof (tile_positive _ _ _ _ Hr2) as [Hh2 Hw2].
  pose proof (tile_positive _ _ _ _ Hr3) as [Hh3 Hw3].
  apply bind_Ok in Hcall as (c0 & _ & Hcall).
  rewrite Himg in Hcall. simpl in Hcall.
  apply bind_Ok in Hcall as (canvas0 & Hnew & Hcall).
  apply bind_Ok in Hcall as ([[tiles' canvas4] st4] & Hplace & Hcall).
  apply bind_Ok in Hplace as ([[[t0' canvas1] sta] q0] & Hpl0 & Hplace).
  apply bind_Ok in Hplace as ([[rest1 ?] ?] & Hplace & [= <- <- <-]).
  apply bind_Ok in Hplace as ([[[t1' canvas2] stb] q1] & Hpl1 & Hplace).
  apply bind_Ok in Hplace as ([[rest2 ?] ?] & Hplace & [= <- <- <-]).
  apply bind_Ok in Hplace as ([[[t2' canvas3] stc] q2] & Hpl2 & Hplace).
  apply bind_Ok in Hplace as ([[rest3 ?] ?] & Hplace & [= <- <- <-]).
  apply bind_Ok in Hplace as ([[[t3' canvas4'] std] q3] & Hpl3 & [= <- <- <-]).
  apply NoDup_app in Hlocs as (Hnd0 & _ & Hlocs).
  apply NoDup_app in Hlocs as (Hnd1 & _ & Hlocs).
  apply NoDup_app in Hlocs as (Hnd2 & _ & Hnd3).
  assert (Hcxy : 0 < cxy) by (unfold cxy; lia).
  assert (Hcan0 : canvas_dims canvas0 (cxy * 2) (cxy * 2) c0).
  { apply (new_canvas_inv _ _ _ _ _ _ _ Hnew). intros k a.
    by rewrite lookup_empty. }
  destruct (place_tile_inv _ _ _ _ _ _ _ _ _ _ _ bf0 hw0 c0 Hpl0)
    as (Hcan1 & Hcf0 & Hk0 & Hd0 & _ & _ & Hb0);
    [lia | done | done | done | simpl; unfold cxy; lia
    | simpl; unfold cxy; lia |].
  destruct (place_tile_inv _ _ _ _ _ _ _ _ _ _ _ bf1 hw1 c0 Hpl1)
    as (Hcan2 & Hcf1 & Hk1 & _);
    [lia | done | done | done | simpl; unfold cxy; lia
    | simpl; unfold cxy; lia |].
  destruct (place_tile_inv _ _ _ _ _ _ _ _ _ _ _ bf2 hw2 c0 Hpl2)
    as (Hcan3 & Hcf2 & Hk2 & _);
    [lia | done | done | done | simpl; unfold cxy; lia
    | simpl; unfold cxy; lia |].
  destruct (place_tile_inv _ _ _ _ _ _ _ _ _ _ _ bf3 hw3 c0 Hpl3)
    as (Hcan4 & Hcf3 & Hk3 & _);
    [lia | done | done | done | simpl; unfold cxy; lia
    | simpl; unfold cxy; lia |].
  assert (HM : M = cxy).
  { destruct img_fields as [|key0 ?]; [done|].
    destruct (Hk1 key0) as (Hy1 & Hx1 & _); [left|].
    destruct (Hk2 key0) as (Hy2 & Hx2 & _); [left|].
    destruct (Hk3 key0) as (Hy3 & Hx3 & _); [left|].
    simpl in *. unfold M, max_dim, cxy in *. lia. }
  clearbody M. subst M. split; [done|]. intros Hres.
  clearbody cxy.
  assert (Hif : "img_fields" ∉ bf0).
  { intros Hin. destruct (Hb0 _ Hin) as (bs & Hr & _).
    by eapply get_keys_not_read. }
  assert (Hbf : "bbox_fields" ∉ bf0).
  { intros Hin. destruct (Hb0 _ Hin) as (bs & Hr & _).
    eapply get_keys_not_read; [|exact Hr].
    apply (tile_bbox_fields _ _ _ _ Hr0). }
  simpl in Hcall.
  rewrite (get_keys_ext t0 t0' "img_fields" []) in Hcall by (by apply Hd0).
  rewrite (get_keys_ext t0 t0' "bbox_fields" []) in Hcall by (by apply Hd0).
  rewrite Himg, (tile_bbox_fields _ _ _ _ Hr0) in Hcall. simpl in Hcall.
  apply bind_Ok in Hcall as (out1 & Hpc & Hcall).
  apply bind_Ok in Hcall as (out2 & Hpb & Hcall).
  apply bind_Ok in Hcall as (labels & Hlab & Hcall).
  injection Hcall as <- <-.
  destruct (put_canvas_inv _ _ _ _ Hpc) as [Hpcf Hpck].
  destruct (put_bboxes_inv _ _ _ _ _ Hpb) as [Hpbf Hpbk].
  intros key Hkey.
  destruct (Hk0 key Hkey)
    as (_ & _ & a0 & a1 & s0 & Ha0 & Ha1 & Hs0' & Hp0').
  destruct (Hk1 key Hkey)
    as (_ & _ & a1' & a2 & s1 & Ha1' & Ha2 & Hs1' & Hp1').
  destruct (Hk2 key Hkey)
    as (_ & _ & a2' & a3 & s2 & Ha2' & Ha3 & Hs2' & Hp2').
  destruct (Hk3 key Hkey)
    as (_ & _ & a3' & a4 & s3 & Ha3' & Ha4 & Hs3' & Hp3').
  rewrite Ha1 in Ha1'. injection Ha1' as <-.
  rewrite Ha2 in Ha2'. injection Ha2' as <-.
  rewrite Ha3 in Ha3'. injection Ha3' as <-.
  destruct (tile_imgs _ _ _ _ Hr0 key Hkey) as (s0' & Hs0'' & Hsh0 & Hsw0).
  destruct (tile_imgs _ _ _ _ Hr1 key Hkey) as (s1' & Hs1'' & Hsh1 & Hsw1).
  destruct (tile_imgs _ _ _ _ Hr2 key Hkey) as (s2' & Hs2'' & Hsh2 & Hsw2).
  destruct (tile_imgs _ _ _ _ Hr3 key Hkey) as (s3' & Hs3'' & Hsh3 & Hsw3).
  rewrite Hs0' in Hs0''. injection Hs0'' as <-.
  rewrite Hs1' in Hs1''. injection Hs1'' as <-.
  rewrite Hs2' in Hs2''. injection Hs2'' as <-.
  rewrite Hs3' in Hs3''. injection Hs3'' as <-.
  assert (Hnb : key ∉ bf0).
  { intros Hin. destruct (Hb0 _ Hin) as (bs & Hr & _).
    exact (read_boxes_not_img _ _ _ _ _ Hs0' Hr). }
  destruct (Hpck key Hkey) as (a & Ha & Hout1).
  rewrite Ha4 in Ha. injection Ha as <-.
  assert (Hpad : forall y x c, pix a0 y x c = uint8 pad_val).
  { destruct (new_canvas_pix _ _ _ _ _ _ _ _ _ Hnew Ha0) as [He|Hpad];
      [by rewrite lookup_empty in He|done]. }
  exists a4. split.
  { rewrite !lookup_insert_ne.
    - by rewrite Hpbf.
    - intros <-. apply (Hres "gt_labels"); [|apply elem_of_app; by left].
      unfold mosaic_reserved. repeat (first [left | right]).
    - intros <-. apply (Hres "img_shape"); [|apply elem_of_app; by left].
      unfold mosaic_reserved. repeat (first [left | right]).
    - intros <-. apply (Hres "ori_shape"); [|apply elem_of_app; by left].
      unfold mosaic_reserved. repeat (first [left | right]).
    - intros <-. apply (Hres "flip"); [|apply elem_of_app; by left].
      unfold mosaic_reserved. repeat (first [left | right]).
    - intros <-. apply (Hres "flip_direction"); [|apply elem_of_app; by left].
      unfold mosaic_reserved. repeat (first [left | right]). }
  intros y x c Hout.
  pose proof (Hout 0%nat t0 hw0 eq_refl) as Ho0.
  pose proof (Hout 1%nat t1 hw1 eq_refl) as Ho1.
  pose proof (Hout 2%nat t2 hw2 eq_refl) as Ho2.
  pose proof (Hout 3%nat t3 hw3 eq_refl) as Ho3.
  simpl in *.
  rewrite Hp3', pasted_pix_outside by lia.
  rewrite Hp2', pasted_pix_outside by lia.
  rewrite Hp1', pasted_pix_outside by lia.
  rewrite Hp0', pasted_pix_outside by lia.
  apply Hpad.
Qed.

(** transforms.py, MosaicPipeline.__call__.  The half side of the
    canvas is [max(h0, h1, w0, w2)]: with well-formed tiles, one of
    which is larger than that in height or width, the call does not
    return a mosaic but raises. *)
Theorem MosaicPipeline_rejects_large_tile results st st1 t0 t1 t2 t3
    img_fields bf0 bf1 bf2 bf3 hw0 hw1 hw2 hw3 :
  load_tiles mask batch_rand_others prepare individual_pipeline results st
  = Ok ([t0; t1; t2; t3], st1) ->
  get_keys mask t0 "img_fields" [] = Ok img_fields ->
  img_fields <> [] ->
  tile_ready t0 img_fields bf0 hw0 ->
  tile_ready t1 img_fields bf1 hw1 ->
  tile_ready t2 img_fields bf2 hw2 ->
  tile_ready t3 img_fields bf3 hw3 ->
  NoDup (box_locations t0 bf0 ++ box_locations t1 bf1
         ++ box_locations t2 bf2 ++ box_locations t3 bf3) ->
  Z.max (Z.max (Z.max hw0.1 hw1.1) hw0.2) hw2.2 < max_dim hw0 hw1 hw2 hw3 ->
  exists e,
    MosaicPipeline_call mask batch_rand_others prepare individual_pipeline
      pad_val results st = Raise e.
Proof.
  intros Hload Himg Hne Hr0 Hr1 Hr2 Hr3 Hlocs Hlarge.
  unfold MosaicPipeline_call. rewrite Hload. simpl.
  destruct (mosaic_compose mask pad_val results [t0; t1; t2; t3] st1)
    as [[out st2]|e] eqn:Hcall; [|eauto].
  destruct (mosaic_compose_canvas _ _ _ _ _ _ _ _ _ _ _ _ _ _ _ _ _
              Hcall Himg Hne Hr0 Hr1 Hr2 Hr3 Hlocs) as [HM _].
  lia.
Qed.

(** transforms.py, MosaicPipeline.__call__.  In a returned mosaic every
    entry of an image outside the rectangles of the four tiles is the
    padding value, as an unsigned byte. *)
Theorem MosaicPipeline_padding results st st1 st2 out t0 t1 t2 t3
    img_fields bf0 bf1 bf2 bf3 hw0 hw1 hw2 hw3 :
  load_tiles mask batch_rand_others prepare individual_pipeline results st
  = Ok ([t0; t1; t2; t3], st1) ->
  MosaicPipeline_call mask batch_rand_others prepare individual_pipeline
    pad_val results st = Ok (out, st2) ->
  get_keys mask t0 "img_fields" [] = Ok img_fields ->
  img_fields <> [] ->
  tile_ready t0 img_fields bf0 hw0 ->
  tile_ready t1 img_fields bf1 hw1 ->
  tile_ready t2 img_fields bf2 hw2 ->
  tile_ready t3 img_fields bf3 hw3 ->
  NoDup (box_locations t0 bf0 ++ box_locations t1 bf1
         ++ box_locations t2 bf2 ++ box_locations t3 bf3) ->
  (forall k, k ∈ mosaic_reserved -> k ∉ img_fields ++ bf0) ->
  let M := max_dim hw0 hw1 hw2 hw3 in
  let tiles := [(t0, hw0); (t1, hw1); (t2, hw2); (t3, hw3)] in
  forall key, key ∈ img_fields ->
    exists a,
      out !! key = Some (VImg mask a)
      /\ forall y x c,
           (forall i t hw, tiles !! i = Some (t, hw) ->
              ~ ((tile_offset i M hw).2 <= y < (tile_offset i M hw).2 + hw.1
                 /\ (tile_offset i M hw).1 <= x
                    < (tile_offset i M hw).1 + hw.2)) ->
           pix a y x c = uint8 pad_val.
Proof.
  intros Hload Hcall Himg Hne Hr0 Hr1 Hr2 Hr3 Hlocs Hres.
  unfold MosaicPipeline_call in Hcall. rewrite Hload in Hcall.
  simpl in Hcall.
  by destruct (mosaic_compose_canvas _ _ _ _ _ _ _ _ _ _ _ _ _ _ _ _ _
                 Hcall Himg Hne Hr0 Hr1 Hr2 Hr3 Hlocs) as [_ Hpad];
    apply Hpad.
Qed.

End MosaicPipelineMore.

Lemma example_tile_ready (h w : Z) (boxes : value unit) (label : Z) :
  0 < h -> 0 < w ->
  tile_ready (example_tile h w boxes label) ["img"] ["gt_bboxes"] (h, w).
Proof.
  intros Hh Hw. split.
  - reflexivity.
  - simpl. lia.
  - intros key ->%list_elem_of_singleton. eexists. split; [reflexivity|].
    split; reflexivity.
  - reflexivity.
  - apply NoDup_singleton.
Qed.

Lemma MosaicPipeline_rejects_large_tile_witness :
  let t0 := example_tile 4 6 (VBoxes unit []) 7 in
  let t1 := example_tile 6 5 (VBoxes unit []) 8 in
  let t2 := example_tile 3 6 (VBoxes unit []) 9 in
  let t3 := example_tile 8 8 (VBoxes unit []) 10 in
  exists e,
    MosaicPipeline_call unit (fun _ _ => [1; 2; 3])
      (fun idx => {[ "_idx" := VInt unit idx ]})
      (example_pipeline t0 t1 t2 t3) 0 example_sample ∅ = Raise e.
Proof.
  intros t0 t1 t2 t3.
  apply (MosaicPipeline_rejects_large_tile (fun _ _ => [1; 2; 3])
           (fun idx => {[ "_idx" := VInt unit idx ]})
           (example_pipeline t0 t1 t2 t3) 0 example_sample ∅ ∅
           t0 t1 t2 t3 ["img"] ["gt_bboxes"] ["gt_bboxes"] ["gt_bboxes"]
           ["gt_bboxes"] (4, 6) (6, 5) (3, 6) (8, 8)).
  - vm_compute. reflexivity.
  - reflexivity.
  - discriminate.
  - apply example_tile_ready; lia.
  - apply example_tile_ready; lia.
  - apply example_tile_ready; lia.
  - apply example_tile_ready; lia.
  - vm_compute. apply NoDup_nil_2.
  - vm_compute. reflexivity.
Defined.

(** On these tiles the exception is the [ValueError] of the assignment
    of the fourth tile to a slice of the canvas that is too small. *)
Example MosaicPipeline_large_tile_example :
  MosaicPipeline_call unit (fun _ _ => [1; 2; 3])
    (fun idx => {[ "_idx" := VInt unit idx ]})
    (example_pipeline (example_tile 4 6 (VBoxes unit []) 7)
       (example_tile 6 5 (VBoxes unit []) 8)
       (example_tile 3 6 (VBoxes unit []) 9)
       (example_tile 8 8 (VBoxes unit []) 10)) 0 example_sample ∅
  = Raise ValueError.
Proof. vm_compute. reflexivity. Qed.

Lemma MosaicPipeline_padding_witness :
  let t0 := example_tile 4 6 (VBoxes unit []) 7 in
  let t1 := example_tile 6 5 (VBoxes unit []) 8 in
  let t2 := example_tile 3 6 (VBoxes unit []) 9 in
  let t3 := example_tile 2 2 (VBoxes unit []) 10 in
  let out :=
    match MosaicPipeline_call unit (fun _ _ => [1; 2; 3])
            (fun idx => {[ "_idx" := VInt unit idx ]})
            (example_pipeline t0 t1 t2 t3) 114 example_sample ∅ with
    | Ok (out, _) => out
    | Raise _ => ∅
    end in
  let M := max_dim (4, 6) (6, 5) (3, 6) (2, 2) in
  let tiles := [(t0, (4, 6)); (t1, (6, 5)); (t2, (3, 6)); (t3, (2, 2))] in
  exists a,
    out !! "img" = Some (VImg unit a)
    /\ forall y x c,
         (forall i t hw, tiles !! i = Some (t, hw) ->
            ~ ((tile_offset i M hw).2 <= y < (tile_offset i M hw).2 + hw.1
               /\ (tile_offset i M hw).1 <= x
                  < (tile_offset i M hw).1 + hw.2)) ->
         pix a y x c = uint8 114.
Proof.
  intros t0 t1 t2 t3 out M tiles.
  apply (MosaicPipeline_padding (fun _ _ => [1; 2; 3])
           (fun idx => {[ "_idx" := VInt unit idx ]})
           (example_pipeline t0 t1 t2 t3) 114 example_sample ∅ ∅ ∅ out
           t0 t1 t2 t3 ["img"] ["gt_bboxes"] ["gt_bboxes"] ["gt_bboxes"]
           ["gt_bboxes"] (4, 6) (6, 5) (3, 6) (2, 2)).
  - vm_compute. reflexivity.
  - vm_compute. reflexivity.
  - reflexivity.
  - discriminate.
  - apply example_tile_ready; lia.
  - apply example_tile_ready; lia.
  - apply example_tile_ready; lia.
  - apply example_tile_ready; lia.
  - vm_compute. apply NoDup_nil_2.
  - intros k Hk Hin. unfold mosaic_reserved in Hk. simpl in Hin.
    repeat (apply elem_of_cons in Hin as [->|Hin]);
      repeat (apply elem_of_cons in Hk as [Hk|Hk]; [discriminate Hk|]);
      by apply not_elem_of_nil in Hk || by apply not_elem_of_nil in Hin.
  - left.
Defined.

(** ** transforms.py: JointRandomFlip.__call__ *)

Section FlipCall.

Context {mask : Type}.
Variable imflip : image -> value mask -> res image.
Variable masks_flip : list mask -> value mask -> res (list mask).

Implicit Type results out : gmap string (value mask).
Implicit Type st : gmap positive (list box).

Lemma get_keys_agree results results' k default :
  results' !! k = results !! k ->
  get_keys mask results' k default = get_keys mask results k default.
Proof. unfold get_keys. by intros ->. Qed.

(** The loop over the images replaces images by images and touches
    nothing else. *)
Lemma flip_images_inv keys results out :
  flip_images mask imflip keys results = Ok out ->
  (forall k, k ∉ keys -> out !! k = results !! k)
  /\ (forall k, k ∈ keys ->
        exists a a', results !! k = Some (VImg mask a)
                     /\ out !! k = Some (VImg mask a')).
Proof.
  revert results. induction keys as [|key keys IH]; intros results; simpl.
  - intros [= <-]. split; [done|]. by intros k []%not_elem_of_nil.
  - intros (v & Hv & Hrun)%bind_Ok.
    apply bind_Ok in Hrun as (d & _ & Hrun).
    apply bind_Ok in Hrun as (img & Himg & Hrun).
    apply bind_Ok in Hrun as (img' & _ & Hrun).
    unfold getitem in Hv. destruct (results !! key) as [v'|] eqn:Hkey; [|done].
    injection Hv as ->. destruct v; try done. injection Himg as ->.
    destruct (IH _ Hrun) as [Hframe Hkeys]. split.
    + intros k [Hne Hk]%not_elem_of_cons.
      rewrite Hframe by done. by rewrite lookup_insert_ne.
    + intros k Hin. destruct (decide (k ∈ keys)) as [Hin'|Hnotin].
      * destruct (Hkeys k Hin') as (a & a' & Ha & Ha').
        destruct (decide (k = key)) as [->|Hne].
        -- exists img, a'. done.
        -- rewrite lookup_insert_ne in Ha by done. exists a, a'. done.
      * apply elem_of_cons in Hin as [->|Hin]; [|done].
        exists img, img'. split; [done|].
        rewrite Hframe by done. by rewrite lookup_insert_eq.
Qed.

(** The loop over the masks replaces mask containers by mask containers
    and touches nothing else. *)
Lemma flip_masks_inv keys results out :
  flip_masks mask masks_flip keys results = Ok out ->
  (forall k, k ∉ keys -> out !! k = results !! k)
  /\ (forall k, k ∈ keys ->
        exists ms ms', results !! k = Some (VMasks mask ms)
                       /\ out !! k = Some (VMasks mask ms')).
Proof.
  revert results. induction keys as [|key keys IH]; intros results; simpl.
  - intros [= <-]. split; [done|]. by intros k []%not_elem_of_nil.
  - intros (v & Hv & Hrun)%bind_Ok.
    apply bind_Ok in Hrun as (d & _ & Hrun).
    apply bind_Ok in Hrun as (ms & Hms & Hrun).
    apply bind_Ok in Hrun as (ms' & _ & Hrun).
    unfold getitem in Hv. destruct (results !! key) as [v'|] eqn:Hkey; [|done].
    injection Hv as ->. destruct v; try done. injection Hms as ->.
    destruct (IH _ Hrun) as [Hframe Hkeys]. split.
    + intros k [Hne Hk]%not_elem_of_cons.
      rewrite Hframe by done. by rewrite lookup_insert_ne.
    + intros k Hin. destruct (decide (k ∈ keys)) as [Hin'|Hnotin].
      * destruct (Hkeys k Hin') as (a & a' & Ha & Ha').
        destruct (decide (k = key)) as [->|Hne].
        -- exists ms, a'. done.
        -- rewrite lookup_insert_ne in Ha by done. exists a, a'. done.
      * apply elem_of_cons in Hin as [->|Hin]; [|done].
        exists ms, ms'. split; [done|].
        rewrite Hframe by done. by rewrite lookup_insert_eq.
Qed.

(** The loop over the box fields touches nothing else, and flips the
    array of each field once when no field is listed twice. *)
Lemma flip_bboxes_inv st keys results out img_shape d :
  flip_bboxes mask st keys results = Ok out ->
  results !! "img_shape" = Some (VShape mask img_shape) ->
  results !! "flip_direction" = Some (VStr mask d) ->
  NoDup keys ->
  (forall k, k ∉ keys -> out !! k = results !! k)
  /\ (forall k, k ∈ keys ->
        exists bs bs',
          read_boxes mask st k results = Ok bs
          /\ flip_box_array mask bs (VShape mask img_shape) (VStr mask d)
             = Ok bs'
          /\ out !! k = Some (VBoxes mask bs')).
Proof.
  revert results. induction keys as [|key keys IH];
    intros results Hrun Hshape Hdir Hnd; simpl in Hrun.
  - injection Hrun as <-. split; [done|]. by intros k []%not_elem_of_nil.
  - apply bind_Ok in Hrun as (v & Hv & Hrun).
    apply bind_Ok in Hrun as (s & Hs & Hrun).
    apply bind_Ok in Hrun as (dv & Hd & Hrun).
    apply bind_Ok in Hrun as (bs & Hbs & Hrun).
    apply bind_Ok in Hrun as (bs' & Hflip & Hrun).
    unfold getitem in Hv, Hs, Hd. rewrite Hshape in Hs. rewrite Hdir in Hd.
    injection Hs as <-. injection Hd as <-.
    destruct (results !! key) as [v'|] eqn:Hkey; [|done]. injection Hv as ->.
    apply NoDup_cons in Hnd as [Hnotin Hnd].
    assert (Hread : read_boxes mask st key results = Ok bs).
    { unfold read_boxes, getitem. rewrite Hkey. by destruct v. }
    assert (Hne_shape : key <> "img_shape").
    { intros ->. rewrite Hshape in Hkey. injection Hkey as <-. done. }
    assert (Hne_dir : key <> "flip_direction").
    { intros ->. rewrite Hdir in Hkey. injection Hkey as <-. done. }
    destruct (IH _ Hrun) as [Hframe Hkeys]; [by rewrite lookup_insert_ne..|done|].
    split.
    + intros k [Hne Hk]%not_elem_of_cons.
      rewrite Hframe by done. by rewrite lookup_insert_ne.
    + intros k [->|Hin]%elem_of_cons.
      * exists bs, bs'. split; [done|]. split; [done|].
        rewrite Hframe by done. by rewrite lookup_insert_eq.
      * destruct (Hkeys k Hin) as (bs0 & bs0' & Hb0 & Hf0 & Ho0).
        exists bs0, bs0'. split; [|done].
        rewrite <- Hb0. symmetry. apply read_boxes_ext; [|done].
        rewrite lookup_insert_ne; [done|]. by intros ->.
Qed.


Lemma get_keys_no_img results k default ks a :
  get_keys mask results k default = Ok ks ->
  results !! k <> Some (VImg mask a).
Proof. unfold get_keys. by intros Hk Ha; rewrite Ha in Hk. Qed.

Lemma get_keys_no_masks results k default ks ms :
  get_keys mask results k default = Ok ks ->
  results !! k <> Some (VMasks mask ms).
Proof. unfold get_keys. by intros Hk Ha; rewrite Ha in Hk. Qed.

Lemma row_box_rows (rs : list (list Q)) (bs : list box) :
  for_each row_box rs = Ok bs -> map box_row bs = rs.
Proof.
  revert bs. induction rs as [|r rs IH]; intros bs; simpl.
  - by intros [= <-].
  - intros (b & Hb & Hrun)%bind_Ok.
    apply bind_Ok in Hrun as (bs0 & Hbs0 & [= <-]).
    simpl. rewrite (IH _ Hbs0). f_equal.
    destruct r as [|x1 [|y1 [|x2 [|y2 [|? ?]]]]]; try done.
    by injection Hb as <-.
Qed.

(** [bbox_flip] reads of [img_shape] only the entries of its direction. *)
Lemma flip_shape_bbox_flip (bboxes : array2 Q) (h w : Z) (rest : list Z)
    (d : string) (hw : Z * Z) :
  flip_shape mask (VShape mask (h :: w :: rest)) d = Ok hw ->
  bbox_flip bboxes hw d = bbox_flip bboxes (h, w) d.
Proof.
  unfold flip_shape, bbox_flip. simpl.
  destruct (decide (_ = 0%nat)); [|done].
  repeat case_decide; intros [= <-]; try done; subst; done.
Qed.

(** transforms.py, JointRandomFlip.__call__.  On a record that asks for
    a flip in a direction [d], with an image shape [(h, w, ...)] and no
    box field listed twice, a call that returns has replaced the array
    of every box field by what [bbox_flip] makes of it for [(h, w)] and
    [d], has not drawn from the generator, and has left every key
    outside the image, box, mask and segmentation fields as it was. *)
Theorem JointRandomFlip_call_flips_boxes (self : JointRandomFlip) (g : rng)
    (pos pos' : nat) st results out (d : string) (h w : Z) (rest : list Z)
    (img_fields bbox_fields mask_fields seg_fields : list string) :
  JointRandomFlip_call mask imflip masks_flip self g pos st results
  = Ok (out, pos') ->
  results !! "flip" = Some (VBool mask true) ->
  results !! "flip_direction" = Some (VStr mask d) ->
  results !! "img_shape" = Some (VShape mask (h :: w :: rest)) ->
  get_keys mask results "img_fields" ["img"] = Ok img_fields ->
  get_keys mask results "bbox_fields" [] = Ok bbox_fields ->
  get_keys mask results "mask_fields" [] = Ok mask_fields ->
  get_keys mask results "seg_fields" [] = Ok seg_fields ->
  NoDup bbox_fields ->
  pos' = pos
  /\ (forall k,
        k ∉ img_fields ++ bbox_fields ++ mask_fields ++ seg_fields ->
        out !! k = results !! k)
  /\ (forall key, key ∈ bbox_fields ->
        exists bs bs' flipped,
          read_boxes mask st key results = Ok bs
          /\ bbox_flip {| ncols := 4; rows := map box_row bs |} (h, w) d
             = Ok flipped
          /\ map box_row bs' = rows flipped
          /\ out !! key = Some (VBoxes mask bs')).
Proof.
  intros Hrun Hflip Hdir Hshape Himg Hbbox Hmask Hseg Hnd.
  unfold JointRandomFlip_call in Hrun. rewrite Hflip in Hrun. simpl in Hrun.
  rewrite Hdir in Hrun. simpl in Hrun.
  unfold getitem in Hrun at 1. rewrite Hflip in Hrun. simpl in Hrun.
  rewrite Himg in Hrun. simpl in Hrun.
  apply bind_Ok in Hrun as (r1 & H1 & Hrun).
  destruct (flip_images_inv _ _ _ H1) as [F1 K1].
  assert (N1 : forall k, (forall a, results !! k <> Some (VImg mask a)) ->
                 r1 !! k = results !! k).
  { intros k Hk. apply F1. intros Hin.
    destruct (K1 k Hin) as (a & a' & Ha & _). by apply (Hk a). }
  rewrite (get_keys_agree results r1), Hbbox in Hrun
    by (apply N1; intros a; exact (get_keys_no_img _ _ _ _ a Hbbox)).
  simpl in Hrun. apply bind_Ok in Hrun as (r2 & H2 & Hrun).
  destruct (flip_bboxes_inv st bbox_fields r1 r2 (h :: w :: rest) d H2)
    as [F2 K2];
    [by rewrite N1, ?Hshape, ?Hdir by (intros a; congruence)..|done|].
  assert (N2 : forall k, (forall bs, read_boxes mask st k r1 <> Ok bs) ->
                 r2 !! k = r1 !! k).
  { intros k Hk. apply F2. intros Hin.
    destruct (K2 k Hin) as (bs & bs' & Hb & _). by apply (Hk bs). }
  assert (Hmask1 : get_keys mask r1 "mask_fields" [] = Ok mask_fields).
  { rewrite (get_keys_agree results r1); [done|].
    apply N1. intros a. exact (get_keys_no_img _ _ _ _ a Hmask). }
  assert (Hseg1 : get_keys mask r1 "seg_fields" [] = Ok seg_fields).
  { rewrite (get_keys_agree results r1); [done|].
    apply N1. intros a. exact (get_keys_no_img _ _ _ _ a Hseg). }
  rewrite (get_keys_agree r1 r2), Hmask1 in Hrun
    by (apply N2; intros bs Hb;
        exact (get_keys_not_read _ _ _ _ _ _ Hmask1 Hb)).
  assert (Hseg2 : get_keys mask r2 "seg_fields" [] = Ok seg_fields).
  { rewrite (get_keys_agree r1 r2); [done|].
    apply N2. intros bs Hb. exact (get_keys_not_read _ _ _ _ _ _ Hseg1 Hb). }
  simpl in Hrun. apply bind_Ok in Hrun as (r3 & H3 & Hrun).
  destruct (flip_masks_inv _ _ _ H3) as [F3 K3].
  assert (N3 : forall k, (forall ms, r2 !! k <> Some (VMasks mask ms)) ->
                 r3 !! k = r2 !! k).
  { intros k Hk. apply F3. intros Hin.
    destruct (K3 k Hin) as (ms & ms' & Ha & _). by apply (Hk ms). }
  rewrite (get_keys_agree r2 r3), Hseg2 in Hrun
    by (apply N3; intros ms; exact (get_keys_no_masks _ _ _ _ ms Hseg2)).
  simpl in Hrun. apply bind_Ok in Hrun as (r4 & H4 & [= <- <-]).
  destruct (flip_images_inv _ _ _ H4) as [F4 K4].
  split; [done|]. split.
  - intros k Hk. rewrite !not_elem_of_app in Hk.
    destruct Hk as (Hk1 & Hk2 & Hk3 & Hk4).
    rewrite F4, F3, F2, F1; done.
  - intros key Hkey. destruct (K2 key Hkey) as (bs & bs' & Hb & Hf & Ho).
    assert (Hsame : r1 !! key = results !! key).
    { apply F1. intros Hin. destruct (K1 key Hin) as (a & a' & _ & Ha').
      unfold read_boxes, getitem in Hb. by rewrite Ha' in Hb. }
    unfold flip_box_array in Hf.
    apply bind_Ok in Hf as (hw & Hhw & Hf).
    apply bind_Ok in Hf as (flipped & Hfl & Hrows).
    exists bs, bs', flipped. split; [|split; [|split]].
    + rewrite <- Hb. symmetry. by apply read_boxes_ext.
    + rewrite <- Hfl. symmetry. by eapply flip_shape_bbox_flip.
    + by apply row_box_rows.
    + rewrite F4, F3; [done|..].
      * intros Hin. destruct (K3 key Hin) as (ms & ms' & Ha & _).
        by rewrite Ho in Ha.
      * intros Hin. destruct (K4 key Hin) as (a & a' & Ha & _).
        rewrite F3 in Ha; [by rewrite Ho in Ha|].
        intros Hin3. destruct (K3 key Hin3) as (ms & ms' & Ha3 & _).
        by rewrite Ho in Ha3.
Qed.

(** transforms.py, JointRandomFlip.__call__.  A record that already has
    a ["flip"] entry but no ["flip_direction"] makes the call fail with
    [UnboundLocalError]: the direction is only bound when the call
    samples the flip itself. *)
Theorem JointRandomFlip_call_unbound_direction (self : JointRandomFlip)
    (g : rng) (pos : nat) st results :
  is_Some (results !! "flip") ->
  results !! "flip_direction" = None ->
  JointRandomFlip_call mask imflip masks_flip self g pos st results
  = Raise UnboundLocalError.
Proof.
  intros [v Hflip] Hdir. unfold JointRandomFlip_call.
  rewrite Hflip. simpl. by rewrite Hdir.
Qed.

(** transforms.py, JointRandomFlip.__call__.  A transform built with the
    default [flip_ratio=None] fails with [TypeError] on every record
    that has no ["flip"] entry. *)
Theorem JointRandomFlip_call_default_ratio (self : JointRandomFlip)
    (g : rng) (pos : nat) st results :
  flip_ratio self = RatioNone ->
  results !! "flip" = None ->
  JointRandomFlip_call mask imflip masks_flip self g pos st results
  = Raise TypeError.
Proof.
  intros Hratio Hflip. unfold JointRandomFlip_call.
  rewrite Hflip. unfold sample_direction, flip_ratio_list.
  by rewrite Hratio.
Qed.

End FlipCall.

(** *** Sampling the flip *)

Lemma inject_Z_of_nat_S (n : nat) :
  inject_Z (Z.of_nat (S n)) == inject_Z (Z.of_nat n) + 1.
Proof.
  rewrite Nat2Z.inj_succ. unfold Z.succ. rewrite inject_Z_plus. reflexivity.
Qed.

Lemma inject_Z_of_nat_nonneg (n : nat) : (0 <= inject_Z (Z.of_nat n))%Q.
Proof. change 0%Q with (inject_Z 0). rewrite <- Zle_Qle. lia. Qed.

Lemma foldl_Qplus_replicate (n : nat) (acc s : Q) :
  foldl Qplus acc (replicate n s) == acc + inject_Z (Z.of_nat n) * s.
Proof.
  revert acc. induction n as [|n IH]; intros acc; cbn [replicate foldl].
  - change (inject_Z (Z.of_nat 0)) with 0%Q. ring.
  - rewrite IH, inject_Z_of_nat_S. ring.
Qed.

Lemma cumsum_app (acc : Q) (l1 l2 : list Q) :
  cumsum acc (l1 ++ l2) = cumsum acc l1 ++ cumsum (foldl Qplus acc l1) l2.
Proof.
  revert acc. induction l1 as [|x l1 IH]; intros acc; [done|].
  simpl. by rewrite IH.
Qed.

Lemma length_cumsum (acc : Q) (l : list Q) : length (cumsum acc l) = length l.
Proof.
  revert acc. induction l as [|x l IH]; intros acc; [done|].
  simpl. by rewrite IH.
Qed.

(** The cumulated sums of [n] equal shares [s] stay below [n * s], and
    reach it. *)
Lemma cumsum_replicate_le (n : nat) (acc s : Q) :
  (0 <= s)%Q ->
  Forall (fun c => (c <= acc + inject_Z (Z.of_nat n) * s)%Q)
    (cumsum acc (replicate n s)).
Proof.
  intros Hs. revert acc. induction n as [|n IH]; intros acc;
    cbn [replicate cumsum]; [constructor|].
  pose proof (inject_Z_of_nat_nonneg n) as Hn.
  pose proof (inject_Z_of_nat_S n) as HS.
  set (qn := inject_Z (Z.of_nat n)) in *.
  set (qS := inject_Z (Z.of_nat (S n))) in *.
  constructor; [nra|].
  eapply Forall_impl; [apply IH|]. simpl. fold qn. intros c Hc. nra.
Qed.

Lemma cumsum_replicate_last (n : nat) (acc s : Q) :
  (0 < n)%nat ->
  Exists (fun c => c == acc + inject_Z (Z.of_nat n) * s)
    (cumsum acc (replicate n s)).
Proof.
  revert acc. induction n as [|n IH]; intros acc Hn; [lia|].
  cbn [replicate cumsum]. destruct n as [|n].
  - left. change (inject_Z (Z.of_nat 1)) with 1%Q. ring.
  - right. eapply Exists_impl; [apply IH; lia|]. simpl. intros c ->.
    rewrite (inject_Z_of_nat_S (S n)). ring.
Qed.

Lemma filter_length_all {A : Type} (f : A -> bool) (l : list A) :
  Forall (fun x => f x = true) l -> length (List.filter f l) = length l.
Proof.
  induction 1 as [|x l Hx _ IH]; [done|]. simpl. rewrite Hx. simpl. by rewrite IH.
Qed.

Lemma filter_length_le {A : Type} (f : A -> bool) (l : list A) :
  (length (List.filter f l) <= length l)%nat.
Proof.
  induction l as [|x l IH]; [done|]. simpl. destruct (f x); simpl; lia.
Qed.

Lemma filter_length_lt {A : Type} (f : A -> bool) (l : list A) :
  Exists (fun x => f x = false) l ->
  (length (List.filter f l) < length l)%nat.
Proof.
  induction 1 as [x l Hx|x l _ IH]; simpl.
  - rewrite Hx. pose proof (filter_length_le f l). lia.
  - destruct (f x); simpl; lia.
Qed.

Lemma existsb_false {A : Type} (f : A -> bool) (l : list A) :
  Forall (fun x => f x = false) l -> existsb f l = false.
Proof.
  induction 1 as [|x l Hx _ IH]; [done|]. simpl. by rewrite Hx, IH.
Qed.

(** transforms.py, JointRandomFlip.__call__, lines 645-664.  With a
    float [flip_ratio] in [0, 1] and at least one direction, the
    sampling succeeds, and it decides not to flip exactly when the draw
    is at least [flip_ratio]: the flip has probability [flip_ratio],
    whatever the number of directions. *)
Theorem sample_direction_ratio (self : JointRandomFlip) (g : rng) (pos : nat)
    (r : Q) :
  flip_ratio self = RatioFloat r ->
  (0 <= r)%Q -> (r <= 1)%Q ->
  direction self <> DirList [] ->
  exists cur,
    sample_direction self g pos = Ok cur
    /\ (cur = None <-> (r <= unit_draw g pos)%Q).
Proof.
  intros Hratio Hr0 Hr1 Hdir.
  assert (Hdl : exists dirs, dirs <> []
                  /\ direction_list self = map Some dirs ++ [None]).
  { unfold direction_list. destruct (direction self) as [s|l].
    - by exists [s].
    - exists l. split; [congruence|done]. }
  destruct Hdl as (dirs & Hne & Hdl).
  set (n := length dirs).
  assert (Hn : (0 < n)%nat) by (unfold n; destruct dirs; [done|simpl; lia]).
  unfold sample_direction, flip_ratio_list. rewrite Hratio, Hdl.
  rewrite length_app, length_map. simpl length.
  replace (length dirs + 1 - 1)%nat with n by (unfold n; lia).
  rewrite decide_False by lia. simpl.
  set (s := (r / inject_Z (Z.of_nat n))%Q).
  pose proof (inject_Z_of_nat_nonneg n) as Hqn.
  assert (Hqn' : ~ inject_Z (Z.of_nat n) == 0).
  { change 0%Q with (inject_Z 0). rewrite inject_Z_injective. lia. }
  assert (Hns : inject_Z (Z.of_nat n) * s == r) by (unfold s; by field).
  assert (Hs : (0 <= s)%Q).
  { unfold s. apply Qle_shift_div_l; [|lra].
    destruct (Qle_lt_or_eq _ _ Hqn) as [?|Heq]; [done|].
    exfalso. apply Hqn'. by symmetry. }
  unfold choice_p.
  rewrite decide_True
    by (rewrite !length_app, length_map, length_replicate; done).
  rewrite existsb_false.
  2:{ apply Forall_app. split.
      - apply Forall_forall. intros x [-> _]%elem_of_replicate.
        by apply Qltb_false.
      - constructor; [|constructor]. apply Qltb_false. lra. }
  rewrite foldl_app. cbn [foldl].
  set (total := (foldl Qplus 0 (replicate n s) + (1 - r))%Q).
  assert (Htotal : total == 1).
  { unfold total. rewrite foldl_Qplus_replicate. lra. }
  assert (Hatol : Qltb choice_atol (Qabs (total - 1)) = false).
  { apply Qltb_false, Qabs_Qle_condition. unfold choice_atol.
    rewrite Htotal. split; [|lra]. vm_compute. discriminate. }
  rewrite Hatol.
  destruct (unit_draw_range g pos) as [Hu0 Hu1].
  set (u := unit_draw g pos) in *.
  rewrite cumsum_app. cbn [cumsum]. fold total.
  rewrite map_app, List.filter_app, length_app. cbn [map List.filter].
  assert (Hlast : Qle_bool (total / total) u = false).
  { apply not_true_is_false. rewrite Qle_bool_iff.
    assert (total / total == 1) as -> by (field; lra). lra. }
  rewrite Hlast. cbn [length]. rewrite Nat.add_0_r.
  set (cdf := map (fun c => (c / total)%Q) (cumsum 0 (replicate n s))).
  set (k := length (List.filter (fun c => Qle_bool c u) cdf)).
  assert (Hlen : length cdf = n)
    by (unfold cdf; rewrite length_map, length_cumsum, length_replicate; done).
  assert (Hk : (r <= u)%Q -> k = n).
  { intros Hru. unfold k. rewrite <- Hlen. apply filter_length_all.
    unfold cdf. apply Forall_map.
    eapply Forall_impl; [apply (cumsum_replicate_le n 0 s Hs)|].
    simpl. intros c Hc. apply Qle_bool_iff.
    assert (c / total == c) as -> by (rewrite Htotal; field). lra. }
  assert (Hk' : (u < r)%Q -> (k < n)%nat).
  { intros Hur. unfold k. rewrite <- Hlen. apply filter_length_lt.
    unfold cdf. apply Exists_map.
    eapply Exists_impl; [apply (cumsum_replicate_last n 0 s Hn)|].
    simpl. intros c Hc. apply not_true_is_false. rewrite Qle_bool_iff.
    assert (c / total == c) as -> by (rewrite Htotal; field). lra. }
  unfold index.
  destruct (Qlt_le_dec u r) as [Hur|Hru].
  - specialize (Hk' Hur).
    destruct (lookup_lt_is_Some_2 dirs k) as [d Hd]; [by fold n|].
    exists (Some d). split.
    + rewrite lookup_app_l by (rewrite length_map; by fold n).
      change (map Some dirs) with (Some <$> dirs).
      by rewrite list_lookup_fmap, Hd.
    + split; [done|]. intros Hru. lra.
  - exists None. split; [|done].
    rewrite (Hk Hru), lookup_app_r by (rewrite length_map; by fold n).
    rewrite length_map. fold n. by rewrite Nat.sub_diag.
Qed.

Lemma JointRandomFlip_call_flips_boxes_witness :
  let self := {| flip_ratio := RatioFloat (1 # 2);
                 direction := DirStr "horizontal" |} in
  let results := example_flip_record in
  let out :=
    match JointRandomFlip_call unit example_imflip (fun ms _ => Ok ms) self
            example_rng 0 ∅ results with
    | Ok (out, _) => out
    | Raise _ => ∅
    end in
  0%nat = 0%nat
  /\ (forall k, k ∉ ["img"] ++ ["gt_bboxes"] ++ [] ++ [] ->
        out !! k = results !! k)
  /\ (forall key, key ∈ ["gt_bboxes"] ->
        exists bs bs' flipped,
          read_boxes unit ∅ key results = Ok bs
          /\ bbox_flip {| ncols := 4; rows := map box_row bs |} (20, 30)
               "horizontal" = Ok flipped
          /\ map box_row bs' = rows flipped
          /\ out !! key = Some (VBoxes unit bs')).
Proof.
  intros self results out.
  apply (JointRandomFlip_call_flips_boxes example_imflip (fun ms _ => Ok ms)
           self example_rng 0 0 ∅ results out "horizontal" 20 30 [3]).
  - vm_compute. reflexivity.
  - reflexivity.
  - reflexivity.
  - reflexivity.
  - reflexivity.
  - reflexivity.
  - reflexivity.
  - reflexivity.
  - apply NoDup_singleton.
Defined.

(** On this record the box (2, 3, 10, 8) of a 30 wide image becomes
    (20, 3, 28, 8), and the label stays. *)
Example JointRandomFlip_call_example :
  match JointRandomFlip_call unit example_imflip (fun ms _ => Ok ms)
          {| flip_ratio := RatioFloat (1 # 2);
             direction := DirStr "horizontal" |}
          example_rng 0 ∅ example_flip_record with
  | Ok (out, pos) =>
      pos = 0%nat
      /\ out !! "gt_bboxes"
         = Some (VBoxes unit [ {| bx1 := 20; by1 := 3; bx2 := 28; by2 := 8 |} ])
      /\ out !! "gt_labels" = Some (VLabels unit [7])
  | Raise _ => False
  end.
Proof. vm_compute. repeat split. Qed.

Lemma JointRandomFlip_call_unbound_direction_witness :
  JointRandomFlip_call unit example_imflip (fun ms _ => Ok ms)
    {| flip_ratio := RatioFloat (1 # 2); direction := DirStr "horizontal" |}
    example_rng 0 ∅ {[ "flip" := VBool unit true ]}
  = Raise UnboundLocalError.
Proof.
  apply JointRandomFlip_call_unbound_direction.
  - eexists. reflexivity.
  - reflexivity.
Defined.

Lemma JointRandomFlip_call_default_ratio_witness :
  JointRandomFlip_call unit example_imflip (fun ms _ => Ok ms)
    {| flip_ratio := RatioNone; direction := DirStr "horizontal" |}
    example_rng 0 ∅ (delete "flip" example_flip_record)
  = Raise TypeError.
Proof.
  apply JointRandomFlip_call_default_ratio.
  - reflexivity.
  - reflexivity.
Defined.

Lemma sample_direction_ratio_witness :
  exists cur,
    sample_direction
      {| flip_ratio := RatioFloat (1 # 2);
         direction := DirList ["horizontal"; "vertical"] |} example_rng 0
    = Ok cur
    /\ (cur = None <-> (1 # 2 <= unit_draw example_rng 0)%Q).
Proof.
  apply (sample_direction_ratio
           {| flip_ratio := RatioFloat (1 # 2);
              direction := DirList ["horizontal"; "vertical"] |}).
  - reflexivity.
  - lra.
  - lra.
  - discriminate.
Defined.

(** ** transforms.py: ImgRandomCrop.get_params *)

(** transforms.py, ImgRandomCrop.get_params.  The parameters are only
    returned when the image has exactly the target size, or is strictly
    larger than the target in both dimensions; an image that matches
    the target in one dimension only, or is smaller in one, raises
    [ValueError].  A sampled window starts at non-negative offsets and
    ends strictly before the last row and the last column of the
    image. *)
Theorem get_params_window (g : rng) (pos : nat) (img : image) (th tw : Z) :
  let fits := (img_w img = tw /\ img_h img = th)
              \/ (th < img_h img /\ tw < img_w img) in
  (~ fits -> get_params g pos img (th, tw) = Raise ValueError)
  /\ (fits -> exists xmin ymin h w pos',
        get_params g pos img (th, tw) = Ok (xmin, ymin, h, w, pos'))
  /\ forall xmin ymin h w pos',
       get_params g pos img (th, tw) = Ok (xmin, ymin, h, w, pos') ->
       (img_w img = tw /\ img_h img = th /\ xmin = 0 /\ ymin = 0
        /\ h = th /\ w = tw /\ pos' = pos)
       \/ (0 <= xmin /\ xmin + th < img_h img
           /\ 0 <= ymin /\ ymin + tw < img_w img
           /\ h = th /\ w = tw /\ pos' = S (S pos)).
Proof.
  intros fits. unfold fits, get_params, np_randint.
  pose proof (randint_range g pos 0 (img_h img - th)) as Hx.
  pose proof (randint_range g (S pos) 0 (img_w img - tw)) as Hy.
  destruct (Z.eqb_spec (img_w img) tw) as [Hw|Hw];
    destruct (Z.eqb_spec (img_h img) th) as [Hh|Hh]; simpl;
    destruct (Z.leb_spec (img_h img - th) 0) as [Hh0|Hh0]; simpl;
    destruct (Z.leb_spec (img_w img - tw) 0) as [Hw0|Hw0]; simpl;
    (split; [try done; intros Hn; exfalso; apply Hn; lia|]);
    (split; [try (by eauto 10); intros [[? ?]|[? ?]]; lia|]);
    intros xmin ymin h w pos' [= <- <- <- <- <-];
    first [left; repeat split; lia | right; repeat split; lia].
Qed.

(** ** det_base.py: the aspect-ratio groups *)

Import DetBase.

Lemma np_where_elem (mask : list bool) (i j : Z) :
  j ∈ np_where i mask
  <-> exists k : nat, j = i + Z.of_nat k /\ mask !! k = Some true.
Proof.
  revert i. induction mask as [|b mask IH]; intros i; simpl.
  - split; [by intros []%not_elem_of_nil | by intros (k & _ & ?)].
  - destruct b.
    + rewrite elem_of_cons, IH. split.
      * intros [->|(k & -> & Hk)]; [exists 0%nat | exists (S k)];
          (split; [lia|done]).
      * intros ([|k] & -> & Hk); [left; lia|].
        right. exists k. split; [lia|done].
    + rewrite IH. split.
      * intros (k & -> & Hk). exists (S k). split; [lia|done].
      * intros ([|k] & -> & Hk); [done|]. exists k. split; [lia|done].
Qed.

Lemma np_where_NoDup (mask : list bool) (i : Z) : NoDup (np_where i mask).
Proof.
  revert i. induction mask as [|b mask IH]; intros i; simpl; [constructor|].
  destruct b; [|done]. constructor; [|done].
  rewrite np_where_elem. intros (k & Hk & _). lia.
Qed.

(** The pool of [batch_rand_others]: the other samples with the flag of
    the sample at position [p]. *)
Lemma pool_elem (flag : list Z) (p : nat) (f j : Z) :
  flag !! p = Some f ->
  j ∈ np_where 0 (<[p := false]> (map (fun x => x =? f) flag))
  <-> 0 <= j /\ Z.to_nat j <> p /\ flag !! Z.to_nat j = Some f.
Proof.
  intros Hp. rewrite np_where_elem.
  change (map (fun x => x =? f) flag) with ((fun x => x =? f) <$> flag).
  split.
  - intros (k & -> & Hk). rewrite Z.add_0_l, Nat2Z.id.
    destruct (decide (k = p)) as [->|Hne].
    + rewrite list_lookup_insert_eq in Hk; [done|].
      rewrite length_fmap. by eapply lookup_lt_Some.
    + rewrite list_lookup_insert_ne, list_lookup_fmap in Hk by done.
      destruct (flag !! k) as [x|]; [|done]. simpl in Hk.
      injection Hk as Hk%Z.eqb_eq. subst x. split; [lia|done].
  - intros (Hj & Hne & Hf). exists (Z.to_nat j). split; [lia|].
    rewrite list_lookup_insert_ne, list_lookup_fmap, Hf by done.
    simpl. by rewrite Z.eqb_refl.
Qed.

Lemma choice_elem_of {A : Type} (g : rng) (pos : nat) (l : list A) :
  l <> [] -> exists a, choice g pos l = Ok a /\ a ∈ l.
Proof.
  intros Hne. unfold choice. destruct l as [|a0 l0] eqn:Hl; [done|].
  rewrite <- Hl. clear Hne.
  assert (Hn : 0 < Z.of_nat (length l)) by (subst l; simpl; lia).
  pose proof (randint_range g pos 0 (Z.of_nat (length l)) Hn) as Hr.
  unfold randint in Hr. rewrite Z.sub_0_r, Z.add_0_l in Hr.
  unfold index.
  destruct (lookup_lt_is_Some_2 l
              (Z.to_nat (Qfloor (unit_draw g pos
                                 * inject_Z (Z.of_nat (length l))))))
    as [a Ha]; [lia|].
  rewrite Ha. exists a. split; [done|]. by eapply list_elem_of_lookup_2.
Qed.

Lemma for_each_choice (g : rng) (pos : nat) (pool : list Z) (size : nat) :
  pool <> [] ->
  exists js,
    for_each (fun k => choice g (pos + k) pool) (seq 0 size) = Ok js
    /\ length js = size /\ Forall (fun j => j ∈ pool) js.
Proof.
  intros Hne.
  destruct (for_each_total (fun k => choice g (pos + k) pool) (seq 0 size))
    as [js Hjs].
  { intros k _. destruct (choice_elem_of g (pos + k) pool Hne) as (a & -> & _).
    eauto. }
  exists js. split; [done|]. split.
  - rewrite (for_each_Ok_length _ _ _ Hjs). apply length_seq.
  - apply Forall_lookup. intros i j Hj.
    destruct (for_each_Ok_inv _ _ _ _ _ Hjs Hj) as (k & _ & Hk).
    destruct (choice_elem_of g (pos + k) pool Hne) as (a & Ha & Hin).
    congruence.
Qed.

Lemma swap_Permutation (i j : nat) (arr : list Z) : swap i j arr ≡ₚ arr.
Proof.
  unfold swap. destruct (arr !! i) as [a|] eqn:Ha; [|done].
  destruct (arr !! j) as [b|] eqn:Hb; [|done].
  by apply Permutation_insert_swap.
Qed.

Lemma shuffle_Permutation (g : rng) (pos i : nat) (arr : list Z) :
  shuffle g pos i arr ≡ₚ arr.
Proof.
  revert pos arr. induction i as [|i IH]; intros pos arr; simpl; [done|].
  rewrite IH. apply swap_Permutation.
Qed.

(** The indices drawn without replacement are distinct positions of
    the pool. *)
Lemma permutation_take (g : rng) (pos n size : nat) :
  NoDup (take size (permutation g pos n))
  /\ Forall (fun i => 0 <= i < Z.of_nat n) (take size (permutation g pos n))
  /\ length (take size (permutation g pos n)) = (size `min` n)%nat.
Proof.
  assert (Hperm : permutation g pos n ≡ₚ seqZ 0 (Z.of_nat n))
    by apply shuffle_Permutation.
  split; [|split].
  - eapply sublist_NoDup; [|apply sublist_take].
    rewrite Hperm. apply NoDup_seqZ.
  - apply Forall_take. rewrite Hperm. apply Forall_forall.
    intros i Hi%elem_of_seqZ. lia.
  - rewrite length_take, Hperm, length_seqZ. lia.
Qed.

Lemma for_each_index (pool : list Z) (idx : list Z) :
  NoDup pool -> NoDup idx ->
  Forall (fun i => 0 <= i < Z.of_nat (length pool)) idx ->
  exists js,
    for_each (fun i => index pool (Z.to_nat i)) idx = Ok js
    /\ length js = length idx /\ Forall (fun j => j ∈ pool) js /\ NoDup js.
Proof.
  intros Hpool Hidx Hrange.
  destruct (for_each_total (fun i => index pool (Z.to_nat i)) idx)
    as [js Hjs].
  { intros i Hi. rewrite Forall_forall in Hrange.
    specialize (Hrange i Hi). unfold index.
    destruct (lookup_lt_is_Some_2 pool (Z.to_nat i)) as [a ->]; [lia|].
    eauto. }
  exists js. split; [done|].
  pose proof (for_each_Ok_length _ _ _ Hjs) as Hlen. split; [done|]. split.
  - apply Forall_lookup. intros k j Hj.
    destruct (for_each_Ok_inv _ _ _ _ _ Hjs Hj) as (i & _ & Hi).
    unfold index in Hi. destruct (pool !! Z.to_nat i) eqn:Hp; [|done].
    injection Hi as ->. by eapply list_elem_of_lookup_2.
  - apply NoDup_alt. intros k1 k2 j Hj1 Hj2.
    destruct (for_each_Ok_inv _ _ _ _ _ Hjs Hj1) as (i1 & Hi1 & Hp1).
    destruct (for_each_Ok_inv _ _ _ _ _ Hjs Hj2) as (i2 & Hi2 & Hp2).
    unfold index in Hp1, Hp2.
    destruct (pool !! Z.to_nat i1) eqn:H1; [|done]. injection Hp1 as ->.
    destruct (pool !! Z.to_nat i2) eqn:H2; [|done]. injection Hp2 as ->.
    pose proof (NoDup_lookup _ _ _ _ Hpool H1 H2) as Heq.
    rewrite Forall_forall in Hrange.
    pose proof (Hrange i1 (list_elem_of_lookup_2 _ _ _ Hi1)).
    pose proof (Hrange i2 (list_elem_of_lookup_2 _ _ _ Hi2)).
    assert (i1 = i2) as -> by lia.
    by apply (NoDup_lookup _ _ _ _ Hidx Hi1 Hi2).
Qed.

(** The two ways in which [batch_rand_others] returns, in terms of its
    pool. *)
Lemma batch_rand_others_cases (g : rng) (pos : nat) (flag : list Z)
    (idx f : Z) (batch : nat) :
  0 <= idx -> flag !! Z.to_nat idx = Some f ->
  let pool :=
    np_where 0 (<[Z.to_nat idx := false]> (map (fun x => x =? f) flag)) in
  (pool = []
   /\ batch_rand_others g pos flag idx batch = Ok (replicate batch idx, pos))
  \/ (pool <> []
      /\ exists js pos',
           batch_rand_others g pos flag idx batch = Ok (js, pos')
           /\ length js = batch
           /\ Forall (fun j => j ∈ pool) js
           /\ ((batch <= length pool)%nat -> NoDup js)).
Proof.
  intros Hidx Hf pool. pose proof (lookup_lt_Some _ _ _ Hf) as Hlt.
  unfold batch_rand_others, np_position.
  destruct (Z.ltb_spec idx (- Z.of_nat (length flag))); [lia|].
  destruct (Z.leb_spec (Z.of_nat (length flag)) idx); [lia|].
  destruct (Z.ltb_spec idx 0); [lia|]. simpl.
  unfold index. rewrite Hf. simpl. fold pool.
  assert (Hnd : NoDup pool) by apply np_where_NoDup.
  destruct (decide (length pool = 0%nat)) as [Hempty|Hne].
  - left. by apply nil_length_inv in Hempty.
  - right. assert (Hne' : pool <> []) by (intros Heq; by rewrite Heq in Hne).
    split; [done|].
    destruct (decide (length pool < batch)%nat) as [Hlt'|Hge].
    + (* with replacement *)
      unfold choice_size.
      destruct (for_each_choice g pos pool batch Hne') as (js & -> & Hlen & Hin).
      exists js, (pos + batch)%nat. split; [done|]. split; [done|].
      split; [done|]. lia.
    + (* without replacement *)
      unfold choice_size. cbv iota.
      destruct (Nat.ltb_spec (length pool) batch); [lia|].
      destruct (permutation_take g pos (length pool) batch)
        as (Hnd' & Hrange & Hlen').
      destruct (for_each_index pool _ Hnd Hnd' Hrange)
        as (js & Hrun & Hlen & Hin & Hjs).
      unfold index in Hrun. rewrite Hrun.
      exists js, (pos + (length pool - 1))%nat.
      split; [done|]. split; [lia|]. done.
Qed.

(** det_base.py, batch_rand_others.  For a valid index [idx] the call
    returns [batch] indices.  When no other sample has the flag of
    [idx] they are all [idx] itself; otherwise each of them is another
    sample with the flag of [idx], and they are pairwise distinct
    whenever there are at least [batch] such samples. *)
Theorem batch_rand_others_group (g : rng) (pos : nat) (flag : list Z)
    (idx : Z) (batch : nat) :
  0 <= idx < Z.of_nat (length flag) ->
  exists js pos',
    batch_rand_others g pos flag idx batch = Ok (js, pos')
    /\ length js = batch
    /\ ((forall j, ~ same_group flag idx j) -> js = replicate batch idx)
    /\ ((exists j, same_group flag idx j) ->
        Forall (same_group flag idx) js)
    /\ (forall l, NoDup l -> Forall (same_group flag idx) l ->
          (batch <= length l)%nat -> NoDup js).
Proof.
  intros Hidx.
  destruct (lookup_lt_is_Some_2 flag (Z.to_nat idx)) as [f Hf]; [lia|].
  pose proof (batch_rand_others_cases g pos flag idx f batch
                (proj1 Hidx) Hf) as Hcases.
  cbv zeta in Hcases. set (pool := np_where 0 _) in Hcases.
  assert (Hpool : forall j, j ∈ pool <-> same_group flag idx j).
  { intros j. unfold pool. rewrite (pool_elem flag (Z.to_nat idx) f j Hf).
    unfold same_group. rewrite Hf. split.
    - intros (Hj & Hne & Hfj). rewrite Hfj. repeat split; eauto. lia.
    - intros (Hj & Hne & _ & Hfj). repeat split; [done|lia|done]. }
  assert (Hnd : NoDup pool) by apply np_where_NoDup.
  assert (Hsize : forall l, NoDup l -> Forall (same_group flag idx) l ->
                    (length l <= length pool)%nat).
  { intros l Hl Hall. apply submseteq_length, NoDup_submseteq; [done|].
    intros j Hj. apply Hpool. rewrite Forall_forall in Hall. by apply Hall. }
  destruct Hcases as [[Hempty Hrun]|(Hne & js & pos' & Hrun & Hlen & Hin & Hjs)].
  - exists (replicate batch idx), pos. split; [done|].
    split; [apply length_replicate|]. split; [done|]. split.
    + intros [j Hj%Hpool]. rewrite Hempty in Hj.
      by apply not_elem_of_nil in Hj.
    + intros l Hl Hall Hlen. specialize (Hsize l Hl Hall).
      rewrite Hempty in Hsize. simpl in Hsize.
      assert (batch = 0%nat) as -> by lia. constructor.
  - exists js, pos'. split; [done|]. split; [done|]. split; [|split].
    + intros Hnone. destruct pool as [|j0 pool0] eqn:Hp; [done|].
      destruct (Hnone j0). apply Hpool. left.
    + intros _. eapply Forall_impl; [exact Hin|]. intros j. apply Hpool.
    + intros l Hl Hall Hlen'. apply Hjs. specialize (Hsize l Hl Hall). lia.
Qed.

Lemma set_group_flag_lookup (data_infos : list img_info) (flag : list Z)
    (i : nat) (a : img_info) :
  _set_group_flag data_infos = Ok flag -> data_infos !! i = Some a ->
  height a <> 0
  /\ flag !! i
     = Some (if Qltb 1 (inject_Z (width a) / inject_Z (height a)) then 1
             else 0).
Proof.
  intros Hrun Ha.
  destruct (for_each_lookup _ _ _ _ _ Hrun Ha) as (b & Hb & Hg).
  unfold group_of in Hg. destruct (Z.eqb_spec (height a) 0); [done|].
  split; [done|]. rewrite Hb. by destruct (Qltb _ _); injection Hg as <-.
Qed.

(** The flag of an image of positive height says whether it is wider
    than high. *)
Lemma wider_than_high (w h : Z) :
  0 < h -> Qltb 1 (inject_Z w / inject_Z h) = true <-> h < w.
Proof.
  intros Hh. assert (Hq : (0 < inject_Z h)%Q).
  { change 0%Q with (inject_Z 0). by rewrite <- Zlt_Qlt. }
  unfold Qltb. rewrite negb_true_iff, <- not_true_iff_false, Qle_bool_iff.
  rewrite Zlt_Qlt. split.
  - intros Hn. apply Qnot_le_lt in Hn.
    apply (Qmult_lt_r _ _ _ Hq) in Hn.
    assert (Heq : inject_Z w / inject_Z h * inject_Z h == inject_Z w)
      by (field; lra).
    lra.
  - intros Hlt. apply Qlt_not_le. apply Qlt_shift_div_l; [done|]. lra.
Qed.

(** det_base.py, _set_group_flag and batch_rand_others.  With the flags
    that [_set_group_flag] computes, every index that
    [batch_rand_others] returns is the index of an image of the same
    orientation as image [idx]: both are wider than high, or neither
    is. *)
Theorem batch_rand_others_orientation (g : rng) (pos pos' : nat)
    (data_infos : list img_info) (flag : list Z) (idx : Z) (batch : nat)
    (js : list Z) :
  _set_group_flag data_infos = Ok flag ->
  Forall (fun a => 0 < height a) data_infos ->
  0 <= idx ->
  batch_rand_others g pos flag idx batch = Ok (js, pos') ->
  forall j a b,
    j ∈ js ->
    data_infos !! Z.to_nat j = Some a ->
    data_infos !! Z.to_nat idx = Some b ->
    (height a < width a <-> height b < width b).
Proof.
  intros Hflag Hpos Hidx Hrun j a b Hj Ha Hb.
  destruct (set_group_flag_lookup _ _ _ _ Hflag Ha) as [_ Hfa].
  destruct (set_group_flag_lookup _ _ _ _ Hflag Hb) as [_ Hfb].
  rewrite Forall_forall in Hpos.
  pose proof (Hpos a (list_elem_of_lookup_2 _ _ _ Ha)) as Hha.
  pose proof (Hpos b (list_elem_of_lookup_2 _ _ _ Hb)) as Hhb.
  pose proof (batch_rand_others_cases g pos flag idx _ batch Hidx Hfb)
    as Hcases.
  cbv zeta in Hcases.
  assert (Hsame : flag !! Z.to_nat j = flag !! Z.to_nat idx).
  { destruct Hcases as [[_ Hrun']|(_ & js' & pos'' & Hrun' & _ & Hin & _)];
      rewrite Hrun' in Hrun; injection Hrun as <- <-.
    - apply elem_of_replicate in Hj as [-> _]. done.
    - rewrite Forall_forall in Hin. specialize (Hin j Hj).
      apply (pool_elem flag (Z.to_nat idx) _ j Hfb) in Hin
        as (_ & _ & Hfj).
      by rewrite Hfj, Hfb. }
  rewrite Hfa, Hfb in Hsame.
  rewrite <- (wider_than_high (width a) (height a) Hha).
  rewrite <- (wider_than_high (width b) (height b) Hhb).
  destruct (Qltb 1 (inject_Z (width a) / inject_Z (height a)));
    destruct (Qltb 1 (inject_Z (width b) / inject_Z (height b)));
    try done; by injection Hsame.
Qed.

(** det_base.py, _rand_another.  For a valid index the call returns, and
    it returns the index of a sample with the flag of [idx], which may
    be [idx] itself. *)
Theorem rand_another_group (g : rng) (pos : nat) (flag : list Z) (idx : Z) :
  0 <= idx < Z.of_nat (length flag) ->
  exists j,
    _rand_another g pos flag idx = Ok (j, S pos)
    /\ 0 <= j < Z.of_nat (length flag)
    /\ flag !! Z.to_nat j = flag !! Z.to_nat idx.
Proof.
  intros Hidx. unfold _rand_another, np_position.
  destruct (Z.ltb_spec idx (- Z.of_nat (length flag))); [lia|].
  destruct (Z.leb_spec (Z.of_nat (length flag)) idx); [lia|].
  destruct (Z.ltb_spec idx 0); [lia|]. simpl.
  destruct (lookup_lt_is_Some_2 flag (Z.to_nat idx)) as [f Hf]; [lia|].
  unfold index. rewrite Hf. simpl.
  set (pool := np_where 0 _).
  assert (Hpool : forall j, j ∈ pool ->
                    0 <= j < Z.of_nat (length flag)
                    /\ flag !! Z.to_nat j = Some f).
  { intros j (k & -> & Hk)%np_where_elem.
    change (map (fun x => x =? f) flag) with ((fun x => x =? f) <$> flag)
      in Hk.
    rewrite list_lookup_fmap in Hk.
    destruct (flag !! k) as [x|] eqn:Hx; [|done]. simpl in Hk.
    injection Hk as Hk%Z.eqb_eq. subst x.
    apply lookup_lt_Some in Hx as Hlt. rewrite Z.add_0_l, Nat2Z.id.
    split; [lia|done]. }
  assert (Hne : pool <> []).
  { assert (Hin : idx ∈ pool).
    { apply np_where_elem. exists (Z.to_nat idx). split; [lia|].
      change (map (fun x => x =? f) flag) with ((fun x => x =? f) <$> flag).
      rewrite list_lookup_fmap, Hf. simpl. by rewrite Z.eqb_refl. }
    intros Heq. rewrite Heq in Hin. by apply not_elem_of_nil in Hin. }
  destruct (choice_elem_of g pos pool Hne) as (j & -> & Hj).
  simpl. exists j. split; [done|].
  destruct (Hpool j Hj) as [Hr Hfj]. split; [done|]. congruence.
Qed.

Lemma batch_rand_others_group_witness :
  exists js pos',
    batch_rand_others example_rng 0 [1; 0; 1; 1; 0] 0 2 = Ok (js, pos')
    /\ length js = 2%nat
    /\ ((forall j, ~ same_group [1; 0; 1; 1; 0] 0 j) -> js = replicate 2 0)
    /\ ((exists j, same_group [1; 0; 1; 1; 0] 0 j) ->
        Forall (same_group [1; 0; 1; 1; 0] 0) js)
    /\ (forall l, NoDup l -> Forall (same_group [1; 0; 1; 1; 0] 0) l ->
          (2 <= length l)%nat -> NoDup js).
Proof.
  apply (batch_rand_others_group example_rng 0 [1; 0; 1; 1; 0] 0 2).
  simpl. lia.
Defined.

(** On these flags the two other samples of group 1 are returned, and
    sample 0 itself is not. *)
Example batch_rand_others_example :
  match batch_rand_others example_rng 0 [1; 0; 1; 1; 0] 0 2 with
  | Ok (js, _) => js = [2; 3] \/ js = [3; 2]
  | Raise _ => False
  end.
Proof. vm_compute. auto. Qed.

Lemma batch_rand_others_orientation_witness :
  let data_infos := [ {| width := 640; height := 480 |};
                      {| width := 480; height := 640 |};
                      {| width := 800; height := 600 |};
                      {| width := 500; height := 500 |};
                      {| width := 1024; height := 768 |} ] in
  let flag := [1; 0; 1; 0; 1] in
  let js := match batch_rand_others example_rng 0 flag 0 3 with
            | Ok (js, _) => js
            | Raise _ => []
            end in
  _set_group_flag data_infos = Ok flag
  /\ forall j a b,
       j ∈ js ->
       data_infos !! Z.to_nat j = Some a ->
       data_infos !! Z.to_nat 0 = Some b ->
       (height a < width a <-> height b < width b).
Proof.
  intros data_infos flag js.
  assert (Hflag : _set_group_flag data_infos = Ok flag)
    by (vm_compute; reflexivity).
  split; [exact Hflag|].
  apply (batch_rand_others_orientation example_rng 0 3 data_infos flag 0 3 js).
  - exact Hflag.
  - repeat constructor.
  - lia.
  - vm_compute. reflexivity.
Defined.

Lemma rand_another_group_witness :
  exists j,
    _rand_another example_rng 0 [1; 0; 1; 1; 0] 1 = Ok (j, 1%nat)
    /\ 0 <= j < Z.of_nat (length [1; 0; 1; 1; 0])
    /\ [1; 0; 1; 1; 0] !! Z.to_nat j = [1; 0; 1; 1; 0] !! Z.to_nat 1.
Proof.
  apply (rand_another_group example_rng 0 [1; 0; 1; 1; 0] 1).
  simpl. lia.
Defined.
